(** * SOAP client: envelope model and response decoder

    A shallow embedding of the Go packages [soap] (request.go) and [v2]
    (its request.go, client.go and the declaration of [Fault]).  The
    packages sit on top of Go's
    [encoding/xml] and [net/http]; the parts of those libraries the code
    calls are modelled here at the level of XML tokens: a byte stream is
    represented by the sequence of tokens it consists of, of which
    [xml.Decoder.Token] yields those before the first XML declaration it
    rejects, and the output of [xml.Encoder] by the sequence of tokens it
    writes. *)

From Stdlib Require Import Ascii String NArith.
From stdpp Require Import base strings list gmap.

Set Warnings "-register-all".

Open Scope string_scope.
Open Scope list_scope.

(** ** XML names, attributes, tokens and trees *)

(** [xml.Name] *)
Record Name := mkName { Space : string; Local : string }.

(** [xml.Attr] *)
Record Attr := mkAttr { AttrName : Name; Value : string }.

(** The token kinds of [encoding/xml] that carry no structure. *)
Inductive Misc :=
| CharData (s : string)
| Comment (s : string)
| ProcInst (target inst : string)
| Directive (s : string).

(** [xml.Token] *)
Inductive Token :=
| StartElement (n : Name) (a : list Attr)
| EndElement (n : Name)
| MiscTok (m : Misc).

(** A well-formed piece of XML. *)
Inductive Node :=
| Elem (n : Name) (a : list Attr) (ch : list Node)
| Leaf (m : Misc).

(** The tokens of a tree, in document order. *)
Fixpoint tokens (x : Node) : list Token :=
  match x with
  | Elem n a ch =>
      StartElement n a ::
      (fix go (l : list Node) : list Token :=
         match l with
         | [] => []
         | y :: l' => tokens y ++ go l'
         end) ch ++ [EndElement n]
  | Leaf m => [MiscTok m]
  end.

Definition tokensL (l : list Node) : list Token := flat_map tokens l.

Definition isElem (x : Node) : bool :=
  match x with Elem _ _ _ => true | Leaf _ => false end.

(** The element children among the content of an element. *)
Definition elements (l : list Node) : list Node := filter (fun x => isElem x = true) l.

(** ** Errors *)

(** package v2: [type Fault struct] *)
Record Fault := mkFault {
  Code : string;     (* xml:"faultcode,omitempty" *)
  String_ : string;  (* xml:"faultstring,omitempty" *)
  Actor : string;    (* xml:"faultactor,omitempty" *)
  Detail : string    (* xml:"detail,omitempty" *)
}.

Definition soapNS : string := "http://schemas.xmlsoap.org/soap/envelope/".

(** package v2: [func (f *Fault) Error() string]
    [fmt.Sprintf("Soap Fault: %s: [%s] %s", f.Code, f.Actor, f.String)] *)
Definition Fault_Error (f : Fault) : string :=
  "Soap Fault: " +:+ Code f +:+ ": [" +:+ Actor f +:+ "] " +:+ String_ f.

(** The error values that reach a caller of [Parse]. *)
Inductive error :=
| EOF                            (* io.EOF *)
| SyntaxError (msg : string)     (* *xml.SyntaxError *)
| UnmarshalError (msg : string)  (* xml.UnmarshalError *)
| ErrorString (msg : string)     (* errors.New *)
| FaultError (f : Fault)         (* *Fault *)
| VersionError (ver : string)    (* fmt.Errorf, XML declaration *)
| EncodingError (enc : string).  (* fmt.Errorf, XML declaration *)

(** [%q] of [fmt], for text it prints without escapes. *)
Definition quoted (s : string) : string :=
  String (Ascii.ascii_of_nat 34) s +:+ String (Ascii.ascii_of_nat 34) "".

(** The [Error()] method of each error value (for a syntax error, without
    the line number Go puts into the message; for the errors about the XML
    declaration, with the value as [quoted] gives it). *)
Definition Error (e : error) : string :=
  match e with
  | EOF => "EOF"
  | SyntaxError msg => "XML syntax error: " +:+ msg
  | UnmarshalError msg => msg
  | ErrorString msg => msg
  | FaultError f => Fault_Error f
  | VersionError ver =>
      "xml: unsupported version " +:+ quoted ver +:+ "; only version 1.0 is supported"
  | EncodingError enc =>
      "xml: encoding " +:+ quoted enc +:+ " declared but Decoder.CharsetReader is nil"
  end.


(** What [d.Token()] returns when the input ends inside an element. *)
Definition unexpectedEOF : error := SyntaxError "unexpected EOF".

Definition errContentNil : error :=
  UnmarshalError "Content must be a pointer to a struct".

Definition errMultiple : error :=
  UnmarshalError "Found multiple elements inside SOAP body; not wrapped-document/literal WS-I compliant".

(** ** The decoder's view of an element *)

(** Reads the tokens up to the end tag that closes the element whose start
    tag was just consumed, and returns the element's content and the
    remaining input.  [stack] holds the enclosing open elements with the
    content read so far (in reverse); [acc] is the content of the innermost
    one (in reverse).  [None]: the input ends before the element does. *)
Fixpoint readNodes (d : list Token) (stack : list (Name * list Attr * list Node))
    (acc : list Node) : option (list Node * list Token) :=
  match d with
  | [] => None
  | StartElement n a :: d' => readNodes d' ((n, a, acc) :: stack) []
  | EndElement _ :: d' =>
      match stack with
      | [] => Some (rev acc, d')
      | (n, a, acc') :: stack' => readNodes d' stack' (Elem n a (rev acc) :: acc')
      end
  | MiscTok m :: d' => readNodes d' stack (Leaf m :: acc)
  end.

(** [Decoder.Skip] *)
Definition Skip (d : list Token) : option (list Token) :=
  snd <$> readNodes d [] [].

(** The character data directly inside an element, which is what
    [encoding/xml] stores into a field of type [string]. *)
Fixpoint charData (ch : list Node) : string :=
  match ch with
  | [] => ""
  | Leaf (CharData s) :: ch' => s +:+ charData ch'
  | _ :: ch' => charData ch'
  end.

(** ** The XML declaration

    The lexer of [encoding/xml] checks every processing instruction with
    target [xml]: a version other than 1.0, or an encoding other than
    UTF-8 (the decoder [xml.Unmarshal] makes has no [CharsetReader]), ends
    the token stream with an error. *)

(** [strings.IndexByte(s, c)] *)
Fixpoint indexByte (c : ascii) (s : string) : option nat :=
  match s with
  | EmptyString => None
  | String c' s' => if Ascii.eqb c' c then Some 0 else S <$> indexByte c s'
  end.

(** [s[i:]] *)
Definition suffix (i : nat) (s : string) : string :=
  String.substring i (String.length s - i) s.

Definition isQuote (c : ascii) : bool :=
  Ascii.eqb c "'" || Ascii.eqb c (Ascii.ascii_of_nat 34).

(** The loop of [procInst]: looks for [param] followed by a quote from
    position [i] on, and returns the position after the quote and the
    quote.  One iteration per unit of fuel. *)
Fixpoint procInstLoop (fuel : nat) (param s : string) (i : nat) : option (nat * ascii) :=
  match fuel with
  | 0 => None
  | S fuel' =>
      if (i <? String.length s)%nat then
        let sub := suffix i s in
        match String.index 0 param sub with
        | None => None
        | Some k =>
            if (String.length sub <=? String.length param + k)%nat then None
            else
              let i' := i + (String.length param + k + 1) in
              match String.get (String.length param + k) sub with
              | Some c => if isQuote c then Some (i', c) else procInstLoop fuel' param s i'
              | None => None
              end
        end
      else None
  end.

(** [procInst(param, s)]: the value of [param="..."] or [param='...'] in
    the content of a processing instruction, or the empty string. *)
Definition procInst (param s : string) : string :=
  match procInstLoop (S (String.length s)) (param +:+ "=") s 0 with
  | None => ""
  | Some (i, sep) =>
      match indexByte sep (suffix i s) with
      | None => ""
      | Some j => String.substring i j s
      end
  end.

Definition lowerAscii (c : ascii) : ascii :=
  let n := nat_of_ascii c in
  if ((65 <=? n) && (n <=? 90))%nat then Ascii.ascii_of_nat (n + 32) else c.

Fixpoint lower (s : string) : string :=
  match s with
  | EmptyString => EmptyString
  | String c s' => String (lowerAscii c) (lower s')
  end.

(** [strings.EqualFold(s, "utf-8")]: no character outside ASCII folds to
    a letter of [utf-8]. *)
Definition equalFoldUTF8 (s : string) : bool := String.eqb (lower s) "utf-8".

(** The error the lexer stops with at a token, if any. *)
Definition declError (m : Misc) : option error :=
  match m with
  | ProcInst target inst =>
      if String.eqb target "xml" then
        let ver := procInst "version" inst in
        if negb (String.eqb ver "") && negb (String.eqb ver "1.0") then
          Some (VersionError ver)
        else
          let enc := procInst "encoding" inst in
          if negb (String.eqb enc "") && negb (String.eqb enc "utf-8")
             && negb (String.eqb enc "UTF-8") && negb (equalFoldUTF8 enc) then
            Some (EncodingError enc)
          else None
      else None
  | _ => None
  end.

Definition acceptedMisc (m : Misc) : bool :=
  match declError m with Some _ => false | None => true end.

Definition acceptedToken (t : Token) : bool :=
  match t with MiscTok m => acceptedMisc m | _ => true end.

(** The tokens [d.Token()] hands out for an input before the lexer stops,
    and the error it stops with, if it does before the end of the input. *)
Fixpoint lexed (data : list Token) : list Token * option error :=
  match data with
  | [] => ([], None)
  | MiscTok m :: data' =>
      match declError m with
      | Some err => ([], Some err)
      | None => let '(d, tail) := lexed data' in (MiscTok m :: d, tail)
      end
  | t :: data' => let '(d, tail) := lexed data' in (t :: d, tail)
  end.

(** What [d.Token()] returns once the tokens are used up: the error the
    lexer stopped with, or the one for the end of the input. *)
Definition atEnd (tail : option error) (eof : error) : error := default eof tail.

(** A tree without a declaration the lexer rejects. *)
Fixpoint acceptedNode (x : Node) : bool :=
  match x with
  | Elem _ _ ch =>
      (fix go (l : list Node) : bool :=
         match l with
         | [] => true
         | y :: l' => acceptedNode y && go l'
         end) ch
  | Leaf m => acceptedMisc m
  end.

(** ** Decoding a Fault element *)

Definition zeroFault : Fault := mkFault "" "" "" "".

(** What [encoding/xml] does with one child of an element decoded into a
    [Fault]: a child element whose local name is the name of a field
    overwrites that field with its character data, anything else is
    skipped. *)
Definition setFaultField (f : Fault) (x : Node) : Fault :=
  match x with
  | Elem n _ ch =>
      if String.eqb (Local n) "faultcode" then
        mkFault (charData ch) (String_ f) (Actor f) (Detail f)
      else if String.eqb (Local n) "faultstring" then
        mkFault (Code f) (charData ch) (Actor f) (Detail f)
      else if String.eqb (Local n) "faultactor" then
        mkFault (Code f) (String_ f) (charData ch) (Detail f)
      else if String.eqb (Local n) "detail" then
        mkFault (Code f) (String_ f) (Actor f) (charData ch)
      else f
  | Leaf _ => f
  end.

(** Decoding an element into a [Fault]: the element's name is checked
    against the [XMLName] tag of the struct, then the children are
    processed in document order. *)
Definition unmarshalFault (f : Fault) (n : Name) (ch : list Node) : Fault * option error :=
  if negb (String.eqb (Local n) "Fault") then
    (f, Some (UnmarshalError
                ("expected element type <Fault> but have <" +:+ Local n +:+ ">")))
  else if negb (String.eqb (Space n) soapNS) then
    (f, Some (UnmarshalError
                ("expected element <Fault> in name space " +:+ soapNS +:+ " but have "
                 +:+ (if String.eqb (Space n) "" then "no name space" else Space n))))
  else (foldl setFaultField f ch, None).

(** ** The response body *)

(** A Go [interface{}] value handed to [Parse] as the destination: the nil
    interface, a nil pointer of some struct type, or a pointer to the
    destination object.  There is one destination object per call; its
    contents are threaded through the decoder as a value of type [T]. *)
Inductive Interface := INil | INilPointer | IPointer.

(** client.go: [type ResponseSOAPBody struct] *)
Record ResponseSOAPBody := mkBody {
  BodyFault : option Fault;   (* Fault   *Fault      *)
  BodyContent : Interface     (* Content interface{} *)
}.

Section Decoder.

(** The destination object's type and what [encoding/xml] does when an
    element (start tag name, attributes, content) is decoded into an
    object of that type: the object afterwards, and the error if any. *)
Context {T : Type}.
Variable unmarshal : T -> Name -> list Attr -> list Node -> T * option error.

(** The state of a running decode: the body struct, the destination
    object, the remaining input, and the error returned if any. *)
Definition outcome : Type := ResponseSOAPBody * T * list Token * option error.

(** [d.DecodeElement(b.Content, &se)].  [tail] is the error the lexer
    stopped with, if it did: it is what running out of tokens gives. *)
Definition DecodeElement (tail : option error) (v : Interface) (o : T) (n : Name)
    (a : list Attr) (d : list Token) : T * list Token * option error :=
  match v with
  | INil => (o, d, Some (ErrorString "non-pointer passed to Unmarshal"))
  | INilPointer => (o, d, Some (ErrorString "nil pointer passed to Unmarshal"))
  | IPointer =>
      match readNodes d [] [] with
      | None => (o, [], Some (atEnd tail unexpectedEOF))
      | Some (ch, d') => let '(o', e) := unmarshal o n a ch in (o', d', e)
      end
  end.

(** [d.DecodeElement(b.Fault, &se)] with [b.Fault = &Fault{}] *)
Definition DecodeFault (tail : option error) (n : Name) (d : list Token)
    : Fault * list Token * option error :=
  match readNodes d [] [] with
  | None => (zeroFault, [], Some (atEnd tail unexpectedEOF))
  | Some (ch, d') => let '(f, e) := unmarshalFault zeroFault n ch in (f, d', e)
  end.

(** client.go: the [Loop:] of [ResponseSOAPBody.UnmarshalXML].  One
    iteration per unit of fuel; [None] when the fuel runs out.  [d.Token()]
    returns either a token or an error, never a nil token without an
    error, so the exit at [token == nil] has no case of its own here.  On
    an error the state is returned as the code left it: in the Fault
    branch [b.Fault] and [b.Content] are already overwritten. *)
Fixpoint bodyLoop (tail : option error) (fuel : nat) (consumed : bool)
    (b : ResponseSOAPBody) (o : T) (d : list Token) : option outcome :=
  match fuel with
  | 0 => None
  | S fuel' =>
      match d with
      | [] => Some (b, o, [], Some (atEnd tail unexpectedEOF))
      | StartElement n a :: d' =>
          if consumed then Some (b, o, d', Some errMultiple)
          else if String.eqb (Space n) soapNS && String.eqb (Local n) "Fault" then
            let '(f, d'', e) := DecodeFault tail n d' in
            let b' := mkBody (Some f) INil in
            match e with
            | Some err => Some (b', o, d'', Some err)
            | None => bodyLoop tail fuel' true b' o d''
            end
          else
            let '(o', d'', e) := DecodeElement tail (BodyContent b) o n a d' in
            match e with
            | Some err => Some (b, o', d'', Some err)
            | None => bodyLoop tail fuel' true b o' d''
            end
      | EndElement _ :: d' => Some (b, o, d', None)
      | MiscTok _ :: d' => bodyLoop tail fuel' consumed b o d'
      end
  end.

(** client.go: [func (b *ResponseSOAPBody) UnmarshalXML] *)
Definition UnmarshalXML (tail : option error) (b : ResponseSOAPBody) (o : T)
    (d : list Token) : option outcome :=
  match BodyContent b with
  | INil => Some (b, o, d, Some errContentNil)
  | _ => bodyLoop tail (S (length d)) false b o d
  end.

(** What [xml.Unmarshal(data, env)] does for [env *ResponseSOAPEnvelope]
    once the root start tag is consumed: a child element named [Body] is
    handed to [UnmarshalXML]; a child named [Header] is decoded into
    [ResponseSOAPHeader], whose only field is an [interface{}], so that
    its content is skipped; any other child is skipped. *)
Fixpoint envelopeLoop (tail : option error) (fuel : nat) (b : ResponseSOAPBody) (o : T)
    (d : list Token) : option outcome :=
  match fuel with
  | 0 => None
  | S fuel' =>
      match d with
      | [] => Some (b, o, [], Some (atEnd tail unexpectedEOF))
      | StartElement n a :: d' =>
          if String.eqb (Local n) "Body" then
            match UnmarshalXML tail b o d' with
            | None => None
            | Some (b', o', d'', Some err) => Some (b', o', d'', Some err)
            | Some (b', o', d'', None) => envelopeLoop tail fuel' b' o' d''
            end
          else
            match Skip d' with
            | None => Some (b, o, [], Some (atEnd tail unexpectedEOF))
            | Some d'' => envelopeLoop tail fuel' b o d''
            end
      | EndElement _ :: d' => Some (b, o, d', None)
      | MiscTok _ :: d' => envelopeLoop tail fuel' b o d'
      end
  end.

(** The search for the root element: tokens before the first start tag
    are dropped (the lexer has checked them, see [lexed]). *)
Fixpoint findStart (d : list Token) : option (Name * list Attr * list Token) :=
  match d with
  | [] => None
  | StartElement n a :: d' => Some (n, a, d')
  | _ :: d' => findStart d'
  end.

(** [xml.Unmarshal(data, env)], on the tokens the lexer hands out. *)
Definition Unmarshal (tail : option error) (data : list Token) (b : ResponseSOAPBody)
    (o : T) : option outcome :=
  match findStart data with
  | None => Some (b, o, [], Some (atEnd tail EOF))
  | Some (n, _, d) =>
      if negb (String.eqb (Local n) "Envelope") then
        Some (b, o, d, Some (UnmarshalError
               ("expected element type <Envelope> but have <" +:+ Local n +:+ ">")))
      else envelopeLoop tail (S (length d)) b o d
  end.

(** client.go: [func Parse(data []byte, v interface{}) error].  [o] is
    the object [v] points to; the result is that object after the call
    and the error returned.  The decoder sees the tokens of [data] up to
    the first declaration the lexer rejects. *)
Definition Parse (data : list Token) (v : Interface) (o : T) : option (T * option error) :=
  match Unmarshal (snd (lexed data)) (fst (lexed data)) (mkBody None v) o with
  | None => None
  | Some (_, o', _, Some err) => Some (o', Some err)
  | Some (b, o', _, None) =>
      match BodyFault b with
      | Some fault => Some (o', Some (FaultError fault))
      | None => Some (o', None)
      end
  end.

End Decoder.

(** ** Text as the encoder writes it *)

(** [isInCharacterRange(r)]: the characters XML allows. *)
Definition isInCharacterRange (r : N) : bool :=
  (N.eqb r 0x09 || N.eqb r 0x0A || N.eqb r 0x0D
   || (0x20 <=? r) && (r <=? 0xD7FF)
   || (0xE000 <=? r) && (r <=? 0xFFFD)
   || (0x10000 <=? r) && (r <=? 0x10FFFF))%N.

Definition RuneError : N := 0xFFFD%N.

(** The table [first] of [unicode/utf8] with its [acceptRanges]: the width
    of the encoding a byte starts and the range of the second byte of that
    encoding; [None] for a byte that starts none. *)
Definition first (p0 : N) : option (nat * N * N) :=
  if (p0 <? 0x80)%N then Some (1, 0%N, 0%N)
  else if (p0 <? 0xC2)%N then None
  else if (p0 <? 0xE0)%N then Some (2, 0x80%N, 0xBF%N)
  else if (p0 =? 0xE0)%N then Some (3, 0xA0%N, 0xBF%N)
  else if (p0 =? 0xED)%N then Some (3, 0x80%N, 0x9F%N)
  else if (p0 <? 0xF0)%N then Some (3, 0x80%N, 0xBF%N)
  else if (p0 =? 0xF0)%N then Some (4, 0x90%N, 0xBF%N)
  else if (p0 <? 0xF4)%N then Some (4, 0x80%N, 0xBF%N)
  else if (p0 =? 0xF4)%N then Some (4, 0x80%N, 0x8F%N)
  else None.

Definition outside (lo hi b : N) : bool := ((b <? lo) || (hi <? b))%N.

Definition low (mask : N) (b : N) : N := N.land b mask.

(** [utf8.DecodeRune(p)]: the rune [p] starts with and its width in bytes;
    [RuneError] and width 1 for an encoding that is invalid or cut short. *)
Definition DecodeRune (p : string) : N * nat :=
  match p with
  | EmptyString => (RuneError, 0)
  | String c0 p1 =>
      let p0 := N_of_ascii c0 in
      match first p0 with
      | None => (RuneError, 1)
      | Some (1, _, _) => (p0, 1)
      | Some (sz, lo, hi) =>
          if (String.length p <? sz)%nat then (RuneError, 1)
          else
            match p1 with
            | EmptyString => (RuneError, 1)
            | String c1 p2 =>
                let b1 := N_of_ascii c1 in
                if outside lo hi b1 then (RuneError, 1)
                else if (sz <=? 2)%nat then
                  (N.lor (N.shiftl (low 0x1F%N p0) 6%N) (low 0x3F%N b1), 2)
                else
                  match p2 with
                  | EmptyString => (RuneError, 1)
                  | String c2 p3 =>
                      let b2 := N_of_ascii c2 in
                      if outside 0x80%N 0xBF%N b2 then (RuneError, 1)
                      else if (sz <=? 3)%nat then
                        (N.lor (N.shiftl (low 0x0F%N p0) 12%N)
                           (N.lor (N.shiftl (low 0x3F%N b1) 6%N) (low 0x3F%N b2)), 3)
                      else
                        match p3 with
                        | EmptyString => (RuneError, 1)
                        | String c3 _ =>
                            let b3 := N_of_ascii c3 in
                            if outside 0x80%N 0xBF%N b3 then (RuneError, 1)
                            else
                              (N.lor (N.shiftl (low 0x07%N p0) 18%N)
                                 (N.lor (N.shiftl (low 0x3F%N b1) 12%N)
                                    (N.lor (N.shiftl (low 0x3F%N b2) 6%N) (low 0x3F%N b3))), 4)
                        end
                  end
            end
      end
  end.

(** U+FFFD in UTF-8. *)
Definition escFFFD : string :=
  String (ascii_of_N 0xEF%N) (String (ascii_of_N 0xBF%N) (String (ascii_of_N 0xBD%N) "")).

(** The character data a reader gets for what [escapeText] writes for
    [s].  [escapeText] goes through [s] rune by rune: a character of the
    XML range is written as it is or as an entity that stands for it;
    any other character, and every byte that is not part of a valid
    encoding, is written as U+FFFD.  [skip] counts the bytes left of the
    rune handled last. *)
Fixpoint escapeText (skip : nat) (s : string) : string :=
  match s with
  | EmptyString => EmptyString
  | String _ s' =>
      match skip with
      | S skip' => escapeText skip' s'
      | 0 =>
          let '(r, width) := DecodeRune s in
          (if negb (isInCharacterRange r) || (N.eqb r 0xFFFD%N && (width =? 1)%nat)
           then escFFFD
           else String.substring 0 width s)
          +:+ escapeText (width - 1) s'
      end
  end.

Definition writtenText (s : string) : string := escapeText 0 s.

(** A Fault with its fields as the encoder writes them. *)
Definition writtenFault (f : Fault) : Fault :=
  mkFault (writtenText (Code f)) (writtenText (String_ f))
          (writtenText (Actor f)) (writtenText (Detail f)).

(** Text of ASCII characters that XML allows. *)
Fixpoint plainText (s : string) : bool :=
  match s with
  | EmptyString => true
  | String c s' =>
      (N_of_ascii c <? 0x80)%N && isInCharacterRange (N_of_ascii c) && plainText s'
  end.

(** ** The request envelope (package v2, request.go) *)

(** Results of fallible calls. *)
Inductive result (A : Type) :=
| Ok (a : A)
| Err (e : error).
Arguments Ok {A} a.
Arguments Err {A} e.

Definition bind {A B : Type} (r : result A) (k : A -> result B) : result B :=
  match r with
  | Ok a => k a
  | Err e => Err e
  end.

(** Marshals the values of a slice one after the other; the first error
    is returned. *)
Fixpoint concatResults {A B : Type} (f : A -> result (list B)) (l : list A) : result (list B) :=
  match l with
  | [] => Ok []
  | x :: l' => bind (f x) (fun ys => bind (concatResults f l') (fun zs => Ok (ys ++ zs)))
  end.

Definition soapenv : string := "soapenv".

Definition xmlURL : string := "http://www.w3.org/XML/1998/namespace".

Definition isSoapenv (attribute : Attr) : bool :=
  String.eqb (Local (AttrName attribute)) soapenv.

(** The attribute [NewRequest] starts from. *)
Definition defaultAttr : Attr := mkAttr (mkName "" soapenv) soapNS.

(** [found := false; for _, attribute := range attributes {
       if attribute.Name.Local == "soapenv" { found = true } }] *)
Definition findSoapenv (attributes : list Attr) : bool :=
  foldl (fun found attribute => if isSoapenv attribute then true else found) false attributes.

(** [filtered := requestAttributes[:0]; for _, attribute := range
     requestAttributes { if attribute.Name.Local != "soapenv" {
       filtered = append(filtered, attribute) } }], the elements of
    [filtered] afterwards (see [InMemory.filterLoop] for the loop on the
    backing array). *)
Definition removeSoapenv (requestAttributes : list Attr) : list Attr :=
  foldl (fun filtered attribute =>
           if negb (isSoapenv attribute) then filtered ++ [attribute] else filtered)
        [] requestAttributes.

Section Request.

(** The values a caller passes as [interface{}] payloads (body content
    and header elements), and what [xml.Encoder] writes for such a value
    found in the struct field named [field].  What the encoder writes is
    represented by trees whose names are the qualified names as printed:
    [Space] is empty and [Local] holds the name with its prefix. *)
Context {V : Type}.
Variable marshalValue : string -> V -> result (list Node).

(** The prefix the encoder picks for the name space of an attribute, given
    the prefixes already taken. *)
Variable pickPrefix : string -> list string -> string.

(** [type RequestSOAPHeader struct]; [None] is the nil slice, in a slice
    [None] is a nil interface. *)
Record RequestSOAPHeader := mkHeader {
  HeaderItems : option (list (option V))   (* Header []interface{} *)
}.

(** [type RequestSOAPBody struct] *)
Record RequestSOAPBody := mkReqBody {
  ReqFault : option Fault;   (* Fault   *Fault      `xml:",omitempty"` *)
  ReqContent : option V      (* Content interface{} `xml:",omitempty"` *)
}.

(** [type Request struct] *)
Record Request := mkRequest {
  Attributes : list Attr;
  Header : RequestSOAPHeader;
  Body : RequestSOAPBody;
  path : string;
  username : string;
  password : string;
  bearerToken : string;
  userAgent : string;
  contentType : string;
  action : string
}.

(** An option function [func( *Request) error]: the request after the
    call and the error returned. *)
Definition RequestOption : Type := Request -> Request * option error.

(** [func NewRequest(path string, body interface{}, header []interface{},
     options ...func( *Request) error) *Request].  The body never ranges
    over [options]. *)
Definition NewRequest (path_ : string) (body : option V)
    (header : option (list (option V))) (options : list RequestOption) : Request :=
  let envelope :=
    mkRequest [defaultAttr] (mkHeader None) (mkReqBody None None)
              path_ "" "" "" "" "" "" in
  let envelope :=
    match header with
    | Some h =>
        mkRequest (Attributes envelope) (mkHeader (Some h)) (Body envelope)
                  (path envelope) (username envelope) (password envelope)
                  (bearerToken envelope) (userAgent envelope)
                  (contentType envelope) (action envelope)
    | None => envelope
    end in
  mkRequest (Attributes envelope) (Header envelope)
            (mkReqBody (ReqFault (Body envelope)) body)
            (path envelope) (username envelope) (password envelope)
            (bearerToken envelope) (userAgent envelope)
            (contentType envelope) (action envelope).

(** [func BasicAuth(username string, password string) func( *Request) error] *)
Definition BasicAuth (u p : string) : RequestOption := fun request =>
  (mkRequest (Attributes request) (Header request) (Body request) (path request)
             u p (bearerToken request) (userAgent request)
             (contentType request) (action request), None).

(** [func UserAgent(userAgent string) func( *Request) error] *)
Definition UserAgent (ua : string) : RequestOption := fun request =>
  (mkRequest (Attributes request) (Header request) (Body request) (path request)
             (username request) (password request) (bearerToken request) ua
             (contentType request) (action request), None).

(** [func ContentType(contentType string) func( *Request) error] *)
Definition ContentType (ct : string) : RequestOption := fun request =>
  (mkRequest (Attributes request) (Header request) (Body request) (path request)
             (username request) (password request) (bearerToken request)
             (userAgent request) ct (action request), None).

(** [func Action(action string) func( *Request) error] *)
Definition Action (act : string) : RequestOption := fun request =>
  (mkRequest (Attributes request) (Header request) (Body request) (path request)
             (username request) (password request) (bearerToken request)
             (userAgent request) (contentType request) act, None).

(** [func BearerToken(token string) func( *Request) error] *)
Definition BearerToken (token : string) : RequestOption := fun request =>
  (mkRequest (Attributes request) (Header request) (Body request) (path request)
             (username request) (password request) token
             (userAgent request) (contentType request) (action request), None).

(** [func AddAttributes(attributes ...xml.Attr) func( *Request) error],
    with the attributes of the request and of the option as values: what
    the code does when the slice the option holds does not share the
    backing array of the request's attributes, as when the attributes are
    passed one by one.  The code filters the request's slice in place and
    keeps the slice it is given; [InMemory.AddAttributes] below has it on
    slices in memory, and [AddAttributes_refines] relates the two. *)
Definition AddAttributes (attributes : list Attr) : RequestOption :=
  let found := findSoapenv attributes in
  fun request =>
    let requestAttributes := Attributes request in
    let requestAttributes :=
      if found then removeSoapenv requestAttributes else requestAttributes in
    (mkRequest (requestAttributes ++ attributes) (Header request) (Body request)
               (path request) (username request) (password request)
               (bearerToken request) (userAgent request)
               (contentType request) (action request), None).

(** Applying option functions to a request one after the other, the way
    a caller (or [NewClient], for client options) does; stops at the
    first error. *)
Fixpoint applyOptions (options : list RequestOption) (request : Request)
    : Request * option error :=
  match options with
  | [] => (request, None)
  | option :: options' =>
      match option request with
      | (request', Some err) => (request', Some err)
      | (request', None) => applyOptions options' request'
      end
  end.

(** *** Serialization *)

(** What the encoder writes for a non-nil [*Fault]: the fields are
    [omitempty], and their text goes through [escapeText]. *)
Definition faultField (name value : string) : list Node :=
  if String.eqb value "" then []
  else [Elem (mkName "" name) [] [Leaf (CharData (writtenText value))]].

Definition marshalFault (f : Fault) : Node :=
  Elem (mkName "" "Fault") [mkAttr (mkName "" "xmlns") soapNS]
       (faultField "faultcode" (Code f) ++ faultField "faultstring" (String_ f) ++
        faultField "faultactor" (Actor f) ++ faultField "detail" (Detail f)).

(** An [interface{}] holding nil is skipped by the encoder. *)
Definition marshalInterface (field : string) (v : option V) : result (list Node) :=
  match v with
  | None => Ok []
  | Some x => marshalValue field x
  end.

(** [Header RequestSOAPHeader] is a struct-valued field without
    [omitempty]: the encoder writes its start and end tag whatever the
    slice inside holds. *)
Definition marshalHeader (h : RequestSOAPHeader) : result Node :=
  bind (concatResults (marshalInterface "Header") (default [] (HeaderItems h)))
       (fun items => Ok (Elem (mkName "" "soapenv:Header") [] items)).

Definition marshalBody (b : RequestSOAPBody) : result Node :=
  bind (marshalInterface "Content" (ReqContent b))
       (fun content =>
          Ok (Elem (mkName "" "soapenv:Body") []
                   (match ReqFault b with
                    | Some f => [marshalFault f]
                    | None => []
                    end ++ content))).

(** The attributes of the start tag as the encoder prints them.  An
    attribute without a local name is not printed; one without a name
    space is printed under its local name; for one with a name space the
    encoder prints it under a prefix, which it declares first unless it
    has done so already.  Values go through [escapeText].  [declared]
    pairs the name spaces declared so far with their prefixes. *)
Fixpoint printAttrs (declared : list (string * string)) (attrs : list Attr) : list Attr :=
  match attrs with
  | [] => []
  | a :: attrs' =>
      let name := AttrName a in
      if String.eqb (Local name) "" then printAttrs declared attrs'
      else if String.eqb (Space name) "" then
        mkAttr (mkName "" (Local name)) (writtenText (Value a)) :: printAttrs declared attrs'
      else
        match list_find (fun d => fst d = Space name) declared with
        | Some (_, (_, prefix)) =>
            mkAttr (mkName "" (prefix +:+ ":" +:+ Local name)) (writtenText (Value a))
              :: printAttrs declared attrs'
        | None =>
            if String.eqb (Space name) xmlURL then
              mkAttr (mkName "" ("xml:" +:+ Local name)) (writtenText (Value a))
                :: printAttrs declared attrs'
            else
              let prefix := pickPrefix (Space name) (snd <$> declared) in
              mkAttr (mkName "" ("xmlns:" +:+ prefix)) (writtenText (Space name))
                :: mkAttr (mkName "" (prefix +:+ ":" +:+ Local name)) (writtenText (Value a))
                :: printAttrs ((Space name, prefix) :: declared) attrs'
        end
  end.

(** [encoder.Encode(r)] *)
Definition marshalRequest (r : Request) : result Node :=
  bind (marshalHeader (Header r)) (fun h =>
  bind (marshalBody (Body r)) (fun b =>
  Ok (Elem (mkName "" "soapenv:Envelope") (printAttrs [] (Attributes r)) [h; b]))).

(** [func (r Request) Serialize() ( *bytes.Buffer, error)] *)
Definition Serialize (r : Request) : result (list Token) :=
  bind (marshalRequest r) (fun x => Ok (tokens x)).

End Request.

(** ** The client (package v2, client.go) *)

(** [http.Header]: each key holds the list of its values. *)
Definition HeaderAdd (key value : string) (h : gmap string (list string))
    : gmap string (list string) :=
  <[key := default [] (h !! key) ++ [value]]> h.

Definition HeaderSet (key value : string) (h : gmap string (list string))
    : gmap string (list string) :=
  <[key := [value]]> h.

(** The part of [*http.Request] the client fills in. *)
Record HttpRequest := mkHttpRequest {
  Method : string;
  URL : string;
  ReqHeader : gmap string (list string);
  ReqBody : list Token;
  Close : bool
}.

(** What comes back from a successful [httpClient.Do]: the result of
    [ioutil.ReadAll(res.Body)]. *)
Record HttpResponse := mkHttpResponse {
  RawBody : string;
  ReadErr : option error
}.

(** [type Client struct] *)
Record Client := mkClient {
  httpClient : HttpRequest -> result HttpResponse;   (* HttpClient.Do *)
  base : string;
  debug : bool;
  clientUsername : string;
  clientPassword : string;
  clientBearerToken : string;
  clientUserAgent : string;
  clientContentType : string;
  clientAction : string
}.

(** What a call does besides returning: printing in debug mode, the HTTP
    exchange, closing the response body, and handing bytes to [Parse]. *)
Inductive Event :=
| EvDebug (info : string)
| EvDo (req : HttpRequest)
| EvClose
| EvParse (rawbody : string).

Definition dquote : string := String (Ascii.ascii_of_nat 34) "".

Definition defaultContentType : string :=
  "text/xml; charset=" +:+ dquote +:+ "utf-8" +:+ dquote.

Definition defaultUserAgent : string := "Go".

Section Client.

Context {V T : Type}.
Variable marshalValue : string -> V -> result (list Node).
Variable pickPrefix : string -> list string -> string.
Variable unmarshal : T -> Name -> list Attr -> list Node -> T * option error.

(** The lexer of [encoding/xml]: the tokens of a byte buffer. *)
Variable lex : string -> list Token.

(** [http.NewRequestWithContext] fails on a URL it cannot parse. *)
Variable urlError : string -> option error.

(** The [Authorization] value [SetBasicAuth] computes. *)
Variable basicAuth : string -> string -> string.

(** Lines 252-286 of client.go: the headers of the outbound request. *)
Definition requestHeaders (c : Client) (soapReq : Request (V:=V))
    : gmap string (list string) :=
  let h : gmap string (list string) := ∅ in
  let h :=
    if negb (String.eqb (contentType soapReq) "") then
      HeaderAdd "Content-Type" (contentType soapReq) h
    else if negb (String.eqb (clientContentType c) "") then
      HeaderAdd "Content-Type" (clientContentType c) h
    else HeaderAdd "Content-Type" defaultContentType h in
  let h :=
    if negb (String.eqb (action soapReq) "") then
      HeaderAdd "SOAPAction" (action soapReq) h
    else if negb (String.eqb (clientAction c) "") then
      HeaderAdd "SOAPAction" (clientAction c) h
    else h in
  let h :=
    if negb (String.eqb (userAgent soapReq) "") then
      HeaderSet "User-Agent" (userAgent soapReq) h
    else if negb (String.eqb (clientUserAgent c) "") then
      HeaderAdd "User-Agent" (clientUserAgent c) h
    else HeaderSet "User-Agent" defaultUserAgent h in
  let h :=
    if negb (String.eqb (username soapReq) "") then
      HeaderSet "Authorization" (basicAuth (username soapReq) (password soapReq)) h
    else if negb (String.eqb (clientUsername c) "") then
      HeaderSet "Authorization" (basicAuth (clientUsername c) (clientPassword c)) h
    else h in
  if negb (String.eqb (bearerToken soapReq) "") then
    HeaderSet "Authorization" ("Bearer " +:+ bearerToken soapReq) h
  else if negb (String.eqb (clientBearerToken c) "") then
    HeaderSet "Authorization" ("Bearer " +:+ clientBearerToken c) h
  else h.

Definition debugPrintXml (c : Client) (info : string) : list Event :=
  if debug c then [EvDebug info] else [].

(** [func (c *Client) CallWithContext(ctx, soapReq *Request,
     response interface{}) error].  [o] is the object [response] points
    to.  The result is that object after the call, the error returned,
    and what the call did, in order. *)
Definition CallWithContext (c : Client) (soapReq : Request (V:=V))
    (response : Interface) (o : T) : option (T * option error * list Event) :=
  match Serialize marshalValue pickPrefix soapReq with
  | Err err => Some (o, Some err, [])
  | Ok buffer =>
      let tr := debugPrintXml c "Request:" in
      let url := base c +:+ path soapReq in
      match urlError url with
      | Some err => Some (o, Some err, tr)
      | None =>
          let httpReq :=
            mkHttpRequest "POST" url (requestHeaders c soapReq) buffer true in
          let tr := tr ++ [EvDo httpReq] in
          match httpClient c httpReq with
          | Err err => Some (o, Some err, tr)
          | Ok res =>
              match ReadErr res with
              | Some err => Some (o, Some err, tr ++ [EvClose])
              | None =>
                  let rawbody := RawBody res in
                  if Nat.eqb (String.length rawbody) 0 then
                    Some (o, None, tr ++ [EvClose])
                  else
                    let tr := tr ++ debugPrintXml c "Response:" in
                    match Parse unmarshal (lex rawbody) response o with
                    | None => None
                    | Some (o', err) =>
                        Some (o', err, tr ++ [EvParse rawbody; EvClose])
                    end
              end
          end
      end
  end.

End Client.

(** ** Package soap (request.go): the constructor without options *)

Module V1.

Section V1Request.

Context {V : Type}.

(** [type Request struct] of package soap. *)
Record Request := mkRequest {
  Attributes : list Attr;
  Header : RequestSOAPHeader (V:=V);
  Body : RequestSOAPBody (V:=V);
  path : string
}.

(** [func NewRequest(path string, body interface{}, header []interface{},
     action string, attributes ...xml.Attr) *Request] *)
Definition NewRequest (path_ : string) (body : option V)
    (header : option (list (option V))) (action_ : string)
    (attributes : list Attr) : Request :=
  let found := findSoapenv attributes in
  let attributes :=
    if negb found then attributes ++ [defaultAttr] else attributes in
  let envelope := mkRequest attributes (mkHeader None) (mkReqBody None None) path_ in
  let envelope :=
    match header with
    | Some h => mkRequest (Attributes envelope) (mkHeader (Some h)) (Body envelope)
                          (path envelope)
    | None => envelope
    end in
  mkRequest (Attributes envelope) (Header envelope)
            (mkReqBody (ReqFault (Body envelope)) body) (path envelope).

(** [func (r Request) Serialize() ( *bytes.Buffer, error)] of package
    soap: the struct has the same tags as the one of package v2. *)
Definition Serialize (marshalValue : string -> V -> result (list Node))
    (pickPrefix : string -> list string -> string) (r : Request)
    : result (list Token) :=
  bind (bind (marshalHeader marshalValue (Header r)) (fun h =>
        bind (marshalBody marshalValue (Body r)) (fun b =>
        Ok (Elem (mkName "" "soapenv:Envelope")
                 (printAttrs pickPrefix [] (Attributes r)) [h; b]))))
       (fun x => Ok (tokens x)).

End V1Request.

End V1.

(** ** Reading back what the encoder wrote

    The bytes on the wire are not modelled.  [reread] gives, for a tree as
    the encoder prints it, the tree the decoder reports for the printed
    bytes: the lexer splits every qualified name at its colon, the decoder
    records the name space declarations among the attributes and translates
    the prefixes it knows. *)

(** [strings.Cut(s, ":")] *)
Fixpoint cut (s : string) : option (string * string) :=
  match s with
  | EmptyString => None
  | String c s' =>
      if Ascii.eqb c ":"%char then Some ("", s')
      else match cut s' with
           | Some (before, after) => Some (String c before, after)
           | None => None
           end
  end.

(** The lexer's [nsname]: a name with more than one colon is a syntax
    error; a name without a colon, or with nothing on one side of it, is a
    local name. *)
Definition nsname (s : string) : option Name :=
  match cut s with
  | None => Some (mkName "" s)
  | Some (space, local) =>
      match cut local with
      | Some _ => None
      | None =>
          if String.eqb space "" || String.eqb local "" then Some (mkName "" s)
          else Some (mkName space local)
      end
  end.

(** The decoder's [translate]: names in the [xmlns] space, attribute
    names without a space and the name [xmlns] itself are left alone; the
    prefix [xml] stands for its fixed URL; any other prefix is replaced by
    the name space it is bound to, if it is bound ([DefaultSpace] is
    empty). *)
Definition translate (ns : gmap string string) (isElementName : bool) (n : Name) : Name :=
  if String.eqb (Space n) "xmlns" then n
  else if String.eqb (Space n) "" && negb isElementName then n
  else if String.eqb (Space n) "" && String.eqb (Local n) "xmlns" then n
  else
    let n := if String.eqb (Space n) "xml" then mkName xmlURL (Local n) else n in
    match ns !! Space n with
    | Some url => mkName url (Local n)
    | None => n
    end.

(** The name space declarations of a start tag. *)
Definition declare (ns : gmap string string) (a : Attr) : gmap string string :=
  if String.eqb (Space (AttrName a)) "xmlns" then <[Local (AttrName a) := Value a]> ns
  else if String.eqb (Space (AttrName a)) "" && String.eqb (Local (AttrName a)) "xmlns"
  then <[EmptyString := Value a]> ns
  else ns.

Definition lexAttr (a : Attr) : option Attr :=
  n ← nsname (Local (AttrName a)); Some (mkAttr n (Value a)).

Definition translateAttr (ns : gmap string string) (a : Attr) : Attr :=
  mkAttr (translate ns false (AttrName a)) (Value a).

Fixpoint reread (ns : gmap string string) (x : Node) : option Node :=
  match x with
  | Leaf m => if acceptedMisc m then Some (Leaf m) else None
  | Elem n a ch =>
      n' ← nsname (Local n);
      a' ← mapM lexAttr a;
      let ns' := foldl declare ns a' in
      ch' ← (fix go (l : list Node) : option (list Node) :=
               match l with
               | [] => Some []
               | y :: l' => y' ← reread ns' y; l'' ← go l'; Some (y' :: l'')
               end) ch;
      Some (Elem (translate ns' true n') (translateAttr ns' <$> a') ch')
  end.

Definition rereadL (ns : gmap string string) (l : list Node) : option (list Node) :=
  mapM (reread ns) l.

(** ** A payload type: a slice of elements

    A Go value that marshals to the elements it holds, one after the
    other without an enclosing tag, and a destination of slice type, into
    which every decoded element is appended. *)

Definition sliceMarshal (field : string) (v : list Node) : result (list Node) := Ok v.

Definition sliceUnmarshal (o : list Node) (n : Name) (a : list Attr) (ch : list Node)
    : list Node * option error :=
  (o ++ [Elem n a ch], None).

(** A destination struct with an [XMLName] tag and one string field, as a
    caller would declare for a response
    [<GetPriceResponse><Price>..</Price></GetPriceResponse>]. *)
Record GetPriceResponse := mkPrice { Price : string }.

Definition setPriceField (o : GetPriceResponse) (x : Node) : GetPriceResponse :=
  match x with
  | Elem n _ ch => if String.eqb (Local n) "Price" then mkPrice (charData ch) else o
  | Leaf _ => o
  end.

Definition priceUnmarshal (o : GetPriceResponse) (n : Name) (a : list Attr)
    (ch : list Node) : GetPriceResponse * option error :=
  if negb (String.eqb (Local n) "GetPriceResponse") then
    (o, Some (UnmarshalError
                ("expected element type <GetPriceResponse> but have <" +:+ Local n +:+ ">")))
  else (foldl setPriceField o ch, None).

(** The prefix choice of the encoder is irrelevant where no attribute has
    a name space. *)
Definition noPrefix (url : string) (taken : list string) : string := "_".

(** ** The decoder on well-formed documents

    On the tokens of a well-formed document the loops of the decoder can
    be read off the document's tree.  The functions below do so; they are
    proved to agree with [UnmarshalXML], [Unmarshal] and [Parse] and serve
    to reason about these. *)

Section DecoderOnTrees.

Context {T : Type}.
Variable unmarshal : T -> Name -> list Attr -> list Node -> T * option error.

(** The body loop over the children of the body element. *)
Fixpoint bodyTree (consumed : bool) (b : ResponseSOAPBody) (o : T) (ch : list Node)
    : ResponseSOAPBody * T * option error :=
  match ch with
  | [] => (b, o, None)
  | Leaf _ :: ch' => bodyTree consumed b o ch'
  | Elem n a c :: ch' =>
      if consumed then (b, o, Some errMultiple)
      else if String.eqb (Space n) soapNS && String.eqb (Local n) "Fault" then
        let '(f, e) := unmarshalFault zeroFault n c in
        let b' := mkBody (Some f) INil in
        match e with
        | Some err => (b', o, Some err)
        | None => bodyTree true b' o ch'
        end
      else
        match BodyContent b with
        | INil => (b, o, Some (ErrorString "non-pointer passed to Unmarshal"))
        | INilPointer => (b, o, Some (ErrorString "nil pointer passed to Unmarshal"))
        | IPointer =>
            let '(o', e) := unmarshal o n a c in
            match e with
            | Some err => (b, o', Some err)
            | None => bodyTree true b o' ch'
            end
        end
  end.

Definition unmarshalBodyTree (b : ResponseSOAPBody) (o : T) (ch : list Node)
    : ResponseSOAPBody * T * option error :=
  match BodyContent b with
  | INil => (b, o, Some errContentNil)
  | _ => bodyTree false b o ch
  end.

(** The envelope loop over the children of the root element. *)
Fixpoint envelopeTree (b : ResponseSOAPBody) (o : T) (ch : list Node)
    : ResponseSOAPBody * T * option error :=
  match ch with
  | [] => (b, o, None)
  | Leaf _ :: ch' => envelopeTree b o ch'
  | Elem n a c :: ch' =>
      if String.eqb (Local n) "Body" then
        match unmarshalBodyTree b o c with
        | (b', o', Some err) => (b', o', Some err)
        | (b', o', None) => envelopeTree b' o' ch'
        end
      else envelopeTree b o ch'
  end.

Definition parseTree (v : Interface) (o : T) (ch : list Node) : T * option error :=
  match envelopeTree (mkBody None v) o ch with
  | (_, o', Some err) => (o', Some err)
  | (b, o', None) =>
      match BodyFault b with
      | Some fault => (o', Some (FaultError fault))
      | None => (o', None)
      end
  end.

(** [Parse] on a document whose root has exactly one body element with
    children [ch]. *)
Definition parseBody (v : Interface) (o : T) (ch : list Node) : T * option error :=
  match unmarshalBodyTree (mkBody None v) o ch with
  | (_, o', Some err) => (o', Some err)
  | (b, o', None) =>
      match BodyFault b with
      | Some fault => (o', Some (FaultError fault))
      | None => (o', None)
      end
  end.

(** A token outcome agrees with a tree outcome when they carry the same
    body, destination and error and, without error, the input left is
    [rest]. *)
Definition agrees (r : option (outcome (T:=T)))
    (t : ResponseSOAPBody * T * option error) (rest : list Token) : Prop :=
  match r with
  | Some (b, o, d, e) => t = (b, o, e) /\ (e = None -> d = rest)
  | None => False
  end.

End DecoderOnTrees.

(** ** Responses

    A response document: a prolog without elements, the root element with
    a body element among its children, and whatever follows the root. *)
Record Response := mkResponse {
  prolog : list Misc;
  envName : Name;
  envAttrs : list Attr;
  beforeBody : list Node;
  bodyName : Name;
  bodyAttrs : list Attr;
  bodyChildren : list Node;
  afterBody : list Node;
  epilog : list Token
}.

Definition isBody (x : Node) : bool :=
  match x with
  | Elem n _ _ => String.eqb (Local n) "Body"
  | Leaf _ => false
  end.

(** The root is named [Envelope], the body [Body], no other child of
    the root is named [Body], and nothing up to the end of the root is a
    declaration the lexer rejects. *)
Definition validResponse (r : Response) : bool :=
  String.eqb (Local (envName r)) "Envelope"
  && String.eqb (Local (bodyName r)) "Body"
  && forallb (fun x => negb (isBody x)) (beforeBody r)
  && forallb (fun x => negb (isBody x)) (afterBody r)
  && forallb acceptedMisc (prolog r)
  && forallb acceptedNode (beforeBody r)
  && forallb acceptedNode (bodyChildren r)
  && forallb acceptedNode (afterBody r).

Definition responseTokens (r : Response) : list Token :=
  (MiscTok <$> prolog r)
  ++ tokens (Elem (envName r) (envAttrs r)
               (beforeBody r ++ [Elem (bodyName r) (bodyAttrs r) (bodyChildren r)]
                ++ afterBody r))
  ++ epilog r.

Definition isSoapFault (x : Node) : bool :=
  match x with
  | Elem n _ _ => String.eqb (Space n) soapNS && String.eqb (Local n) "Fault"
  | Leaf _ => false
  end.

(** The [Fault] value a Fault element carries. *)
Definition faultValue (x : Node) : Fault :=
  match x with
  | Elem _ _ c => foldl setFaultField zeroFault c
  | Leaf _ => zeroFault
  end.

(** ** Option lists

    The option functions the package exports, as data, so that one can
    quantify over the lists of options a caller can build from them. *)
Inductive OptionSpec :=
| OBasicAuth (u p : string)
| OUserAgent (ua : string)
| OContentType (ct : string)
| OAction (act : string)
| OBearerToken (token : string)
| OAddAttributes (attributes : list Attr).

Definition optionOf {V : Type} (s : OptionSpec) : RequestOption (V:=V) :=
  match s with
  | OBasicAuth u p => BasicAuth u p
  | OUserAgent ua => UserAgent ua
  | OContentType ct => ContentType ct
  | OAction act => Action act
  | OBearerToken token => BearerToken token
  | OAddAttributes attributes => AddAttributes attributes
  end.

(** The values of the attributes with the reserved local name. *)
Definition soapenvValues (attrs : list Attr) : list string :=
  Value <$> filter (fun a => isSoapenv a = true) attrs.

(** ** Layered defaults, in the words of the specification

    A per-request value, when set (non-empty), wins over the client-level
    default; when unset, the client default applies; when neither is set,
    a hardcoded fallback applies. *)
Definition layered (perRequest clientDefault fallback : string) : string :=
  if decide (perRequest <> "") then perRequest
  else if decide (clientDefault <> "") then clientDefault
  else fallback.

(** ** The request as the server's decoder sees it

    The tokens a decoder reports for the bytes of a serialized request:
    the buffer holds one element, which is read back with [reread]. *)
Definition wire (buffer : list Token) : option (list Token) :=
  match buffer with
  | StartElement n a :: d =>
      match readNodes d [] [] with
      | Some (ch, []) => tokens <$> reread ∅ (Elem n a ch)
      | _ => None
      end
  | _ => None
  end.

(** ** Sample documents and payloads *)

Definition element (space local : string) (ch : list Node) : Node :=
  Elem (mkName space local) [] ch.

Definition text (s : string) : Node := Leaf (CharData s).

Definition sampleFault : Node :=
  element soapNS "Fault"
    [element "" "faultcode" [text "Server.Error"];
     element "" "faultstring" [text "boom"];
     element "" "faultactor" [text "svc"]].

(** A response with a header and the given children of its body. *)
Definition sampleResponse (children : list Node) : Response :=
  mkResponse [Comment "response"] (mkName soapNS "Envelope") []
             [element soapNS "Header" [element "" "Trace" [text "t"]]]
             (mkName soapNS "Body") [] children [text " "] [].

Definition itemA : Node := element "" "a" [text "1"].
Definition itemB : Node := element "" "b" [text "2"].


Definition priceElement : Node :=
  element "" "GetPriceResponse" [element "" "Price" [text "42"]].

(** A transport that answers every request with an empty body. *)
Definition emptyBodyClient : Client :=
  mkClient (fun _ => Ok (mkHttpResponse "" None)) "http://host" true
           "" "" "" "A" "" "".

Definition sampleRequest : Request (V:=list Node) :=
  fst (UserAgent "B" (NewRequest "/price" (Some [priceElement]) None [])).

(** Stand-ins for the lexer, the URL check and the credential encoding
    of the standard library in the examples; the calls below do not depend
    on them. *)
Definition sampleLex (rawbody : string) : list Token := [].
Definition anyURL (url : string) : option error := None.
Definition sampleBasicAuth (u p : string) : string := "Basic " +:+ u +:+ ":" +:+ p.

(** ** The content of the last child element with a given local name *)

Definition namedContent (name : string) (x : Node) : option (list Node) :=
  match x with
  | Elem n _ c => if String.eqb (Local n) name then Some c else None
  | Leaf _ => None
  end.

Definition lastNamed (name : string) (ch : list Node) : option (list Node) :=
  last (omap (namedContent name) ch).

(** Whether a token is a start tag. *)
Definition isStart (t : Token) : bool :=
  match t with StartElement _ _ => true | _ => false end.

(** ** More sample documents *)

(** The same body as [sampleResponse], in an envelope without prolog,
    header or name spaces. *)
Definition bareResponse (children : list Node) : Response :=
  mkResponse [] (mkName "" "Envelope") [] [] (mkName "" "Body") [] children [] [].

(** An envelope with two body elements. *)
Definition twoBodies (ch1 ch2 : list Node) : list Token :=
  (MiscTok <$> [Comment "response"])
  ++ tokens (Elem (mkName soapNS "Envelope") []
               ([text " "] ++ Elem (mkName soapNS "Body") [] ch1
                :: [text " "] ++ Elem (mkName soapNS "Body") [] ch2 :: []))
  ++ [].

(** ** Option lists, continued *)

(** The attributes the [AddAttributes] options of a list bring, in order. *)
Definition addedAttributes (specs : list OptionSpec) : list Attr :=
  flat_map (fun s => match s with OAddAttributes attributes => attributes | _ => [] end)
           specs.

Definition isAddAttributes (s : OptionSpec) : bool :=
  match s with OAddAttributes _ => true | _ => false end.

(** Whether an option supplies an attribute with the reserved name. *)
Definition suppliesSoapenv (s : OptionSpec) : bool :=
  match s with OAddAttributes attributes => existsb isSoapenv attributes | _ => false end.

Definition userAgentOf (s : OptionSpec) : option string :=
  match s with OUserAgent ua => Some ua | _ => None end.

Definition contentTypeOf (s : OptionSpec) : option string :=
  match s with OContentType ct => Some ct | _ => None end.

Definition actionOf (s : OptionSpec) : option string :=
  match s with OAction act => Some act | _ => None end.

Definition bearerTokenOf (s : OptionSpec) : option string :=
  match s with OBearerToken token => Some token | _ => None end.

Definition basicAuthOf (s : OptionSpec) : option (string * string) :=
  match s with OBasicAuth u p => Some (u, p) | _ => None end.

(** ** A payload type with values the encoder rejects

    [Elements l] marshals to the elements [l]; [Unsupported typ] stands
    for a Go value of a type [encoding/xml] cannot marshal (a channel, a
    function, ...). *)
Inductive Payload :=
| Elements (l : list Node)
| Unsupported (typ : string).

Definition payloadMarshal (field : string) (v : Payload) : result (list Node) :=
  match v with
  | Elements l => Ok l
  | Unsupported typ => Err (ErrorString ("xml: unsupported type: " +:+ typ))
  end.

(** A request that carries a Fault in its body. *)
Definition faultRequest (f : Fault) (content : option Payload) : Request (V:=Payload) :=
  mkRequest [defaultAttr] (mkHeader (Some [Some (Elements [itemA])]))
            (mkReqBody (Some f) content) "/fault" "" "" "" "" "" "".

(** ** The client constructor and its options (client.go) *)

(** An option function [func( *Client) error]: the client after the call
    and the error returned. *)
Definition ClientOption : Type := Client -> Client * option error.

(** [func DebugMode() func( *Client) error] *)
Definition DebugMode : ClientOption := fun client =>
  (mkClient (httpClient client) (base client) true
            (clientUsername client) (clientPassword client) (clientBearerToken client)
            (clientUserAgent client) (clientContentType client) (clientAction client),
   None).

(** [func DefaultBasicAuth(username string, password string) func( *Client) error] *)
Definition DefaultBasicAuth (u p : string) : ClientOption := fun client =>
  (mkClient (httpClient client) (base client) (debug client)
            u p (clientBearerToken client)
            (clientUserAgent client) (clientContentType client) (clientAction client),
   None).

(** [func DefaultUserAgent(userAgent string) func( *Client) error] *)
Definition DefaultUserAgent (ua : string) : ClientOption := fun client =>
  (mkClient (httpClient client) (base client) (debug client)
            (clientUsername client) (clientPassword client) (clientBearerToken client)
            ua (clientContentType client) (clientAction client),
   None).

(** [func DefaultContentType(contentType string) func( *Client) error] *)
Definition DefaultContentType (ct : string) : ClientOption := fun client =>
  (mkClient (httpClient client) (base client) (debug client)
            (clientUsername client) (clientPassword client) (clientBearerToken client)
            (clientUserAgent client) ct (clientAction client),
   None).

(** [func DefaultAction(action string) func( *Client) error] *)
Definition DefaultAction (act : string) : ClientOption := fun client =>
  (mkClient (httpClient client) (base client) (debug client)
            (clientUsername client) (clientPassword client) (clientBearerToken client)
            (clientUserAgent client) (clientContentType client) act,
   None).

(** [func DefaultBearerToken(token string) func( *Client) error] *)
Definition DefaultBearerToken (token : string) : ClientOption := fun client =>
  (mkClient (httpClient client) (base client) (debug client)
            (clientUsername client) (clientPassword client) token
            (clientUserAgent client) (clientContentType client) (clientAction client),
   None).

(** The loop of [NewClient]: the options are called in order on the one
    client; the first error ends the loop and is returned without the
    client. *)
Fixpoint applyClientOptions (options : list ClientOption) (client : Client)
    : result Client :=
  match options with
  | [] => Ok client
  | option :: options' =>
      match option client with
      | (_, Some err) => Err err
      | (client', None) => applyClientOptions options' client'
      end
  end.

(** [func NewClient(httpClient HttpClient, baseAddress string,
     options ...func( *Client) error) ( *Client, error)] *)
Definition NewClient (httpClient_ : HttpRequest -> result HttpResponse)
    (baseAddress : string) (options : list ClientOption) : result Client :=
  applyClientOptions options
    (mkClient httpClient_ baseAddress false "" "" "" "" "" "").

(** The exported client options, as data. *)
Inductive ClientOptionSpec :=
| CDebugMode
| CDefaultBasicAuth (u p : string)
| CDefaultUserAgent (ua : string)
| CDefaultContentType (ct : string)
| CDefaultAction (act : string)
| CDefaultBearerToken (token : string).

Definition clientOptionOf (s : ClientOptionSpec) : ClientOption :=
  match s with
  | CDebugMode => DebugMode
  | CDefaultBasicAuth u p => DefaultBasicAuth u p
  | CDefaultUserAgent ua => DefaultUserAgent ua
  | CDefaultContentType ct => DefaultContentType ct
  | CDefaultAction act => DefaultAction act
  | CDefaultBearerToken token => DefaultBearerToken token
  end.

Definition isDebugMode (s : ClientOptionSpec) : bool :=
  match s with CDebugMode => true | _ => false end.

Definition defaultUserAgentOf (s : ClientOptionSpec) : option string :=
  match s with CDefaultUserAgent ua => Some ua | _ => None end.

Definition defaultContentTypeOf (s : ClientOptionSpec) : option string :=
  match s with CDefaultContentType ct => Some ct | _ => None end.

Definition defaultActionOf (s : ClientOptionSpec) : option string :=
  match s with CDefaultAction act => Some act | _ => None end.

Definition defaultBearerTokenOf (s : ClientOptionSpec) : option string :=
  match s with CDefaultBearerToken token => Some token | _ => None end.

Definition defaultBasicAuthOf (s : ClientOptionSpec) : option (string * string) :=
  match s with CDefaultBasicAuth u p => Some (u, p) | _ => None end.

(** Whether a setting is set: the empty string stands for unset. *)
Definition isSet (s : string) : bool := negb (String.eqb s "").

Definition isDebug (ev : Event) : bool :=
  match ev with EvDebug _ => true | _ => false end.

(** A client with its debug flag replaced. *)
Definition setDebug (d : bool) (c : Client) : Client :=
  mkClient (httpClient c) (base c) d (clientUsername c) (clientPassword c)
           (clientBearerToken c) (clientUserAgent c) (clientContentType c)
           (clientAction c).

(** A transport that fails, and one that answers with the given bytes. *)
Definition failingClient (e : error) : Client :=
  mkClient (fun _ => Err e) "http://host" true "" "" "" "" "" "".

Definition answeringClient (rawbody : string) : Client :=
  mkClient (fun _ => Ok (mkHttpResponse rawbody None)) "http://host" false
           "carol" "pw" "" "" "" "".

(** A stand-in lexer for the examples: every non-empty answer reads as
    the sample response that holds a price. *)
Definition priceLex (rawbody : string) : list Token :=
  responseTokens (sampleResponse [priceElement]).

(** The request a call hands to the transport. *)
Definition sentRequest {V : Type} (basicAuth : string -> string -> string)
    (c : Client) (soapReq : Request (V:=V)) (buffer : list Token) : HttpRequest :=
  mkHttpRequest "POST" (base c +:+ path soapReq)
                (requestHeaders basicAuth c soapReq) buffer true.

(** What the sample call does when the transport answers with an empty
    body. *)
Definition sampleTrace : list Event :=
  match Serialize sliceMarshal noPrefix sampleRequest with
  | Ok buffer =>
      [EvDebug "Request:";
       EvDo (sentRequest sampleBasicAuth emptyBodyClient sampleRequest buffer);
       EvClose]
  | Err _ => []
  end.


(** ** Attribute slices in memory

    [AddAttributes] filters the attribute slice of the request in place
    and appends to it, and the function it returns holds on to the slice
    it was given, not to a copy.  What that does when the two slices share
    a backing array only shows with the arrays modelled.  This module has
    [NewRequest] and [AddAttributes] of package v2 on slices in a heap of
    arrays; the definitions of the same names above give the attributes by
    value, which is what the ones here come to when the slice handed to
    [AddAttributes] does not share the array of the request's attributes
    (see [AddAttributes_refines]). *)
Module InMemory.

(** A slice of [xml.Attr]: a window of [len] elements, which can grow to
    [cap], from position [offset] of a backing array. *)
Record Slice := mkSlice { array : nat; offset : nat; len : nat; cap : nat }.

(** The backing arrays allocated so far, in the order of allocation; an
    array is referred to by its position. *)
Abbreviation Heap := (list (list Attr)).

Definition zeroAttr : Attr := mkAttr (mkName "" "") "".

Definition elems (h : Heap) (a : nat) : list Attr := default [] (h !! a).

(** [s[i]]; [None] where Go panics. *)
Definition index (h : Heap) (s : Slice) (i : nat) : option Attr :=
  if (i <? len s)%nat then elems h (array s) !! (offset s + i) else None.

(** The elements of [s], as [range s] or [s...] read them. *)
Definition contents (h : Heap) (s : Slice) : list Attr :=
  take (len s) (drop (offset s) (elems h (array s))).

(** [s[:0]] *)
Definition emptied (s : Slice) : Slice := mkSlice (array s) (offset s) 0 (cap s).

(** [[]xml.Attr{...}], and the slice a variadic call makes of arguments
    given one by one. *)
Definition literal (h : Heap) (l : list Attr) : Heap * Slice :=
  (h ++ [l], mkSlice (length h) 0 (length l) (length l)).

Section Runtime.

(** The capacity the runtime gives a grown slice beyond the length asked
    for, by the old capacity and that length. *)
Variable spare : nat -> nat -> nat.

(** [append(s, xs...)], for [xs] as read when the call is made: in place
    when the capacity of [s] allows, into a new array otherwise. *)
Definition append (h : Heap) (s : Slice) (xs : list Attr) : Heap * Slice :=
  let n := len s + length xs in
  if (n <=? cap s)%nat then
    (<[array s := list_inserts (offset s + len s) xs (elems h (array s))]> h,
     mkSlice (array s) (offset s) n (cap s))
  else
    (h ++ [contents h s ++ xs ++ replicate (spare (cap s) n) zeroAttr],
     mkSlice (length h) 0 n (n + spare (cap s) n)).

(** [for _, attribute := range requestAttributes {
       if attribute.Name.Local != "soapenv" {
         filtered = append(filtered, attribute) } }],
    from element [i] on, with [n] elements to go.  Each element is read
    from the array when its turn comes; [i] stays below the length of
    [requestAttributes], so that no read is out of range. *)
Fixpoint filterLoop (h : Heap) (requestAttributes filtered : Slice) (i n : nat)
    : Heap * Slice :=
  match n with
  | 0 => (h, filtered)
  | S n' =>
      match index h requestAttributes i with
      | Some attribute =>
          let '(h', filtered') :=
            if negb (isSoapenv attribute) then append h filtered [attribute]
            else (h, filtered) in
          filterLoop h' requestAttributes filtered' (S i) n'
      | None => (h, filtered)
      end
  end.

(** The field of [Request] the option works on. *)
Record Request := mkRequest { Attributes : Slice }.

(** The function [AddAttributes] returns: it has captured [found] and the
    slice [attributes]. *)
Record RequestOption := mkOption { found : bool; attributes : Slice }.

(** request.go (v2): [func AddAttributes(attributes ...xml.Attr)], the
    part that runs when the option is made. *)
Definition AddAttributes (h : Heap) (attributes : Slice) : RequestOption :=
  mkOption (findSoapenv (contents h attributes)) attributes.

(** The body of the function returned, run on [request]; it returns nil. *)
Definition call (option : RequestOption) (h : Heap) (request : Request)
    : Heap * Request :=
  let requestAttributes := Attributes request in
  let '(h1, requestAttributes) :=
    if found option then
      filterLoop h requestAttributes (emptied requestAttributes) 0 (len requestAttributes)
    else (h, requestAttributes) in
  let '(h2, combined) := append h1 requestAttributes (contents h1 (attributes option)) in
  (h2, mkRequest combined).

(** The options of a list, one after the other. *)
Definition callAll (options : list RequestOption) (h : Heap) (request : Request)
    : Heap * Request :=
  foldl (fun st option => call option st.1 st.2) (h, request) options.

End Runtime.

(** request.go (v2): [NewRequest], the attributes it starts from. *)
Definition NewRequest (h : Heap) : Heap * Request :=
  let '(h', s) := literal h [defaultAttr] in (h', mkRequest s).

(** The attributes of the request in a state. *)
Definition attributesOf (st : Heap * Request) : list Attr :=
  contents st.1 (Attributes st.2).

(** A slice within an allocated array. *)
Definition allocated (h : Heap) (s : Slice) : Prop :=
  array s < length h /\ offset s + cap s <= length (elems h (array s)) /\ len s <= cap s.

(** A slice that does not share the array of the request's attributes:
    it has no elements, or sits in another allocated array. *)
Definition apart (h : Heap) (request : Request) (s : Slice) : Prop :=
  len s = 0 \/ (array s < length h /\ array s <> array (Attributes request)).

(** The runtime's doubling of small capacities. *)
Definition doubling (oldCap n : nat) : nat := 2 * oldCap - n.

(** [req := NewRequest(...); AddAttributes(ns1)(req);
     AddAttributes(req.Attributes...)(req)] *)
Definition ns1 : Attr := mkAttr (mkName "" "ns1") "urn:a".

Definition selfAppended (spare : nat -> nat -> nat) : Heap * Request :=
  let '(h1, req) := NewRequest [] in
  let '(h2, args) := literal h1 [ns1] in
  let '(h3, req) := call spare (AddAttributes h2 args) h2 req in
  call spare (AddAttributes h3 (Attributes req)) h3 req.

(** The attributes with a local name other than "soapenv". *)
Definition kept (l : list Attr) : list Attr := filter (fun a => isSoapenv a = false) l.

(** What the options of a list come to, one after the other, by their
    flags and the elements of their slices. *)
Definition combined (init : list Attr) (values : list (bool * list Attr)) : list Attr :=
  foldl (fun l (p : bool * list Attr) => (if p.1 then removeSoapenv l else l) ++ p.2)
        init values.

Definition valuesOf (h : Heap) (options : list RequestOption)
    : list (bool * list Attr) :=
  (fun o => (found o, contents h (attributes o))) <$> options.

(** Two attribute slices made before the request. *)
Definition sampleHeap : Heap :=
  [[ns1; mkAttr (mkName "" soapenv) "X"]; [mkAttr (mkName "" "ns2") "urn:b"]].

Definition sampleSlices : list Slice := [mkSlice 0 0 2 2; mkSlice 1 0 1 1].

End InMemory.
(** * Properties *)

(** ** Trees and tokens *)
Lemma Node_forall_ind (P : Node -> Prop) :
  (forall m, P (Leaf m)) ->
  (forall n a ch, Forall P ch -> P (Elem n a ch)) ->
  forall x, P x.
Proof.
  intros HLeaf HElem. fix IH 1. intros [n a ch | m].
  - apply HElem. induction ch as [| y ch IHch]; constructor; [apply IH | exact IHch].
  - apply HLeaf.
Qed.

Lemma tokens_Elem n a ch :
  tokens (Elem n a ch) = StartElement n a :: tokensL ch ++ [EndElement n].
Proof.
  reflexivity.
Qed.

Lemma tokensL_cons x l : tokensL (x :: l) = tokens x ++ tokensL l.
Proof. done. Qed.

Lemma tokensL_app l1 l2 : tokensL (l1 ++ l2) = tokensL l1 ++ tokensL l2.
Proof. unfold tokensL. apply flat_map_app. Qed.

Lemma readNodes_tokens x :
  forall rest stack acc,
    readNodes (tokens x ++ rest) stack acc = readNodes rest stack (x :: acc).
Proof.
  induction x as [m | n a ch IH] using Node_forall_ind; intros rest stack acc.
  - done.
  - rewrite tokens_Elem. simpl. rewrite <- app_assoc.
    assert (Hl : forall acc', readNodes (tokensL ch ++ [EndElement n] ++ rest)
               ((n, a, acc) :: stack) acc'
             = readNodes ([EndElement n] ++ rest) ((n, a, acc) :: stack) (rev ch ++ acc')).
    { induction IH as [| y l Hy _ IHl]; intros acc'; [done |].
      rewrite tokensL_cons, <- app_assoc, Hy, IHl. simpl. by rewrite <- app_assoc. }
    rewrite Hl. simpl. by rewrite app_nil_r, rev_involutive.
Qed.

Lemma readNodes_tokensL l :
  forall rest stack acc,
    readNodes (tokensL l ++ rest) stack acc = readNodes rest stack (rev l ++ acc).
Proof.
  induction l as [| x l IH]; intros rest stack acc; [done |].
  rewrite tokensL_cons, <- app_assoc, readNodes_tokens, IH. simpl.
  by rewrite <- app_assoc.
Qed.

Lemma readNodes_element ch n rest :
  readNodes (tokensL ch ++ EndElement n :: rest) [] [] = Some (ch, rest).
Proof. rewrite readNodes_tokensL. simpl. by rewrite app_nil_r, rev_involutive. Qed.

Lemma readNodes_length d :
  forall stack acc ch d',
    readNodes d stack acc = Some (ch, d') -> length d' < length d.
Proof.
  induction d as [| t d IH]; intros stack acc ch d' H; [done |].
  destruct t as [n a | n | m]; simpl in *.
  - apply IH in H. lia.
  - destruct stack as [| [[n0 a0] acc0] stack].
    + injection H as _ <-. lia.
    + apply IH in H. lia.
  - apply IH in H. lia.
Qed.

(** ** The declaration check *)

(** The loop of [procInst] ends within the rounds the length of the
    content allows for. *)
Lemma procInstLoop_fuel (param s : string) : forall fuel1 fuel2 i,
  String.length s - i < fuel1 ->
  String.length s - i < fuel2 ->
  procInstLoop fuel1 param s i = procInstLoop fuel2 param s i.
Proof.
  induction fuel1 as [| fuel1 IH]; intros fuel2 i H1 H2; [lia |].
  destruct fuel2 as [| fuel2]; [lia |]. simpl.
  destruct (i <? String.length s)%nat eqn:Hi; [| done].
  apply Nat.ltb_lt in Hi.
  destruct (index 0 param (suffix i s)) as [k |]; [| done].
  destruct (String.length (suffix i s) <=? String.length param + k)%nat; [done |].
  destruct (get (String.length param + k) (suffix i s)) as [c |]; [| done].
  destruct (isQuote c); [done |]. apply IH; lia.
Qed.

Lemma acceptedNode_Elem n a ch :
  acceptedNode (Elem n a ch) = forallb acceptedNode ch.
Proof. simpl. induction ch as [| x ch IH]; [done |]. simpl. by rewrite IH. Qed.

(** The lexer hands out accepted tokens as they are. *)
Lemma lexed_app d rest :
  forallb acceptedToken d = true ->
  lexed (d ++ rest) = (d ++ (lexed rest).1, (lexed rest).2).
Proof.
  induction d as [| t d IH]; intros H.
  - simpl. by destruct (lexed rest).
  - simpl in H. apply andb_true_iff in H as [Ht Hd].
    rewrite <- app_comm_cons. destruct t as [n a | n | m]; simpl.
    + by rewrite IH.
    + by rewrite IH.
    + unfold acceptedToken, acceptedMisc in Ht.
      destruct (declError m); [done |]. by rewrite IH.
Qed.

Lemma lexed_accepted d :
  forallb acceptedToken d = true -> lexed d = (d, None).
Proof.
  intros H. rewrite <- (app_nil_r d) at 1. rewrite lexed_app by done.
  simpl. by rewrite app_nil_r.
Qed.

Lemma acceptedToken_prolog pre :
  forallb acceptedMisc pre = true -> forallb acceptedToken (MiscTok <$> pre) = true.
Proof.
  induction pre as [| m pre IH]; [done |]. simpl.
  rewrite !andb_true_iff. intros [Hm Hpre]. auto.
Qed.

Lemma acceptedToken_tokens x :
  acceptedNode x = true -> forallb acceptedToken (tokens x) = true.
Proof.
  induction x as [m | n a ch IH] using Node_forall_ind; [simpl; by intros -> |].
  rewrite acceptedNode_Elem, tokens_Elem. intros H. simpl.
  rewrite forallb_app. simpl. rewrite andb_true_r.
  induction ch as [| y ch IHch]; [done |].
  simpl in H. apply andb_true_iff in H as [Hy Hch].
  rewrite tokensL_cons, forallb_app. apply andb_true_iff. split.
  - apply Forall_inv in IH. auto.
  - apply IHch; [by apply Forall_inv_tail in IH | done].
Qed.

Lemma acceptedToken_tokensL l :
  forallb acceptedNode l = true -> forallb acceptedToken (tokensL l) = true.
Proof.
  induction l as [| x l IH]; [done |]. simpl.
  rewrite andb_true_iff. intros [Hx Hl].
  change (tokensL (x :: l)) with (tokens x ++ tokensL l).
  rewrite forallb_app, acceptedToken_tokens by done. auto.
Qed.

(** The tokens handed out are a prefix of the input. *)
Lemma lexed_prefix data : exists rest, data = (lexed data).1 ++ rest.
Proof.
  induction data as [| t data [rest IH]]; [by exists [] |].
  destruct t as [n a | n | m]; simpl.
  - destruct (lexed data) as [d tail]. exists rest. simpl in *. by f_equal.
  - destruct (lexed data) as [d tail]. exists rest. simpl in *. by f_equal.
  - destruct (declError m); [by eexists |].
    destruct (lexed data) as [d tail]. exists rest. simpl in *. by f_equal.
Qed.

Section DecoderFacts.

Context {T : Type}.
Variable unmarshal : T -> Name -> list Attr -> list Node -> T * option error.

Lemma DecodeElement_length tail v o n a d o' d' e :
  DecodeElement unmarshal tail v o n a d = (o', d', e) -> length d' <= length d.
Proof.
  unfold DecodeElement. destruct v.
  - intros [= _ <- _]. lia.
  - intros [= _ <- _]. lia.
  - destruct (readNodes d [] []) as [[ch d1] |] eqn:Hr.
    + destruct (unmarshal o n a ch). intros [= _ <- _].
      apply readNodes_length in Hr. lia.
    + intros [= _ <- _]. simpl. lia.
Qed.

Lemma DecodeFault_length tail n d f d' e :
  DecodeFault tail n d = (f, d', e) -> length d' <= length d.
Proof.
  unfold DecodeFault. destruct (readNodes d [] []) as [[ch d1] |] eqn:Hr.
  - destruct (unmarshalFault zeroFault n ch). intros [= _ <- _].
    apply readNodes_length in Hr. lia.
  - intros [= _ <- _]. simpl. lia.
Qed.

(** The body loop never runs out of fuel when given more fuel than
    tokens, and never lengthens the input. *)
Lemma bodyLoop_total tail fuel :
  forall consumed b o d,
    length d < fuel ->
    exists b' o' d' e,
      bodyLoop unmarshal tail fuel consumed b o d = Some (b', o', d', e)
      /\ length d' <= length d.
Proof.
  induction fuel as [| fuel IH]; intros consumed b o d Hlen; [lia |].
  destruct d as [| [n a | n | m] d]; simpl in *.
  - by eexists b, o, [], _.
  - destruct consumed.
    { exists b, o, d, (Some errMultiple). split; [done | lia]. }
    destruct (String.eqb (Space n) soapNS && String.eqb (Local n) "Fault").
    + destruct (DecodeFault tail n d) as [[f d1] e] eqn:Hd.
      apply DecodeFault_length in Hd. destruct e as [err |].
      * eexists _, _, _, _. split; [done | lia].
      * destruct (IH true (mkBody (Some f) INil) o d1) as (b' & o' & d' & e & -> & Hl); [lia |].
        eexists _, _, _, _. split; [done | lia].
    + destruct (DecodeElement unmarshal tail (BodyContent b) o n a d) as [[o1 d1] e] eqn:Hd.
      apply DecodeElement_length in Hd. destruct e as [err |].
      * eexists _, _, _, _. split; [done | lia].
      * destruct (IH true b o1 d1) as (b' & o' & d' & e & -> & Hl); [lia |].
        eexists _, _, _, _. split; [done | lia].
  - eexists _, _, _, _. split; [done | lia].
  - destruct (IH consumed b o d) as (b' & o' & d' & e & -> & Hl); [lia |].
    eexists _, _, _, _. split; [done | lia].
Qed.

Lemma UnmarshalXML_total tail b o d :
  exists b' o' d' e,
    UnmarshalXML unmarshal tail b o d = Some (b', o', d', e) /\ length d' <= length d.
Proof.
  unfold UnmarshalXML. destruct (BodyContent b).
  - by exists b, o, d, (Some errContentNil).
  - apply bodyLoop_total. lia.
  - apply bodyLoop_total. lia.
Qed.

Lemma envelopeLoop_total tail fuel :
  forall b o d,
    length d < fuel ->
    exists r, envelopeLoop unmarshal tail fuel b o d = Some r.
Proof.
  induction fuel as [| fuel IH]; intros b o d Hlen; [lia |].
  destruct d as [| [n a | n | m] d]; simpl in *.
  - by eexists.
  - destruct (String.eqb (Local n) "Body").
    + destruct (UnmarshalXML_total tail b o d) as (b' & o' & d' & e & -> & Hl).
      destruct e; [by eexists |]. apply IH. lia.
    + unfold Skip. destruct (readNodes d [] []) as [[ch d1] |] eqn:Hr; simpl.
      * apply IH. apply readNodes_length in Hr. lia.
      * by eexists.
  - by eexists.
  - apply IH. lia.
Qed.

Lemma findStart_length d n a d' :
  findStart d = Some (n, a, d') -> length d' < length d.
Proof.
  induction d as [| t d IH]; [done |].
  destruct t; simpl.
  - intros [= _ _ <-]. lia.
  - intros H. apply IH in H. lia.
  - intros H. apply IH in H. lia.
Qed.

(** [Parse] returns on every input. *)
Lemma Parse_total data v o :
  exists o' e, Parse unmarshal data v o = Some (o', e).
Proof.
  unfold Parse, Unmarshal.
  destruct (findStart (lexed data).1) as [[[n a] d] |]; [| by eexists _, _].
  destruct (negb (String.eqb (Local n) "Envelope")); [by eexists _, _ |].
  destruct (envelopeLoop_total (lexed data).2 (S (length d)) (mkBody None v) o d)
    as [[[[b' o'] d'] e] ->];
    [lia |].
  destruct e; [by eexists _, _ |]. destruct (BodyFault b'); by eexists _, _.
Qed.

End DecoderFacts.

Section DecoderRefinement.

Context {T : Type}.
Variable unmarshal : T -> Name -> list Attr -> list Node -> T * option error.

Lemma tokensL_Elem_app n a c l rest :
  tokensL (Elem n a c :: l) ++ rest
  = StartElement n a :: tokensL c ++ EndElement n :: tokensL l ++ rest.
Proof.
  rewrite tokensL_cons, tokens_Elem. simpl. rewrite <- !app_assoc. done.
Qed.

Lemma length_tokensL_Elem n a c l :
  length (tokensL (Elem n a c :: l)) = S (length (tokensL c) + S (length (tokensL l))).
Proof.
  rewrite tokensL_cons, tokens_Elem. simpl. rewrite !length_app. simpl. lia.
Qed.

Lemma bodyLoop_agrees tail ch :
  forall fuel consumed b o n rest,
    length (tokensL ch) < fuel ->
    agrees (bodyLoop unmarshal tail fuel consumed b o (tokensL ch ++ EndElement n :: rest))
           (bodyTree unmarshal consumed b o ch) rest.
Proof.
  induction ch as [| x ch IH]; intros fuel consumed b o n rest Hlen.
  - destruct fuel; [simpl in Hlen; lia |]. simpl. done.
  - destruct x as [n0 a0 c | m].
    + rewrite tokensL_Elem_app. rewrite length_tokensL_Elem in Hlen.
      destruct fuel as [| fuel]; [lia |]. simpl.
      destruct consumed; [done |].
      destruct (String.eqb (Space n0) soapNS && String.eqb (Local n0) "Fault").
      * unfold DecodeFault. rewrite readNodes_element.
        destruct (unmarshalFault zeroFault n0 c) as [f [err |]]; [done |].
        apply IH. lia.
      * unfold DecodeElement. destruct (BodyContent b); [done | done |].
        rewrite readNodes_element.
        destruct (unmarshal o n0 a0 c) as [o' [err |]]; [done |].
        apply IH. lia.
    + destruct fuel as [| fuel]; [simpl in Hlen; lia |]. simpl.
      apply IH. simpl in Hlen. lia.
Qed.

Lemma UnmarshalXML_agrees tail ch b o n rest :
  agrees (UnmarshalXML unmarshal tail b o (tokensL ch ++ EndElement n :: rest))
         (unmarshalBodyTree unmarshal b o ch) rest.
Proof.
  unfold UnmarshalXML, unmarshalBodyTree.
  destruct (BodyContent b) eqn:Hc; [done | |];
    apply bodyLoop_agrees; rewrite length_app; simpl; lia.
Qed.

Lemma envelopeLoop_agrees tail ch :
  forall fuel b o n rest,
    length (tokensL ch) < fuel ->
    agrees (envelopeLoop unmarshal tail fuel b o (tokensL ch ++ EndElement n :: rest))
           (envelopeTree unmarshal b o ch) rest.
Proof.
  induction ch as [| x ch IH]; intros fuel b o n rest Hlen.
  - destruct fuel; [simpl in Hlen; lia |]. simpl. done.
  - destruct x as [n0 a0 c | m].
    + rewrite tokensL_Elem_app. rewrite length_tokensL_Elem in Hlen.
      destruct fuel as [| fuel]; [lia |]. simpl.
      destruct (String.eqb (Local n0) "Body").
      * pose proof (UnmarshalXML_agrees tail c b o n0 (tokensL ch ++ EndElement n :: rest)) as Ha.
        destruct (UnmarshalXML unmarshal tail b o _) as [[[[b' o'] d'] e] |]; [| done].
        destruct Ha as [-> Hd]. destruct e as [err |]; [by split |].
        rewrite Hd by done. apply IH. lia.
      * unfold Skip. rewrite readNodes_element. simpl. apply IH. lia.
    + destruct fuel as [| fuel]; [simpl in Hlen; lia |]. simpl.
      apply IH. simpl in Hlen. lia.
Qed.

Lemma findStart_prolog pre n a d :
  findStart ((MiscTok <$> pre) ++ StartElement n a :: d) = Some (n, a, d).
Proof. induction pre as [| m pre IH]; [done | exact IH]. Qed.

(** [Parse] on a well-formed document with root [Envelope] that has no
    declaration the lexer rejects before the end of the root. *)
Lemma Parse_document pre n a ch post v o :
  Local n = "Envelope" ->
  forallb acceptedMisc pre = true ->
  forallb acceptedNode ch = true ->
  Parse unmarshal ((MiscTok <$> pre) ++ tokens (Elem n a ch) ++ post) v o
  = Some (parseTree unmarshal v o ch).
Proof.
  intros Hn Hpre Hch. unfold Parse, Unmarshal, parseTree.
  rewrite lexed_app by by apply acceptedToken_prolog.
  rewrite lexed_app by by apply acceptedToken_tokens.
  cbn [fst snd].
  set (tail := (lexed post).2). set (rest := (lexed post).1).
  rewrite tokens_Elem, <- app_comm_cons, <- app_assoc, findStart_prolog, Hn.
  change (negb (String.eqb "Envelope" "Envelope")) with false. cbv iota.
  change ([EndElement n] ++ rest) with (EndElement n :: rest).
  assert (Ha : agrees (envelopeLoop unmarshal tail
                         (S (length (tokensL ch ++ EndElement n :: rest)))
                         (mkBody None v) o (tokensL ch ++ EndElement n :: rest))
                      (envelopeTree unmarshal (mkBody None v) o ch) rest).
  { apply envelopeLoop_agrees. rewrite length_app. simpl. lia. }
  destruct (envelopeLoop unmarshal _ _ _ _ _) as [[[[b' o'] d'] e] |]; [| done].
  destruct Ha as [-> _]. destruct e; [done |]. by destruct (BodyFault b').
Qed.

Lemma envelopeTree_noBody l : forall b o rest,
  forallb (fun x => negb (isBody x)) l = true ->
  envelopeTree unmarshal b o (l ++ rest) = envelopeTree unmarshal b o rest.
Proof.
  induction l as [| x l IH]; intros b o rest H; [done |].
  simpl in H. apply andb_true_iff in H as [Hx Hl].
  destruct x as [n a c | m]; simpl.
  - simpl in Hx. apply negb_true_iff in Hx. rewrite Hx. by apply IH.
  - by apply IH.
Qed.

(** [Parse] on a response: the outcome is decided by the children of the
    body element. *)
Lemma Parse_response r v o :
  validResponse r = true ->
  Parse unmarshal (responseTokens r) v o
  = Some (parseBody unmarshal v o (bodyChildren r)).
Proof.
  unfold validResponse. rewrite !andb_true_iff.
  intros [[[[[[[He Hb] Hbefore] Hafter] Hpre] Hab] Hac] Haa].
  apply String.eqb_eq in He, Hb.
  unfold responseTokens. rewrite Parse_document; [| done | done |]; cycle 1.
  { rewrite !forallb_app, Hab, Haa. cbn [forallb]. by rewrite acceptedNode_Elem, Hac. }
  f_equal.
  unfold parseTree, parseBody. rewrite envelopeTree_noBody by done.
  simpl. rewrite Hb. simpl.
  destruct (unmarshalBodyTree unmarshal _ o (bodyChildren r)) as [[b' o'] [err |]]; [done |].
  pose proof (envelopeTree_noBody (afterBody r) b' o' [] Hafter) as Hx.
  rewrite app_nil_r in Hx. rewrite Hx. done.
Qed.

End DecoderRefinement.

(** ** The body loop on the children of the body *)

Section BodyFacts.

Context {T : Type}.
Variable unmarshal : T -> Name -> list Attr -> list Node -> T * option error.

(** Only the element children of the body matter. *)
Lemma bodyTree_elements ch :
  forall consumed b o,
    bodyTree unmarshal consumed b o ch
    = bodyTree unmarshal consumed b o (elements ch).
Proof.
  induction ch as [| x ch IH]; intros consumed b o; [done |].
  destruct x as [n a c | m].
  - change (elements (Elem n a c :: ch)) with (Elem n a c :: elements ch).
    simpl. destruct consumed; [done |].
    destruct (String.eqb (Space n) soapNS && String.eqb (Local n) "Fault").
    + destruct (unmarshalFault zeroFault n c) as [f [err |]]; [done | apply IH].
    + destruct (BodyContent b); [done | done |].
      destruct (unmarshal o n a c) as [o' [err |]]; [done | apply IH].
  - change (elements (Leaf m :: ch)) with (elements ch). simpl. apply IH.
Qed.

Lemma unmarshalFault_soapFault n a c :
  isSoapFault (Elem n a c) = true ->
  unmarshalFault zeroFault n c = (faultValue (Elem n a c), None).
Proof.
  simpl. rewrite andb_true_iff. intros [Hs Hl].
  unfold unmarshalFault. by rewrite Hs, Hl.
Qed.

(** After one element, a further element stops the loop with the
    multiple-elements error. *)
Lemma bodyTree_consumed b o x l :
  isElem x = true ->
  bodyTree unmarshal true b o (x :: l) = (b, o, Some errMultiple).
Proof. by destruct x. Qed.

Lemma bodyTree_consumed_nil b o :
  bodyTree unmarshal true b o [] = (b, o, None).
Proof. done. Qed.

(** A body whose only child is an application element: the outcome of
    [Parse] is the outcome of decoding that element. *)
Lemma parseBody_content n a c o :
  isSoapFault (Elem n a c) = false ->
  parseBody unmarshal IPointer o [Elem n a c] = unmarshal o n a c.
Proof.
  intros Hf. unfold parseBody, unmarshalBodyTree. cbn [BodyContent bodyTree].
  unfold isSoapFault in Hf. rewrite Hf.
  by destruct (unmarshal o n a c) as [o' [err |]].
Qed.

Lemma parseTree_header_body v o hn ha hc bn ba bc :
  Local hn = "Header" ->
  Local bn = "Body" ->
  parseTree unmarshal v o [Elem hn ha hc; Elem bn ba bc] = parseBody unmarshal v o bc.
Proof.
  intros Hh Hb. unfold parseTree, parseBody. cbn [envelopeTree].
  rewrite Hh, Hb. change (String.eqb "Header" "Body") with false.
  change (String.eqb "Body" "Body") with true. cbv iota.
  by destruct (unmarshalBodyTree unmarshal _ o bc) as [[b' o'] [err |]].
Qed.
Lemma elements_isElem l x l' : elements l = x :: l' -> isElem x = true.
Proof.
  intros H. assert (Hx : x ∈ elements l) by (rewrite H; left).
  by apply list_elem_of_filter in Hx as [Hx _].
Qed.

End BodyFacts.

(** ** Claims about [Parse] *)

Section ParseClaims.

Context {T : Type}.
Variable unmarshal : T -> Name -> list Attr -> list Node -> T * option error.


(** C5 (absent destination).  For a response with a non-empty body,
    [Parse] with an absent destination - the nil interface or a nil
    pointer - returns an error; for the nil interface the error is the
    one [UnmarshalXML] raises before it reads anything, with the message
    "Content must be a pointer to a struct". *)
Theorem Parse_nil_destination (r : Response) (v : Interface) (o : T) :
  validResponse r = true ->
  elements (bodyChildren r) <> [] ->
  v <> IPointer ->
  exists e,
    Parse unmarshal (responseTokens r) v o = Some (o, Some e)
    /\ (v = INil -> e = errContentNil)
    /\ Error errContentNil = "Content must be a pointer to a struct".
Proof.
  intros Hr Hne Hv. rewrite Parse_response by done.
  unfold parseBody, unmarshalBodyTree. simpl BodyContent.
  destruct v; [by exists errContentNil | | done].
  rewrite bodyTree_elements.
  destruct (elements (bodyChildren r)) as [| x l] eqn:Hx; [done |].
  pose proof (elements_isElem _ _ _ Hx) as Hel.
  destruct x as [n a c | m]; [| done]. simpl.
  destruct (String.eqb (Space n) soapNS && String.eqb (Local n) "Fault").
  - destruct (unmarshalFault zeroFault n c) as [f [err |]].
    + by exists err.
    + destruct l as [| y l].
      * by exists (FaultError f).
      * assert (Hy : isElem y = true).
        { assert (Hin : y ∈ elements (bodyChildren r)) by (rewrite Hx; right; left).
          by apply list_elem_of_filter in Hin as [Hin _]. }
        rewrite bodyTree_consumed by done. by exists errMultiple.
  - by eexists.
Qed.



End ParseClaims.


Lemma Parse_nil_destination_witness :
  exists e,
    Parse priceUnmarshal (responseTokens (sampleResponse [priceElement])) INil (mkPrice "")
    = Some (mkPrice "", Some e)
    /\ (INil = INil -> e = errContentNil)
    /\ Error errContentNil = "Content must be a pointer to a struct".
Proof.
  apply (Parse_nil_destination priceUnmarshal (sampleResponse [priceElement]) INil
           (mkPrice "")); [reflexivity | discriminate | discriminate].
Defined.





(** ** Claims about the request envelope *)

Lemma findSoapenv_foldl (attributes : list Attr) : forall found,
  foldl (fun found attribute => if isSoapenv attribute then true else found)
        found attributes
  = found || existsb isSoapenv attributes.
Proof.
  induction attributes as [| a l IH]; intros found; simpl.
  - by rewrite orb_false_r.
  - rewrite IH. destruct (isSoapenv a), found; done.
Qed.

Lemma findSoapenv_existsb (attributes : list Attr) :
  findSoapenv attributes = existsb isSoapenv attributes.
Proof. unfold findSoapenv. by rewrite findSoapenv_foldl. Qed.

Lemma removeSoapenv_foldl (l : list Attr) : forall filtered,
  foldl (fun filtered attribute =>
           if negb (isSoapenv attribute) then filtered ++ [attribute] else filtered)
        filtered l
  = filtered ++ filter (fun a => isSoapenv a = false) l.
Proof.
  induction l as [| a l IH]; intros filtered; simpl.
  - by rewrite app_nil_r.
  - rewrite IH. destruct (isSoapenv a) eqn:Ha; simpl.
    + rewrite filter_cons_False; [done | by rewrite Ha].
    + rewrite filter_cons_True by done. by rewrite <- app_assoc.
Qed.

Lemma removeSoapenv_filter (l : list Attr) :
  removeSoapenv l = filter (fun a => isSoapenv a = false) l.
Proof. unfold removeSoapenv. by rewrite removeSoapenv_foldl. Qed.

Lemma soapenvValues_app (l1 l2 : list Attr) :
  soapenvValues (l1 ++ l2) = soapenvValues l1 ++ soapenvValues l2.
Proof. unfold soapenvValues. by rewrite filter_app, fmap_app. Qed.

Lemma soapenvValues_removeSoapenv (l : list Attr) :
  soapenvValues (removeSoapenv l) = [].
Proof.
  rewrite removeSoapenv_filter. unfold soapenvValues.
  induction l as [| a l IH]; [done |].
  destruct (isSoapenv a) eqn:Ha.
  - rewrite filter_cons_False; [done | by rewrite Ha].
  - rewrite filter_cons_True by done.
    rewrite filter_cons_False; [done | by rewrite Ha].
Qed.

Lemma soapenvValues_nil_iff (l : list Attr) :
  soapenvValues l = [] <-> existsb isSoapenv l = false.
Proof.
  unfold soapenvValues. induction l as [| a l IH]; [done |].
  simpl. destruct (isSoapenv a) eqn:Ha.
  - rewrite filter_cons_True by done. done.
  - rewrite filter_cons_False; [done | by rewrite Ha].
Qed.

Section RequestClaims.

Context {V : Type}.
Variable marshalValue : string -> V -> result (list Node).
Variable pickPrefix : string -> list string -> string.

(** What [AddAttributes] does to the reserved attribute: the new
    attributes replace the values present when they supply one, and leave
    them alone otherwise. *)
Lemma AddAttributes_soapenv (attributes : list Attr) (request : Request (V:=V)) :
  snd (AddAttributes attributes request) = None
  /\ soapenvValues (Attributes (fst (AddAttributes attributes request)))
     = if findSoapenv attributes then soapenvValues attributes
       else soapenvValues (Attributes request).
Proof.
  split; [done |]. simpl. rewrite soapenvValues_app.
  destruct (findSoapenv attributes) eqn:Hf.
  - by rewrite soapenvValues_removeSoapenv.
  - rewrite findSoapenv_existsb in Hf. apply soapenvValues_nil_iff in Hf.
    by rewrite Hf, app_nil_r.
Qed.

(** The exported options never fail. *)
Lemma optionOf_ok (s : OptionSpec) (request : Request (V:=V)) :
  snd (optionOf s request) = None.
Proof. by destruct s. Qed.

Lemma optionOf_soapenv (s : OptionSpec) (request : Request (V:=V)) :
  soapenvValues (Attributes request) <> [] ->
  soapenvValues (Attributes (fst (optionOf s request))) <> [].
Proof.
  intros H. destruct s; try done.
  simpl optionOf. rewrite (proj2 (AddAttributes_soapenv attributes request)).
  destruct (findSoapenv attributes) eqn:Hf; [| done].
  rewrite findSoapenv_existsb in Hf. rewrite soapenvValues_nil_iff, Hf. done.
Qed.

Lemma applyOptions_soapenv (specs : list OptionSpec) : forall request : Request (V:=V),
  soapenvValues (Attributes request) <> [] ->
  snd (applyOptions (optionOf <$> specs) request) = None
  /\ soapenvValues (Attributes (fst (applyOptions (optionOf <$> specs) request))) <> [].
Proof.
  induction specs as [| s specs IH]; intros request H; [done |].
  simpl. pose proof (optionOf_ok s request) as Hok.
  pose proof (optionOf_soapenv s request H) as Hs.
  destruct (optionOf s request) as [request' [err |]]; [done |].
  by apply IH.
Qed.

(** On values, the reserved attribute is always there: a request
    produced by [NewRequest] and then handed to any sequence of the
    exported options, [AddAttributes] among them, has at least one
    attribute whose local name is "soapenv"; and none of these options
    fails. *)
Theorem soapenv_always_present (path_ : string) (body : option V)
    (header : option (list (option V))) (options : list RequestOption)
    (specs : list OptionSpec) :
  snd (applyOptions (optionOf <$> specs) (NewRequest path_ body header options)) = None
  /\ exists a,
       a ∈ Attributes (fst (applyOptions (optionOf <$> specs)
                              (NewRequest path_ body header options)))
       /\ Local (AttrName a) = "soapenv".
Proof.
  destruct (applyOptions_soapenv specs (NewRequest path_ body header options))
    as [Hok Hne].
  { by destruct header. }
  split; [done |].
  unfold soapenvValues in Hne.
  destruct (filter (fun a => isSoapenv a = true) _) as [| a l] eqn:Hf; [done |].
  exists a. assert (Ha : a ∈ filter (fun a => isSoapenv a = true)
                     (Attributes (fst (applyOptions (optionOf <$> specs)
                                         (NewRequest path_ body header options))))).
  { rewrite Hf. left. }
  apply list_elem_of_filter in Ha as [Hs Hin]. split; [done |].
  by apply String.eqb_eq in Hs.
Qed.

(** C7 (attribute override), what the code does: [NewRequest] never
    applies the options it is given, so that a request constructed with
    [AddAttributes] of a "soapenv" attribute of value [X] still carries the
    default value, and so does the root element the encoder prints. *)
Theorem NewRequest_ignores_options (path_ : string) (body : option V)
    (header : option (list (option V))) (options : list RequestOption) (X : string) :
  NewRequest path_ body header options = NewRequest path_ body header []
  /\ soapenvValues
       (Attributes (NewRequest path_ body header
                      [AddAttributes [mkAttr (mkName "" soapenv) X]]))
     = [soapNS]
  /\ printAttrs pickPrefix []
       (Attributes (NewRequest path_ body header
                      [AddAttributes [mkAttr (mkName "" soapenv) X]]))
     = [defaultAttr].
Proof. by destruct header. Qed.

(** The option does what the claim says once a caller applies it by
    hand: the reserved attribute then has the caller's value only. *)
Lemma AddAttributes_by_hand (path_ : string) (body : option V)
    (header : option (list (option V))) (X : string) :
  soapenvValues
    (Attributes (fst (AddAttributes [mkAttr (mkName "" soapenv) X]
                        (NewRequest path_ body header []))))
  = [X].
Proof. by destruct header. Qed.

(** The constructor of package soap, which takes the attributes
    themselves, puts the default in only when the caller supplies no
    "soapenv" attribute. *)
Lemma V1_NewRequest_soapenv (path_ : string) (body : option V)
    (header : option (list (option V))) (action_ : string) (attributes : list Attr) :
  soapenvValues (V1.Attributes (V1.NewRequest path_ body header action_ attributes))
  = if findSoapenv attributes then soapenvValues attributes else [soapNS].
Proof.
  assert (H : V1.Attributes (V1.NewRequest path_ body header action_ attributes)
              = if negb (findSoapenv attributes) then attributes ++ [defaultAttr]
                else attributes) by (by destruct header).
  rewrite H. destruct (findSoapenv attributes) eqn:Hf; [done |]. simpl.
  rewrite soapenvValues_app. rewrite findSoapenv_existsb in Hf.
  apply soapenvValues_nil_iff in Hf. by rewrite Hf.
Qed.

(** C3 (header omission), what the code does: for an envelope
    constructed without header elements the encoder still writes the
    start and end tag of the header, with nothing in between. *)
Theorem Serialize_writes_empty_Header (path_ : string) (body : option V)
    (options : list RequestOption) :
  Serialize marshalValue pickPrefix (NewRequest path_ body None options)
  = bind (marshalInterface marshalValue "Content" body)
         (fun content =>
            Ok ([StartElement (mkName "" "soapenv:Envelope") [defaultAttr];
                 StartElement (mkName "" "soapenv:Header") [];
                 EndElement (mkName "" "soapenv:Header");
                 StartElement (mkName "" "soapenv:Body") []]
                ++ tokensL content
                ++ [EndElement (mkName "" "soapenv:Body");
                    EndElement (mkName "" "soapenv:Envelope")])).
Proof.
  unfold Serialize, marshalRequest, marshalBody. simpl.
  destruct (marshalInterface marshalValue "Content" body) as [content | err]; [| done].
  simpl. rewrite app_nil_r. do 5 f_equal. by rewrite <- app_assoc.
Qed.

End RequestClaims.

(** ** Serializing and parsing back *)

Lemma reread_Elem (ns : gmap string string) (n : Name) (a : list Attr) (ch : list Node) :
  reread ns (Elem n a ch)
  = n' ← nsname (Local n);
    a' ← mapM lexAttr a;
    ch' ← rereadL (foldl declare ns a') ch;
    Some (Elem (translate (foldl declare ns a') true n')
               (translateAttr (foldl declare ns a') <$> a') ch').
Proof.
  simpl. destruct (nsname (Local n)) as [n' |]; [| done]. simpl.
  destruct (mapM lexAttr a) as [a' |]; [| done]. simpl.
  assert (H : forall l,
             (fix go (l : list Node) : option (list Node) :=
                match l with
                | [] => Some []
                | y :: l' =>
                    y' ← reread (foldl declare ns a') y; l'' ← go l'; Some (y' :: l'')
                end) l = rereadL (foldl declare ns a') l).
  { induction l as [| y l IH]; [done |]. rewrite IH. done. }
  by rewrite H.
Qed.

Lemma rereadL_cons ns y l :
  rereadL ns (y :: l) = y' ← reread ns y; l' ← rereadL ns l; Some (y' :: l').
Proof. done. Qed.

(** What the decoder reads back has no declaration the lexer rejects. *)
Lemma reread_accepted x : forall ns y,
  reread ns x = Some y -> acceptedNode y = true.
Proof.
  induction x as [m | n a ch IH] using Node_forall_ind; intros ns y.
  - simpl. destruct (acceptedMisc m) eqn:Hm; [| done]. by intros [= <-].
  - rewrite reread_Elem.
    destruct (nsname (Local n)) as [n' |]; [| done]. simpl.
    destruct (mapM lexAttr a) as [a' |]; [| done]. simpl.
    destruct (rereadL (foldl declare ns a') ch) as [ch' |] eqn:Hch; [| done]. simpl.
    intros [= <-]. rewrite acceptedNode_Elem.
    revert ch' Hch. generalize (foldl declare ns a'). intros ns'.
    induction IH as [| z l Hz _ IHl]; intros ch'.
    + by intros [= <-].
    + rewrite rereadL_cons.
      destruct (reread ns' z) as [z' |] eqn:Hz'; [| done]. simpl.
      destruct (rereadL ns' l) as [l' |]; [| done]. simpl.
      intros [= <-]. simpl. rewrite (Hz _ _ Hz'). by apply IHl.
Qed.

Lemma rereadL_accepted ns l l' :
  rereadL ns l = Some l' -> forallb acceptedNode l' = true.
Proof.
  revert l'. induction l as [| x l IH]; intros l'.
  - by intros [= <-].
  - rewrite rereadL_cons.
    destruct (reread ns x) as [x' |] eqn:Hx; [| done]. simpl.
    destruct (rereadL ns l) as [l0 |]; [| done]. simpl.
    intros [= <-]. simpl. rewrite (reread_accepted _ _ _ Hx). by apply IH.
Qed.

Lemma reread_Elem_Some ns n a ch n' a' :
  nsname (Local n) = Some n' ->
  mapM lexAttr a = Some a' ->
  reread ns (Elem n a ch)
  = ch' ← rereadL (foldl declare ns a') ch;
    Some (Elem (translate (foldl declare ns a') true n')
               (translateAttr (foldl declare ns a') <$> a') ch').
Proof. intros Hn Ha. rewrite reread_Elem, Hn, Ha. done. Qed.

Lemma reread_prefixed (local : string) (ch : list Node) (n : Name) :
  nsname local = Some n ->
  Space n = "soapenv" ->
  reread ∅ (Elem (mkName "" local) [] ch)
  = ch' ← rereadL ∅ ch; Some (Elem n [] ch').
Proof.
  intros Hn Hs. rewrite (reread_Elem_Some _ _ _ _ n []) by done.
  destruct n as [sp lo]. simpl in Hs. subst sp. done.
Qed.

(** The request as the decoder reads it back. *)
Lemma reread_request (items content : list Node) :
  reread ∅ (Elem (mkName "" "soapenv:Envelope") [defaultAttr]
              [Elem (mkName "" "soapenv:Header") [] items;
               Elem (mkName "" "soapenv:Body") [] content])
  = items' ← rereadL ∅ items;
    content' ← rereadL ∅ content;
    Some (Elem (mkName "soapenv" "Envelope") [defaultAttr]
            [Elem (mkName "soapenv" "Header") [] items';
             Elem (mkName "soapenv" "Body") [] content']).
Proof.
  rewrite (reread_Elem_Some _ _ _ _ (mkName "soapenv" "Envelope") [defaultAttr]) by done.
  change (foldl declare ∅ [defaultAttr]) with (∅ : gmap string string).
  rewrite !rereadL_cons.
  rewrite (reread_prefixed "soapenv:Header" items (mkName "soapenv" "Header")) by done.
  rewrite (reread_prefixed "soapenv:Body" content (mkName "soapenv" "Body")) by done.
  destruct (rereadL ∅ items) as [items' |]; [| done].
  destruct (rereadL ∅ content) as [content' |]; done.
Qed.

Lemma Ok_inj {A : Type} (a b : A) : Ok a = Ok b -> a = b.
Proof. congruence. Qed.

Lemma wire_tokens (n : Name) (a : list Attr) (ch : list Node) :
  wire (tokens (Elem n a ch)) = tokens <$> reread ∅ (Elem n a ch).
Proof.
  rewrite tokens_Elem. unfold wire.
  change (tokensL ch ++ [EndElement n]) with (tokensL ch ++ EndElement n :: []).
  by rewrite readNodes_element.
Qed.

Section RoundTrip.

Context {V T : Type}.
Variable marshalValue : string -> V -> result (list Node).
Variable pickPrefix : string -> list string -> string.
Variable unmarshal : T -> Name -> list Attr -> list Node -> T * option error.

(** What [Serialize] writes for a request fresh from [NewRequest]. *)
Lemma Serialize_NewRequest (path_ : string) (body : option V)
    (header : option (list (option V))) (options : list RequestOption) :
  Serialize marshalValue pickPrefix (NewRequest path_ body header options)
  = bind (concatResults (marshalInterface marshalValue "Header") (default [] header))
      (fun items =>
         bind (marshalInterface marshalValue "Content" body)
           (fun content =>
              Ok (tokens (Elem (mkName "" "soapenv:Envelope") [defaultAttr]
                            [Elem (mkName "" "soapenv:Header") [] items;
                             Elem (mkName "" "soapenv:Body") [] content])))).
Proof.
  unfold Serialize, marshalRequest, marshalHeader, marshalBody.
  destruct header as [h |]; simpl.
  - destruct (concatResults _ h) as [items | e]; [| done]. simpl.
    by destruct (marshalInterface marshalValue "Content" body).
  - by destruct (marshalInterface marshalValue "Content" body).
Qed.

(** C6 (round trip), as the code has it.  Take an envelope constructed
    with header elements [h1; h2] and content [C], where [C] marshals to
    one element that the decoder reads back as an element other than a
    SOAP Fault, and a destination into which that element decodes without
    error, giving [o'].  Then parsing what [Serialize] wrote returns no
    error and leaves [o'] in the destination. *)
Theorem Serialize_Parse_roundtrip (path_ : string) (h1 h2 C : V)
    (options : list RequestOption) (buffer data : list Token)
    (x : Node) (n : Name) (a : list Attr) (c : list Node) (o o' : T) :
  Serialize marshalValue pickPrefix
            (NewRequest path_ (Some C) (Some [Some h1; Some h2]) options)
  = Ok buffer ->
  wire buffer = Some data ->
  marshalValue "Content" C = Ok [x] ->
  reread ∅ x = Some (Elem n a c) ->
  isSoapFault (Elem n a c) = false ->
  unmarshal o n a c = (o', None) ->
  Parse unmarshal data IPointer o = Some (o', None).
Proof.
  intros Hser Hwire HC Hx Hf Hu.
  rewrite Serialize_NewRequest in Hser.
  change (marshalInterface marshalValue "Content" (Some C))
    with (marshalValue "Content" C) in Hser.
  change (concatResults _ _)
    with (bind (marshalValue "Header" h1)
            (fun ys => bind (bind (marshalValue "Header" h2)
                               (fun ys0 => Ok (ys0 ++ [])))
                         (fun zs => Ok (ys ++ zs)))) in Hser.
  rewrite HC in Hser.
  destruct (marshalValue "Header" h1) as [i1 | e1]; [| discriminate Hser].
  destruct (marshalValue "Header" h2) as [i2 | e2]; [| discriminate Hser].
  cbn [bind] in Hser. apply Ok_inj in Hser. rewrite <- Hser in Hwire.
  rewrite wire_tokens, reread_request in Hwire.
  destruct (rereadL ∅ (i1 ++ i2 ++ [])) as [items |] eqn:Hitems; [| discriminate Hwire].
  apply rereadL_accepted in Hitems.
  pose proof (reread_accepted _ _ _ Hx) as Hacc.
  rewrite rereadL_cons, Hx in Hwire.
  assert (Hd : data = tokens (Elem (mkName "soapenv" "Envelope") [defaultAttr]
                        [Elem (mkName "soapenv" "Header") [] items;
                         Elem (mkName "soapenv" "Body") [] [Elem n a c]])).
  { cbn in Hwire. injection Hwire as <-. reflexivity. }
  pose proof (Parse_document unmarshal [] (mkName "soapenv" "Envelope") [defaultAttr]
                [Elem (mkName "soapenv" "Header") [] items;
                 Elem (mkName "soapenv" "Body") [] [Elem n a c]]
                [] IPointer o eq_refl eq_refl) as Hp.
  rewrite acceptedNode_Elem in Hacc.
  cbn [forallb] in Hp. rewrite !acceptedNode_Elem in Hp. cbn [forallb] in Hp.
  rewrite !acceptedNode_Elem, Hitems, Hacc in Hp. specialize (Hp eq_refl).
  change ((MiscTok <$> []) ++ ?l) with l in Hp.
  rewrite app_nil_r, <- Hd in Hp. rewrite Hp. f_equal.
  rewrite parseTree_header_body by done. rewrite parseBody_content by done. done.
Qed.

End RoundTrip.

Lemma Serialize_Parse_roundtrip_witness :
  exists buffer data,
    Serialize sliceMarshal noPrefix
              (NewRequest "/price" (Some [priceElement])
                          (Some [Some [itemA]; Some [itemB]]) [])
    = Ok buffer
    /\ wire buffer = Some data
    /\ Parse priceUnmarshal data IPointer (mkPrice "") = Some (mkPrice "42", None).
Proof.
  eexists _, _. split; [reflexivity |]. split; [vm_compute; reflexivity |].
  eapply (Serialize_Parse_roundtrip sliceMarshal noPrefix priceUnmarshal
            "/price" [itemA] [itemB] [priceElement] []);
    [reflexivity | vm_compute; reflexivity | reflexivity | vm_compute; reflexivity
     | reflexivity | reflexivity].
Defined.

(** C6, as stated, fails: a content value that marshals to two elements
    (a slice) is serialized without error, and parsing the result back
    into a destination of the same shape stops at the second element with
    the multiple-elements error. *)
Lemma Serialize_Parse_roundtrip_counterexample :
  exists buffer data,
    Serialize sliceMarshal noPrefix
              (NewRequest "/items" (Some [itemA; itemB])
                          (Some [Some [itemA]; Some [itemB]]) [])
    = Ok buffer
    /\ wire buffer = Some data
    /\ Parse sliceUnmarshal data IPointer [] = Some ([itemA], Some errMultiple).
Proof.
  eexists _, _. split; [reflexivity |]. split; [vm_compute; reflexivity |].
  vm_compute. reflexivity.
Qed.

(** ** Claims about [CallWithContext] *)

Lemma nonempty_eqb (s : string) : negb (String.eqb s "") = bool_decide (s <> "").
Proof.
  destruct (String.eqb s "") eqn:H.
  - apply String.eqb_eq in H. subst. done.
  - apply String.eqb_neq in H. simpl. symmetry. by apply bool_decide_eq_true.
Qed.

Lemma lookup_HeaderSet_ne (k k' v : string) (h : gmap string (list string)) :
  k <> k' -> HeaderSet k v h !! k' = h !! k'.
Proof. intros H. unfold HeaderSet. by rewrite lookup_insert_ne. Qed.

Lemma lookup_HeaderAdd_ne (k k' v : string) (h : gmap string (list string)) :
  k <> k' -> HeaderAdd k v h !! k' = h !! k'.
Proof. intros H. unfold HeaderAdd. by rewrite lookup_insert_ne. Qed.

Lemma lookup_HeaderSet_eq (k v : string) (h : gmap string (list string)) :
  HeaderSet k v h !! k = Some [v].
Proof. unfold HeaderSet. by rewrite lookup_insert_eq. Qed.

Lemma lookup_HeaderAdd_eq (k v : string) (h : gmap string (list string)) :
  HeaderAdd k v h !! k = Some (default [] (h !! k) ++ [v]).
Proof. unfold HeaderAdd. by rewrite lookup_insert_eq. Qed.

Section ClientClaims.

Context {V T : Type}.
Variable marshalValue : string -> V -> result (list Node).
Variable pickPrefix : string -> list string -> string.
Variable unmarshal : T -> Name -> list Attr -> list Node -> T * option error.
Variable lex : string -> list Token.
Variable urlError : string -> option error.
Variable basicAuth : string -> string -> string.

Lemma requestHeaders_User_Agent (c : Client) (soapReq : Request (V:=V)) :
  requestHeaders basicAuth c soapReq !! "User-Agent"
  = Some [layered (userAgent soapReq) (clientUserAgent c) defaultUserAgent].
Proof.
  unfold requestHeaders, layered.
  rewrite !(nonempty_eqb (userAgent soapReq)), !(nonempty_eqb (clientUserAgent c)).
  repeat match goal with
         | |- context [if negb (String.eqb ?s "") then _ else _] =>
             destruct (negb (String.eqb s ""))
         end;
    rewrite ?lookup_HeaderSet_ne by done;
    repeat case_bool_decide; repeat case_decide; try done;
    rewrite ?lookup_HeaderSet_eq, ?lookup_HeaderAdd_eq;
    rewrite ?lookup_HeaderAdd_ne by done;
    rewrite ?lookup_empty; done.
Qed.

Lemma requestHeaders_Content_Type (c : Client) (soapReq : Request (V:=V)) :
  requestHeaders basicAuth c soapReq !! "Content-Type"
  = Some [layered (contentType soapReq) (clientContentType c) defaultContentType].
Proof.
  unfold requestHeaders, layered.
  rewrite !(nonempty_eqb (contentType soapReq)), !(nonempty_eqb (clientContentType c)).
  repeat match goal with
         | |- context [if negb (String.eqb ?s "") then _ else _] =>
             destruct (negb (String.eqb s ""))
         end;
    rewrite ?lookup_HeaderSet_ne by done;
    rewrite ?lookup_HeaderAdd_ne by done;
    rewrite ?lookup_HeaderSet_ne by done;
    rewrite ?lookup_HeaderAdd_ne by done;
    repeat case_bool_decide; repeat case_decide; try done;
    rewrite ?lookup_HeaderAdd_eq, ?lookup_empty; done.
Qed.

(** A call always returns. *)
Lemma CallWithContext_total (c : Client) (soapReq : Request (V:=V))
    (response : Interface) (o : T) :
  exists o' err tr,
    CallWithContext marshalValue pickPrefix unmarshal lex urlError basicAuth
                    c soapReq response o = Some (o', err, tr).
Proof.
  unfold CallWithContext.
  destruct (Serialize marshalValue pickPrefix soapReq); [| by eexists _, _, _].
  destruct (urlError _); [by eexists _, _, _ |].
  destruct (httpClient c _) as [res |]; [| by eexists _, _, _].
  destruct (ReadErr res); [by eexists _, _, _ |].
  destruct (Nat.eqb _ 0); [by eexists _, _, _ |].
  destruct (Parse_total unmarshal (lex (RawBody res)) response o) as (o' & e & ->).
  by eexists _, _, _.
Qed.

(** Every request handed to the transport is the one built from the
    client and the SOAP request. *)
Lemma CallWithContext_EvDo (c : Client) (soapReq : Request (V:=V))
    (response : Interface) (o o' : T) (err : option error) (tr : list Event)
    (req : HttpRequest) :
  CallWithContext marshalValue pickPrefix unmarshal lex urlError basicAuth
                  c soapReq response o = Some (o', err, tr) ->
  EvDo req ∈ tr ->
  ReqHeader req = requestHeaders basicAuth c soapReq
  /\ Method req = "POST"
  /\ URL req = base c +:+ path soapReq.
Proof.
  unfold CallWithContext, debugPrintXml. intros H Hin.
  assert (Hev : forall l1 l2 : list Event,
             EvDo req ∈ (if debug c then l1 else []) ++ l2 ->
             (forall r, EvDo r ∉ l1) -> EvDo req ∈ l2).
  { intros l1 l2 Hi Hn. apply elem_of_app in Hi as [Hi | Hi]; [| done].
    destruct (debug c); [by apply Hn in Hi | by apply elem_of_nil in Hi]. }
  destruct (Serialize marshalValue pickPrefix soapReq) as [buffer | e].
  2:{ injection H as _ _ <-. by apply elem_of_nil in Hin. }
  destruct (urlError (base c +:+ path soapReq)) as [e |].
  { injection H as _ _ <-. destruct (debug c); [| by apply elem_of_nil in Hin].
    apply list_elem_of_singleton in Hin. done. }
  assert (Hone : forall l, (forall r, EvDo r ∉ l) ->
             EvDo req ∈ ((if debug c then [EvDebug "Request:"] else [])
                          ++ [EvDo (mkHttpRequest "POST" (base c +:+ path soapReq)
                                      (requestHeaders basicAuth c soapReq) buffer true)])
                        ++ l ->
             ReqHeader req = requestHeaders basicAuth c soapReq
             /\ Method req = "POST" /\ URL req = base c +:+ path soapReq).
  { intros l Hl Hi. rewrite <- app_assoc in Hi. apply Hev in Hi.
    - apply elem_of_cons in Hi as [[= ->] | Hi]; [done | by apply Hl in Hi].
    - intros r Hr. apply list_elem_of_singleton in Hr. done. }
  destruct (httpClient c _) as [res | e].
  2:{ injection H as _ _ <-. apply (Hone []); [intros r Hr; by apply elem_of_nil in Hr |].
      by rewrite app_nil_r. }
  destruct (ReadErr res) as [e |].
  { injection H as _ _ <-. apply (Hone [EvClose]); [| done].
    intros r Hr. apply list_elem_of_singleton in Hr. done. }
  destruct (Nat.eqb (String.length (RawBody res)) 0).
  { injection H as _ _ <-. apply (Hone [EvClose]); [| done].
    intros r Hr. apply list_elem_of_singleton in Hr. done. }
  destruct (Parse unmarshal (lex (RawBody res)) response o) as [[o1 e1] |]; [| done].
  injection H as _ _ <-.
  apply (Hone ((if debug c then [EvDebug "Response:"] else [])
                 ++ [EvParse (RawBody res); EvClose])).
  - intros r Hr. apply elem_of_app in Hr as [Hr | Hr].
    + destruct (debug c); [| by apply elem_of_nil in Hr].
      apply list_elem_of_singleton in Hr. done.
    + apply elem_of_cons in Hr as [Hr | Hr]; [done |].
      apply list_elem_of_singleton in Hr. done.
  - by rewrite <- !app_assoc in *.
Qed.

(** C8 (layered defaults).  On every request a call hands to the
    transport, the User-Agent header is the per-request value when that is
    non-empty, otherwise the client default when that is non-empty,
    otherwise the fixed string "Go"; and the Content-Type header is layered
    the same way, with the fallback [text/xml; charset="utf-8"]. *)
Theorem outbound_headers_layered (c : Client) (soapReq : Request (V:=V))
    (response : Interface) (o o' : T) (err : option error) (tr : list Event)
    (req : HttpRequest) :
  CallWithContext marshalValue pickPrefix unmarshal lex urlError basicAuth
                  c soapReq response o = Some (o', err, tr) ->
  EvDo req ∈ tr ->
  ReqHeader req !! "User-Agent"
  = Some [layered (userAgent soapReq) (clientUserAgent c) "Go"]
  /\ ReqHeader req !! "Content-Type"
     = Some [layered (contentType soapReq) (clientContentType c)
               ("text/xml; charset=" +:+ dquote +:+ "utf-8" +:+ dquote)].
Proof.
  intros H Hin. destruct (CallWithContext_EvDo _ _ _ _ _ _ _ _ H Hin) as [-> _].
  split; [apply requestHeaders_User_Agent | apply requestHeaders_Content_Type].
Qed.

(** C4 (empty body).  When the HTTP exchange succeeds and the response
    body has zero bytes, the call returns no error, the destination is as
    it was, and the bytes are never handed to [Parse]. *)
Theorem empty_body_short_circuit (c : Client) (soapReq : Request (V:=V))
    (response : Interface) (o : T) (buffer : list Token) (res : HttpResponse) :
  Serialize marshalValue pickPrefix soapReq = Ok buffer ->
  urlError (base c +:+ path soapReq) = None ->
  httpClient c (mkHttpRequest "POST" (base c +:+ path soapReq)
                  (requestHeaders basicAuth c soapReq) buffer true) = Ok res ->
  ReadErr res = None ->
  String.length (RawBody res) = 0 ->
  exists tr,
    CallWithContext marshalValue pickPrefix unmarshal lex urlError basicAuth
                    c soapReq response o = Some (o, None, tr)
    /\ forall rawbody, EvParse rawbody ∉ tr.
Proof.
  intros Hser Hurl Hdo Hread Hlen. unfold CallWithContext.
  rewrite Hser, Hurl, Hdo, Hread, Hlen. simpl Nat.eqb. cbv iota.
  eexists. split; [done |].
  intros rawbody Hin. unfold debugPrintXml in Hin.
  rewrite !elem_of_app in Hin. destruct Hin as [[Hin | Hin] | Hin].
  - destruct (debug c); [| by apply elem_of_nil in Hin].
    apply list_elem_of_singleton in Hin. done.
  - apply list_elem_of_singleton in Hin. done.
  - apply list_elem_of_singleton in Hin. done.
Qed.

End ClientClaims.

Lemma outbound_headers_layered_witness :
  exists req,
    ReqHeader req !! "User-Agent" = Some [layered "B" "A" "Go"]
    /\ ReqHeader req !! "Content-Type"
       = Some [layered "" "" ("text/xml; charset=" +:+ dquote +:+ "utf-8" +:+ dquote)].
Proof.
  eexists.
  eapply (outbound_headers_layered sliceMarshal noPrefix sliceUnmarshal sampleLex
            anyURL sampleBasicAuth emptyBodyClient sampleRequest IPointer []).
  - reflexivity.
  - simpl. right. left.
Defined.

Lemma empty_body_short_circuit_witness :
  exists tr,
    CallWithContext sliceMarshal noPrefix sliceUnmarshal sampleLex anyURL
                    sampleBasicAuth emptyBodyClient sampleRequest IPointer [itemA]
    = Some ([itemA], None, tr)
    /\ forall rawbody, EvParse rawbody ∉ tr.
Proof.
  eapply (empty_body_short_circuit sliceMarshal noPrefix sliceUnmarshal sampleLex
            anyURL sampleBasicAuth emptyBodyClient sampleRequest IPointer [itemA]);
    reflexivity.
Defined.

(** ** [AddAttributes] on slices in memory *)

Section SliceFacts.

Import InMemory.

Variable spare : nat -> nat -> nat.

Lemma elems_lookup (h : Heap) (a : nat) :
  a < length h -> h !! a = Some (elems h a).
Proof.
  intros H. unfold elems. destruct (h !! a) eqn:E; [done |].
  apply lookup_ge_None in E. lia.
Qed.

Lemma elems_insert (h : Heap) (a : nat) (arr : list Attr) :
  a < length h -> elems (<[a := arr]> h) a = arr.
Proof. intros H. unfold elems. by rewrite list_lookup_insert_eq. Qed.

Lemma elems_insert_ne (h : Heap) (a b : nat) (arr : list Attr) :
  a <> b -> elems (<[a := arr]> h) b = elems h b.
Proof. intros H. unfold elems. by rewrite list_lookup_insert_ne. Qed.

Lemma elems_app (h : Heap) (arr : list Attr) (a : nat) :
  a < length h -> elems (h ++ [arr]) a = elems h a.
Proof. intros H. unfold elems. by rewrite lookup_app_l. Qed.

Lemma elems_new (h : Heap) (arr : list Attr) :
  elems (h ++ [arr]) (length h) = arr.
Proof. unfold elems. by rewrite list_lookup_middle. Qed.

(** A slice within its array splits the array into what lies ahead of
    it, its elements, its room to grow, and the rest. *)
Lemma allocated_split (h : Heap) (s : Slice) :
  allocated h s ->
  exists pre mid room post,
    elems h (array s) = pre ++ mid ++ room ++ post
    /\ contents h s = mid
    /\ length pre = offset s
    /\ length mid = len s
    /\ length room = cap s - len s.
Proof.
  intros (Ha & Hc & Hl). unfold contents.
  set (arr := elems h (array s)) in *.
  exists (take (offset s) arr), (take (len s) (drop (offset s) arr)),
         (take (cap s - len s) (drop (len s) (drop (offset s) arr))),
         (drop (cap s - len s) (drop (len s) (drop (offset s) arr))).
  rewrite !take_drop. rewrite !length_take, !length_drop. repeat split; lia.
Qed.

Lemma contents_length (h : Heap) (s : Slice) :
  allocated h s -> length (contents h s) = len s.
Proof.
  intros (Ha & Hc & Hl). unfold contents. rewrite length_take, length_drop. lia.
Qed.

(** The elements of a slice, given the array around them. *)
Lemma contents_split (h : Heap) (a n c : nat) (pre mid post : list Attr) :
  elems h a = pre ++ mid ++ post ->
  n = length mid ->
  contents h (mkSlice a (length pre) n c) = mid.
Proof.
  intros H ->. unfold contents. simpl. rewrite H.
  rewrite drop_app_length. by rewrite take_app_length.
Qed.

Lemma contents_empty (h : Heap) (s : Slice) : len s = 0 -> contents h s = [].
Proof. intros H. unfold contents. by rewrite H. Qed.

(** [append]: the elements of the result, and what it leaves alone. *)
Lemma append_spec (h : Heap) (s : Slice) (xs : list Attr) :
  allocated h s ->
  contents (append spare h s xs).1 (append spare h s xs).2 = contents h s ++ xs
  /\ allocated (append spare h s xs).1 (append spare h s xs).2
  /\ length h <= length (append spare h s xs).1
  /\ (array (append spare h s xs).2 = array s
      \/ array (append spare h s xs).2 = length h)
  /\ (forall a, a < length h -> a <> array s ->
        elems (append spare h s xs).1 a = elems h a).
Proof.
  intros Hs.
  destruct (allocated_split h s Hs)
    as (pre & mid & room & post & Harr & Hcont & Hpre & Hmid & Hroom).
  destruct Hs as (Ha & Hc & Hl).
  unfold append. cbv zeta. rewrite !Hcont.
  destruct (len s + length xs <=? cap s)%nat eqn:Hn.
  - apply Nat.leb_le in Hn. cbn [fst snd].
    assert (Hnew : list_inserts (offset s + len s) xs (elems h (array s))
                   = pre ++ (mid ++ xs) ++ drop (length xs) room ++ post).
    { rewrite Harr.
      replace (offset s + len s) with (length (pre ++ mid) + 0)
        by (rewrite length_app; lia).
      rewrite (app_assoc pre mid), list_inserts_app_r.
      rewrite <- (take_drop (length xs) room) at 1.
      rewrite <- (app_assoc (take (length xs) room)).
      rewrite (list_inserts_0_r xs) by (rewrite length_take; lia).
      by rewrite <- !app_assoc. }
    rewrite Hnew. split; [| split; [| split; [| split]]].
    + rewrite <- Hpre.
      apply (contents_split _ _ _ _ pre (mid ++ xs) (drop (length xs) room ++ post)).
      * by rewrite elems_insert.
      * rewrite length_app. lia.
    + split; [| split]; cbn [array offset cap len].
      * by rewrite length_insert.
      * rewrite elems_insert by done. rewrite <- Hnew, length_inserts. done.
      * lia.
    + by rewrite length_insert.
    + by left.
    + intros a Hlt Hne. by rewrite elems_insert_ne.
  - apply Nat.leb_gt in Hn. cbn [fst snd]. split; [| split; [| split; [| split]]].
    + apply (contents_split _ _ _ _ [] (mid ++ xs)
               (replicate (spare (cap s) (len s + length xs)) zeroAttr)).
      * rewrite elems_new. simpl. by rewrite <- app_assoc.
      * rewrite length_app. lia.
    + split; [| split]; cbn [array offset cap len].
      * rewrite length_app. simpl. lia.
      * rewrite elems_new. rewrite !length_app, length_replicate. lia.
      * lia.
    + rewrite length_app. lia.
    + by right.
    + intros a Hlt Hne. by rewrite elems_app.
Qed.

(** The filter loop, with the array split into what lies ahead of the
    slice, the elements kept so far, the elements already read that are
    not overwritten yet, the elements still to read, and the rest. *)
Lemma filterLoop_split (rest : list Attr) :
  forall (h : Heap) (a c n k i : nat) (pre filt junk post : list Attr),
    a < length h ->
    elems h a = pre ++ filt ++ junk ++ rest ++ post ->
    n = length filt + length junk + length rest ->
    k = length filt ->
    i = length filt + length junk ->
    n <= c ->
    exists junk',
      filterLoop spare h (mkSlice a (length pre) n c) (mkSlice a (length pre) k c)
                 i (length rest)
      = (<[a := pre ++ (filt ++ kept rest) ++ junk' ++ post]> h,
         mkSlice a (length pre) (length (filt ++ kept rest)) c)
      /\ length (filt ++ kept rest) + length junk' = n.
Proof.
  induction rest as [| x rest IH]; intros h a c n k i pre filt junk post Ha Harr Hn Hk Hi Hc.
  - exists junk. simpl in Harr. change (kept []) with (@nil Attr).
    rewrite app_nil_r. cbn [filterLoop length]. split.
    + rewrite <- Harr.
      rewrite list_insert_id by by apply elems_lookup. by subst k.
    + simpl in Hn. lia.
  - cbn [filterLoop length]. unfold index. cbn [len array offset].
    assert (Hlt : (i <? n)%nat = true) by (apply Nat.ltb_lt; simpl in Hn; lia).
    rewrite Hlt, Harr.
    assert (Hx : (pre ++ filt ++ junk ++ (x :: rest) ++ post) !! (length pre + i) = Some x).
    { rewrite lookup_app_r by lia.
      replace (length pre + i - length pre) with (length (filt ++ junk) + 0)
        by (rewrite length_app; lia).
      rewrite (app_assoc filt junk), lookup_app_r by lia.
      replace (length (filt ++ junk) + 0 - length (filt ++ junk)) with 0 by lia. done. }
    rewrite Hx.
    destruct (isSoapenv x) eqn:Hs; cbn [negb].
    + destruct (IH h a c n k (S i) pre filt (junk ++ [x]) post) as (junk' & Hloop & Hlen).
      * done.
      * rewrite Harr. by rewrite <- (app_assoc junk).
      * rewrite length_app. simpl in *. lia.
      * done.
      * rewrite length_app. simpl. lia.
      * done.
      * exists junk'. unfold kept in *. rewrite filter_cons_False by (by rewrite Hs).
        done.
    + unfold append. cbn [len array offset cap length].
      assert (Hfit : (k + 1 <=? c)%nat = true) by (apply Nat.leb_le; simpl in Hn; lia).
      rewrite Hfit. cbn [list_inserts].
      destruct (junk ++ [x]) as [| y t] eqn:Hj.
      { by destruct junk. }
      assert (Ht : length t = length junk).
      { assert (H1 : length (junk ++ [x]) = length (y :: t)) by by rewrite Hj.
        rewrite length_app in H1. simpl in H1. lia. }
      assert (Hw : <[length pre + k := x]> (elems h a)
                   = pre ++ (filt ++ [x]) ++ t ++ rest ++ post).
      { rewrite Harr.
        replace (junk ++ (x :: rest) ++ post) with ((junk ++ [x]) ++ rest ++ post)
          by (by rewrite <- app_assoc).
        rewrite Hj. rewrite insert_app_r_alt by lia.
        replace (length pre + k - length pre) with (length filt + 0) by lia.
        rewrite insert_app_r. simpl. by rewrite <- app_assoc. }
      rewrite Hw.
      destruct (IH (<[a := pre ++ (filt ++ [x]) ++ t ++ rest ++ post]> h)
                   a c n (k + 1) (S i) pre (filt ++ [x]) t post)
        as (junk' & Hloop & Hlen).
      * by rewrite length_insert.
      * by rewrite elems_insert.
      * rewrite length_app. simpl in *. lia.
      * rewrite length_app. simpl. lia.
      * rewrite length_app. simpl. lia.
      * done.
      * exists junk'. unfold kept in *. rewrite filter_cons_True by done.
        rewrite list_insert_insert_eq in Hloop.
        replace (filt ++ x :: filter (fun a => isSoapenv a = false) rest)
          with ((filt ++ [x]) ++ filter (fun a => isSoapenv a = false) rest)
          by (by rewrite <- app_assoc).
        done.
Qed.

(** The filter loop of [AddAttributes] on a slice within its array: the
    slice it yields holds the elements other than "soapenv", in the same
    array, whose other elements may have changed. *)
Lemma filterLoop_spec (h : Heap) (s : Slice) :
  allocated h s ->
  contents (filterLoop spare h s (emptied s) 0 (len s)).1
           (filterLoop spare h s (emptied s) 0 (len s)).2
  = removeSoapenv (contents h s)
  /\ allocated (filterLoop spare h s (emptied s) 0 (len s)).1
               (filterLoop spare h s (emptied s) 0 (len s)).2
  /\ length (filterLoop spare h s (emptied s) 0 (len s)).1 = length h
  /\ array (filterLoop spare h s (emptied s) 0 (len s)).2 = array s
  /\ (forall a, a <> array s ->
        elems (filterLoop spare h s (emptied s) 0 (len s)).1 a = elems h a).
Proof.
  intros Hs.
  destruct (allocated_split h s Hs)
    as (pre & mid & room & post & Harr & Hcont & Hpre & Hmid & Hroom).
  destruct Hs as (Ha & Hc & Hl). rewrite Hcont, removeSoapenv_filter.
  destruct s as [a off n c]. unfold emptied. cbn [array offset len cap] in *.
  subst off n.
  destruct (filterLoop_split mid h a c (length mid) 0 0 pre [] [] (room ++ post))
    as (junk' & -> & Hlen); [done | done | done | done | done | done |].
  cbn [fst snd app array] in *. fold (kept mid). split; [| split; [| split; [| split]]].
  - apply (contents_split _ _ _ _ pre (kept mid) (junk' ++ room ++ post)); [| done].
    by rewrite elems_insert.
  - split; [| split]; cbn [array offset cap len].
    + by rewrite length_insert.
    + rewrite elems_insert by done. rewrite Harr in Hc.
      rewrite !length_app in *. lia.
    + lia.
  - by rewrite length_insert.
  - done.
  - intros b Hb. by rewrite elems_insert_ne.
Qed.

(** The elements of a slice depend on its array only. *)
Lemma contents_frame (h h' : Heap) (s : Slice) :
  len s = 0 \/ elems h' (array s) = elems h (array s) ->
  contents h' s = contents h s.
Proof.
  intros [H | H]; [by rewrite !contents_empty | unfold contents; by rewrite H].
Qed.

(** The function [AddAttributes] returns, run with a slice that does not
    share the array of the request's attributes. *)
Lemma call_spec (option : RequestOption) (h : Heap) (request : Request) :
  allocated h (Attributes request) ->
  apart h request (attributes option) ->
  attributesOf (call spare option h request)
  = (if found option then removeSoapenv (contents h (Attributes request))
     else contents h (Attributes request))
    ++ contents h (attributes option)
  /\ allocated (call spare option h request).1 (Attributes (call spare option h request).2)
  /\ (forall s, apart h request s ->
        apart (call spare option h request).1 (call spare option h request).2 s
        /\ contents (call spare option h request).1 s = contents h s).
Proof.
  intros Hreq Hopt. unfold call, attributesOf.
  set (filtered := if found option
                   then filterLoop spare h (Attributes request)
                          (emptied (Attributes request)) 0 (len (Attributes request))
                   else (h, Attributes request)).
  assert (Hf : contents filtered.1 filtered.2
               = (if found option then removeSoapenv (contents h (Attributes request))
                  else contents h (Attributes request))
               /\ allocated filtered.1 filtered.2
               /\ length filtered.1 = length h
               /\ array filtered.2 = array (Attributes request)
               /\ (forall a, a <> array (Attributes request) ->
                     elems filtered.1 a = elems h a)).
  { subst filtered. destruct (found option); [by apply filterLoop_spec | done]. }
  destruct filtered as [h1 f]. cbn [fst snd] in Hf.
  destruct Hf as (Hc1 & Ha1 & Hl1 & Harr1 & Hframe1).
  assert (Hkeep1 : forall s, apart h request s -> contents h1 s = contents h s).
  { intros s [Hs | [_ Hs]]; apply contents_frame; [by left | right; by apply Hframe1]. }
  destruct (append_spec h1 f (contents h1 (attributes option)) Ha1)
    as (Hc2 & Ha2 & Hl2 & Harr2 & Hframe2).
  destruct (append spare h1 f (contents h1 (attributes option))) as [h2 combined].
  cbn [fst snd Attributes] in *.
  split; [| split].
  - by rewrite Hc2, Hc1, Hkeep1.
  - done.
  - intros s Hs. split.
    + destruct Hs as [Hs | [Hlt Hne]]; [by left | right]. cbn [Attributes].
      split; [lia |]. destruct Harr2 as [-> | ->]; [congruence | lia].
    + rewrite <- (Hkeep1 s Hs). apply contents_frame.
      destruct Hs as [Hs | [Hlt Hne]]; [by left | right].
      apply Hframe2; [lia | congruence].
Qed.

Lemma callAll_spec (options : list RequestOption) :
  forall (h : Heap) (request : Request),
    allocated h (Attributes request) ->
    Forall (fun o => apart h request (attributes o)) options ->
    attributesOf (callAll spare options h request)
    = combined (contents h (Attributes request)) (valuesOf h options).
Proof.
  induction options as [| o options IH]; intros h request Hreq Hopts; [done |].
  apply Forall_cons in Hopts as [Ho Hopts].
  destruct (call_spec o h request Hreq Ho) as (Hc & Ha & Hkeep).
  unfold callAll. cbn [foldl fst snd].
  destruct (call spare o h request) as [h1 request1] eqn:Hcall.
  cbn [fst snd] in *.
  change (foldl _ (h1, request1) options) with (callAll spare options h1 request1).
  assert (Hopts1 : Forall (fun o => apart h1 request1 (attributes o)) options).
  { eapply Forall_impl; [exact Hopts |]. intros o' Ho'. by apply Hkeep. }
  rewrite IH by done.
  unfold attributesOf in Hc. cbn [fst snd] in Hc. rewrite Hc.
  unfold combined, valuesOf. cbn [fmap list_fmap foldl fst snd]. f_equal.
  apply Forall_fmap_ext_1. eapply Forall_impl; [exact Hopts |].
  intros o' Ho'. cbv beta. f_equal. by apply Hkeep.
Qed.

End SliceFacts.

Section Refinement.

Context {V : Type}.
Variable spare : nat -> nat -> nat.

Lemma combined_applyOptions (xss : list (list Attr)) : forall request : Request (V:=V),
  InMemory.combined (Attributes request) ((fun xs => (findSoapenv xs, xs)) <$> xss)
  = Attributes (fst (applyOptions (optionOf <$> (OAddAttributes <$> xss)) request)).
Proof.
  induction xss as [| xs xss IH]; intros request; [done |].
  cbn [fmap list_fmap applyOptions optionOf AddAttributes].
  rewrite <- IH. done.
Qed.

(** The options [AddAttributes] makes of slices that do not share the
    array of the request's attributes leave the request with the
    attributes that [AddAttributes] on values gives for the elements of
    these slices. *)
Theorem AddAttributes_refines (h : InMemory.Heap) (request : InMemory.Request)
    (slices : list InMemory.Slice) (r : Request (V:=V)) :
  InMemory.allocated h (InMemory.Attributes request) ->
  Forall (InMemory.apart h request) slices ->
  Attributes r = InMemory.contents h (InMemory.Attributes request) ->
  InMemory.attributesOf
    (InMemory.callAll spare (InMemory.AddAttributes h <$> slices) h request)
  = Attributes (fst (applyOptions
                       (optionOf <$> (OAddAttributes <$> (InMemory.contents h <$> slices)))
                       r)).
Proof.
  intros Hreq Hs Hr. rewrite callAll_spec; [| done |].
  - rewrite <- combined_applyOptions, Hr. f_equal.
    unfold InMemory.valuesOf. rewrite <- !list_fmap_compose. done.
  - by rewrite Forall_fmap.
Qed.

End Refinement.

Section SliceClaims.

Variable spare : nat -> nat -> nat.

Lemma NewRequest_allocated (h0 : InMemory.Heap) :
  InMemory.allocated (InMemory.NewRequest h0).1
    (InMemory.Attributes (InMemory.NewRequest h0).2)
  /\ InMemory.attributesOf (InMemory.NewRequest h0) = [defaultAttr].
Proof.
  unfold InMemory.NewRequest, InMemory.literal, InMemory.attributesOf, InMemory.allocated.
  cbn [fst snd InMemory.Attributes InMemory.array InMemory.offset InMemory.cap
       InMemory.len length].
  rewrite elems_new, length_app. simpl. split; [lia |].
  unfold InMemory.contents. cbn [InMemory.array InMemory.offset InMemory.len].
  by rewrite elems_new.
Qed.

(** Without shared arrays the reserved attribute is always there: a
    request produced by [NewRequest] and then handed, one after the other,
    to options that [AddAttributes] made of slices which do not share the
    backing array of the request's attributes - empty slices, and slices
    of arrays allocated before the request - has at least one attribute
    whose local name is "soapenv", whatever capacity the runtime gives a
    slice that grows. *)
Theorem soapenv_present_apart (h0 : InMemory.Heap) (slices : list InMemory.Slice) :
  Forall (InMemory.apart (InMemory.NewRequest h0).1 (InMemory.NewRequest h0).2) slices ->
  exists a,
    a ∈ InMemory.attributesOf
          (InMemory.callAll spare
             (InMemory.AddAttributes (InMemory.NewRequest h0).1 <$> slices)
             (InMemory.NewRequest h0).1 (InMemory.NewRequest h0).2)
    /\ Local (AttrName a) = "soapenv".
Proof.
  intros Hs. destruct (NewRequest_allocated h0) as [Ha Hc].
  rewrite (AddAttributes_refines (V:=unit) spare _ _ _ (NewRequest "" None None []))
    by done.
  apply (soapenv_always_present (V:=unit) "" None None []).
Qed.

(** Whatever capacity the runtime gives a grown slice, an option made
    of the request's own attributes leaves the request without the
    reserved attribute. *)
Lemma selfAppended_attributes :
  InMemory.attributesOf (InMemory.selfAppended spare)
  = [InMemory.ns1; InMemory.ns1; InMemory.ns1].
Proof.
  unfold InMemory.selfAppended, InMemory.attributesOf, InMemory.call,
    InMemory.AddAttributes, InMemory.NewRequest, InMemory.literal, InMemory.append,
    InMemory.contents, InMemory.elems.
  cbn. destruct (spare 1 2) as [| k]; cbn; reflexivity.
Qed.
End SliceClaims.

(** C9 (the reserved attribute is always there), what the code does: an
    option made of the request's own attribute slice,
    [AddAttributes(req.Attributes...)], filters that slice in place before
    it appends it.  After [NewRequest], [AddAttributes(ns1)] and that
    option, where the attributes [soapenv; ns1] are to be combined with
    themselves, the request has the attributes [ns1; ns1; ns1], none of
    them named "soapenv". *)
Lemma soapenv_lost_by_sharing :
  InMemory.attributesOf (InMemory.selfAppended InMemory.doubling)
  = [InMemory.ns1; InMemory.ns1; InMemory.ns1]
  /\ ~ exists a, a ∈ InMemory.attributesOf (InMemory.selfAppended InMemory.doubling)
                 /\ Local (AttrName a) = "soapenv".
Proof.
  split; [reflexivity |]. intros (a & Ha & Hl).
  change (InMemory.attributesOf (InMemory.selfAppended InMemory.doubling))
    with [InMemory.ns1; InMemory.ns1; InMemory.ns1] in Ha.
  apply elem_of_cons in Ha as [Ha | Ha]; [subst a; discriminate Hl |].
  apply elem_of_cons in Ha as [Ha | Ha]; [subst a; discriminate Hl |].
  apply elem_of_cons in Ha as [Ha | Ha]; [subst a; discriminate Hl |].
  by apply elem_of_nil in Ha.
Qed.

Lemma soapenv_present_apart_witness :
  exists a,
    a ∈ InMemory.attributesOf
          (InMemory.callAll InMemory.doubling
             (InMemory.AddAttributes (InMemory.NewRequest InMemory.sampleHeap).1
                <$> InMemory.sampleSlices)
             (InMemory.NewRequest InMemory.sampleHeap).1
             (InMemory.NewRequest InMemory.sampleHeap).2)
    /\ Local (AttrName a) = "soapenv".
Proof.
  apply (soapenv_present_apart InMemory.doubling InMemory.sampleHeap InMemory.sampleSlices).
  apply Forall_cons. split; [right; split; [vm_compute; lia | discriminate] |].
  apply Forall_cons. split; [right; split; [vm_compute; lia | discriminate] |].
  apply Forall_nil_2.
Defined.

(** ** Further properties of [Parse] *)

Section ParseExtra.

Context {T : Type}.
Variable unmarshal : T -> Name -> list Attr -> list Node -> T * option error.

Lemma findStart_none (data : list Token) :
  forallb (fun t => negb (isStart t)) data = true -> findStart data = None.
Proof.
  induction data as [| t d IH]; [done |]. simpl.
  rewrite andb_true_iff. intros [Ht Hd]. destruct t; [done | |]; by apply IH.
Qed.

(** Input without any start tag (empty, or white space, comments and
    the like only) and without a declaration the lexer rejects: [Parse]
    returns [io.EOF] and leaves the destination alone, whatever the
    destination is. *)
Theorem Parse_no_root (data : list Token) (v : Interface) (o : T) :
  forallb (fun t => negb (isStart t)) data = true ->
  forallb acceptedToken data = true ->
  Parse unmarshal data v o = Some (o, Some EOF).
Proof.
  intros H Ha. unfold Parse, Unmarshal. rewrite lexed_accepted by done.
  cbn [fst snd]. by rewrite (findStart_none data H).
Qed.

(** A declaration the lexer rejects, ahead of any element: [Parse]
    returns the lexer's error and leaves the destination alone. *)
Theorem Parse_rejected_declaration (pre : list Misc) (m : Misc) (err : error)
    (rest : list Token) (v : Interface) (o : T) :
  forallb acceptedMisc pre = true ->
  declError m = Some err ->
  Parse unmarshal ((MiscTok <$> pre) ++ MiscTok m :: rest) v o = Some (o, Some err).
Proof.
  intros Hpre Hm. unfold Parse, Unmarshal.
  rewrite lexed_app by by apply acceptedToken_prolog.
  cbn [lexed]. rewrite Hm. cbn [fst snd]. rewrite app_nil_r.
  rewrite findStart_none; [done |].
  clear. by induction pre.
Qed.

(** A document whose root element is not named [Envelope], with no
    declaration the lexer rejects ahead of the root, is rejected with the
    error naming the element found; nothing after the root's start tag is
    looked at and the destination is left alone. *)
Theorem Parse_wrong_root (pre : list Misc) (n : Name) (a : list Attr)
    (rest : list Token) (v : Interface) (o : T) :
  forallb acceptedMisc pre = true ->
  Local n <> "Envelope" ->
  Parse unmarshal ((MiscTok <$> pre) ++ StartElement n a :: rest) v o
  = Some (o, Some (UnmarshalError
                     ("expected element type <Envelope> but have <" +:+ Local n +:+ ">"))).
Proof.
  intros Hpre H. unfold Parse, Unmarshal.
  rewrite lexed_app by by apply acceptedToken_prolog.
  cbn [lexed]. destruct (lexed rest) as [d tail]. cbn [fst snd].
  rewrite findStart_prolog.
  apply String.eqb_neq in H. by rewrite H.
Qed.

(** An envelope without a body element, and without a declaration the
    lexer rejects up to the end of the root: [Parse] returns no error and
    leaves the destination alone - also when the destination is absent,
    since the check for it sits in [UnmarshalXML], which is not reached. *)
Theorem Parse_no_body (pre : list Misc) (n : Name) (a : list Attr)
    (ch : list Node) (post : list Token) (v : Interface) (o : T) :
  Local n = "Envelope" ->
  forallb acceptedMisc pre = true ->
  forallb acceptedNode ch = true ->
  forallb (fun x => negb (isBody x)) ch = true ->
  Parse unmarshal ((MiscTok <$> pre) ++ tokens (Elem n a ch) ++ post) v o
  = Some (o, None).
Proof.
  intros Hn Hpre Hacc Hch. rewrite Parse_document by done. f_equal.
  unfold parseTree.
  pose proof (envelopeTree_noBody unmarshal ch (mkBody None v) o [] Hch) as H.
  rewrite app_nil_r in H. by rewrite H.
Qed.

Lemma parseBody_elements (v : Interface) (o : T) (ch : list Node) :
  parseBody unmarshal v o ch = parseBody unmarshal v o (elements ch).
Proof.
  unfold parseBody, unmarshalBodyTree. simpl BodyContent.
  destruct v; [done | |]; by rewrite bodyTree_elements.
Qed.

(** On responses without a declaration the lexer rejects before the end
    of the root, the outcome of [Parse] depends on the element children of
    the body only: not on the comments and the like ahead of the root, the
    name spaces or attributes of the envelope and the body, the header,
    what follows the body, or the text and comments between the body's
    children. *)
Theorem Parse_depends_on_body_elements (r1 r2 : Response) (v : Interface) (o : T) :
  validResponse r1 = true ->
  validResponse r2 = true ->
  elements (bodyChildren r1) = elements (bodyChildren r2) ->
  Parse unmarshal (responseTokens r1) v o = Parse unmarshal (responseTokens r2) v o.
Proof.
  intros H1 H2 He. rewrite !Parse_response by done.
  by rewrite (parseBody_elements v o (bodyChildren r1)), He, <- parseBody_elements.
Qed.

Lemma elements_second (l : list Node) (x y : Node) (l' : list Node) :
  elements l = x :: y :: l' -> isElem y = true.
Proof.
  intros H. assert (Hy : y ∈ elements l) by (rewrite H; right; left).
  by apply list_elem_of_filter in Hy as [Hy _].
Qed.

(** The outcome of the body loop by the number of element children. *)
Lemma parseBody_cases (v : Interface) (o : T) (ch : list Node) :
  v <> INil ->
  parseBody unmarshal v o ch
  = match elements ch with
    | [] => (o, None)
    | Elem n a c :: rest =>
        if isSoapFault (Elem n a c) then
          match rest with
          | [] => (o, Some (FaultError (faultValue (Elem n a c))))
          | _ :: _ => (o, Some errMultiple)
          end
        else
          match v with
          | IPointer =>
              match unmarshal o n a c, rest with
              | (o', Some err), _ => (o', Some err)
              | (o', None), [] => (o', None)
              | (o', None), _ :: _ => (o', Some errMultiple)
              end
          | INilPointer => (o, Some (ErrorString "nil pointer passed to Unmarshal"))
          | INil => (o, Some (ErrorString "non-pointer passed to Unmarshal"))
          end
    | Leaf _ :: _ => (o, None)
    end.
Proof.
  intros Hv. rewrite parseBody_elements.
  destruct (elements ch) as [| x rest] eqn:Hx; [by destruct v |].
  pose proof (elements_isElem _ _ _ Hx) as Hel.
  destruct x as [n a c | m]; [| done].
  assert (Hrest : forall y l, rest = y :: l -> isElem y = true).
  { intros y l ->. by apply (elements_second _ _ _ _ Hx). }
  unfold parseBody, unmarshalBodyTree. simpl BodyContent.
  destruct (isSoapFault (Elem n a c)) eqn:Hf.
  - pose proof (unmarshalFault_soapFault n a c Hf) as Hu.
    simpl in Hf.
    destruct rest as [| y l].
    + destruct v; [done | |]; simpl; by rewrite Hf, Hu.
    + specialize (Hrest y l eq_refl). destruct y as [ny ay cy | my]; [| done].
      destruct v; [done | |]; simpl; by rewrite Hf, Hu.
  - simpl in Hf. destruct v; [done | |].
    + simpl. by rewrite Hf.
    + simpl. rewrite Hf. destruct (unmarshal o n a c) as [o' [err |]]; [done |].
      destruct rest as [| y l]; [done |].
      specialize (Hrest y l eq_refl). by destruct y.
Qed.

(** With a destination, [Parse] returns no error on a response exactly
    when the body has no child element (the destination is then as it
    was) or has a single child element, not a SOAP Fault, that decodes
    into the destination without error. *)
Theorem Parse_success_iff (r : Response) (o o' : T) :
  validResponse r = true ->
  Parse unmarshal (responseTokens r) IPointer o = Some (o', None)
  <-> (elements (bodyChildren r) = [] /\ o' = o)
      \/ (exists n a c,
            elements (bodyChildren r) = [Elem n a c]
            /\ isSoapFault (Elem n a c) = false
            /\ unmarshal o n a c = (o', None)).
Proof.
  intros Hr. rewrite Parse_response by done.
  rewrite parseBody_cases by done.
  destruct (elements (bodyChildren r)) as [| x rest] eqn:Hx.
  - split.
    + intros [= ->]. by left.
    + intros [[_ ->] | (n & a & c & H & _)]; done.
  - pose proof (elements_isElem _ _ _ Hx) as Hel.
    destruct x as [n a c | m]; [| done].
    destruct (isSoapFault (Elem n a c)) eqn:Hf.
    + split.
      * by destruct rest.
      * intros [[H _] | (n0 & a0 & c0 & [= -> -> -> ->] & Hf' & _)]; [done |].
        congruence.
    + destruct (unmarshal o n a c) as [o1 [err |]] eqn:Hu.
      * split; [done |].
        intros [[H _] | (n0 & a0 & c0 & [= -> -> -> ->] & _ & Hu')]; [done |].
        congruence.
      * destruct rest as [| y l].
        -- split.
           ++ intros [= ->]. right. by exists n, a, c.
           ++ intros [[H _] | (n0 & a0 & c0 & [= -> -> ->] & _ & Hu')]; [done |].
              congruence.
        -- split; [done |].
           intros [[H _] | (n0 & a0 & c0 & H & _)]; done.
Qed.

(** When [Parse] returns a Fault for a response, the body's only child
    element is a SOAP Fault element carrying that Fault, and the
    destination is as it was (given a destination whose own decoder does
    not hand out Fault values as errors). *)
Theorem Parse_fault_only_if (r : Response) (v : Interface) (o o' : T) (f : Fault) :
  validResponse r = true ->
  (forall o0 n a c f0, snd (unmarshal o0 n a c) <> Some (FaultError f0)) ->
  Parse unmarshal (responseTokens r) v o = Some (o', Some (FaultError f)) ->
  o' = o
  /\ exists x, elements (bodyChildren r) = [x]
               /\ isSoapFault x = true /\ faultValue x = f.
Proof.
  intros Hr Hdec. rewrite Parse_response by done.
  destruct v.
  - by unfold parseBody, unmarshalBodyTree.
  - rewrite parseBody_cases by done.
    destruct (elements (bodyChildren r)) as [| [n a c | m] rest]; [done | | done].
    destruct (isSoapFault (Elem n a c)) eqn:Hf; [| done].
    destruct rest; [| done]. intros [= <-]. split; [done |]. by eexists.
  - rewrite parseBody_cases by done.
    destruct (elements (bodyChildren r)) as [| [n a c | m] rest]; [done | | done].
    destruct (isSoapFault (Elem n a c)) eqn:Hf.
    + destruct rest; [| done]. intros [= <-]. split; [done |]. by eexists.
    + pose proof (Hdec o n a c f) as Hd.
      destruct (unmarshal o n a c) as [o1 [err |]]; simpl in Hd.
      * intros [= _ ->]. done.
      * by destruct rest.
Qed.

Lemma lastNamed_snoc (name : string) (ch : list Node) (x : Node) :
  lastNamed name (ch ++ [x])
  = match namedContent name x with
    | Some c => Some c
    | None => lastNamed name ch
    end.
Proof.
  unfold lastNamed. rewrite omap_app. simpl.
  destruct (namedContent name x) as [c |]; simpl.
  - by rewrite last_snoc.
  - by rewrite app_nil_r.
Qed.

Lemma Fault_fields_foldl (ch : list Node) (f : Fault) :
  Code (foldl setFaultField f ch)
  = from_option charData (Code f) (lastNamed "faultcode" ch)
  /\ String_ (foldl setFaultField f ch)
     = from_option charData (String_ f) (lastNamed "faultstring" ch)
  /\ Actor (foldl setFaultField f ch)
     = from_option charData (Actor f) (lastNamed "faultactor" ch)
  /\ Detail (foldl setFaultField f ch)
     = from_option charData (Detail f) (lastNamed "detail" ch).
Proof.
  induction ch as [| x ch IH] using rev_ind; [done |].
  rewrite foldl_app, !lastNamed_snoc. simpl foldl.
  destruct IH as (Hc & Hs & Ha & Hd).
  destruct x as [n a c | m]; [| done]. simpl.
  destruct (String.eqb (Local n) "faultcode") eqn:E1.
  { apply String.eqb_eq in E1. rewrite E1. simpl. done. }
  destruct (String.eqb (Local n) "faultstring") eqn:E2.
  { apply String.eqb_eq in E2. rewrite E2. simpl. done. }
  destruct (String.eqb (Local n) "faultactor") eqn:E3.
  { apply String.eqb_eq in E3. rewrite E3. simpl. done. }
  destruct (String.eqb (Local n) "detail") eqn:E4; done.
Qed.

(** Each field of a decoded Fault holds the character data of the last
    child element of the Fault element with the field's tag as its local
    name, in whatever name space, and is empty when there is none; children
    with other names are ignored. *)
Theorem Fault_fields_last_child (n : Name) (a : list Attr) (ch : list Node) :
  Code (faultValue (Elem n a ch)) = from_option charData "" (lastNamed "faultcode" ch)
  /\ String_ (faultValue (Elem n a ch))
     = from_option charData "" (lastNamed "faultstring" ch)
  /\ Actor (faultValue (Elem n a ch))
     = from_option charData "" (lastNamed "faultactor" ch)
  /\ Detail (faultValue (Elem n a ch)) = from_option charData "" (lastNamed "detail" ch).
Proof. apply (Fault_fields_foldl ch zeroFault). Qed.

Lemma envelopeTree_Body (b : ResponseSOAPBody) (o : T) (n : Name) (a : list Attr)
    (c rest : list Node) :
  Local n = "Body" ->
  envelopeTree unmarshal b o (Elem n a c :: rest)
  = match unmarshalBodyTree unmarshal b o c with
    | (b', o', Some err) => (b', o', Some err)
    | (b', o', None) => envelopeTree unmarshal b' o' rest
    end.
Proof. intros H. simpl. by rewrite H. Qed.

Lemma envelopeTree_noBody_nil (l : list Node) (b : ResponseSOAPBody) (o : T) :
  forallb (fun x => negb (isBody x)) l = true ->
  envelopeTree unmarshal b o l = (b, o, None).
Proof.
  intros H. pose proof (envelopeTree_noBody unmarshal l b o [] H) as Hx.
  by rewrite app_nil_r in Hx.
Qed.

Lemma unmarshalBodyTree_content (bf : option Fault) (o o1 : T) (ch : list Node)
    (n : Name) (a : list Attr) (c : list Node) :
  elements ch = [Elem n a c] ->
  isSoapFault (Elem n a c) = false ->
  unmarshal o n a c = (o1, None) ->
  unmarshalBodyTree unmarshal (mkBody bf IPointer) o ch = (mkBody bf IPointer, o1, None).
Proof.
  intros He Hf Hu. unfold unmarshalBodyTree. simpl BodyContent.
  rewrite bodyTree_elements, He. simpl. simpl in Hf. by rewrite Hf, Hu.
Qed.

Lemma unmarshalBodyTree_fault (bf : option Fault) (v : Interface) (o : T)
    (ch : list Node) (x : Node) :
  v <> INil ->
  elements ch = [x] ->
  isSoapFault x = true ->
  unmarshalBodyTree unmarshal (mkBody bf v) o ch
  = (mkBody (Some (faultValue x)) INil, o, None).
Proof.
  intros Hv He Hf. unfold unmarshalBodyTree. simpl BodyContent.
  destruct x as [n a c | m]; [| done].
  pose proof (unmarshalFault_soapFault n a c Hf) as Hu. simpl in Hf.
  destruct v; [done | |]; rewrite bodyTree_elements, He; simpl; by rewrite Hf, Hu.
Qed.

(** The single-element rule holds per body element: when the envelope
    (one without a declaration the lexer rejects up to the end of the
    root) has two body elements, each with one application element, [Parse]
    decodes both into the destination, one after the other, and returns
    no error. *)
Theorem Parse_two_bodies (pre : list Misc) (n : Name) (a : list Attr)
    (before mid after : list Node) (bn1 bn2 : Name) (ba1 ba2 : list Attr)
    (ch1 ch2 : list Node) (post : list Token)
    (n1 n2 : Name) (a1 a2 : list Attr) (c1 c2 : list Node) (o o1 o2 : T) :
  Local n = "Envelope" ->
  Local bn1 = "Body" ->
  Local bn2 = "Body" ->
  forallb acceptedMisc pre = true ->
  forallb acceptedNode (before ++ Elem bn1 ba1 ch1 :: mid ++ Elem bn2 ba2 ch2 :: after)
  = true ->
  forallb (fun x => negb (isBody x)) before = true ->
  forallb (fun x => negb (isBody x)) mid = true ->
  forallb (fun x => negb (isBody x)) after = true ->
  elements ch1 = [Elem n1 a1 c1] ->
  elements ch2 = [Elem n2 a2 c2] ->
  isSoapFault (Elem n1 a1 c1) = false ->
  isSoapFault (Elem n2 a2 c2) = false ->
  unmarshal o n1 a1 c1 = (o1, None) ->
  unmarshal o1 n2 a2 c2 = (o2, None) ->
  Parse unmarshal
        ((MiscTok <$> pre)
         ++ tokens (Elem n a (before ++ Elem bn1 ba1 ch1 :: mid
                              ++ Elem bn2 ba2 ch2 :: after))
         ++ post) IPointer o
  = Some (o2, None).
Proof.
  intros Hn Hb1 Hb2 Hpre Hacc Hbefore Hmid Hafter He1 He2 Hf1 Hf2 Hu1 Hu2.
  rewrite Parse_document by done. f_equal. unfold parseTree.
  rewrite envelopeTree_noBody by done.
  rewrite envelopeTree_Body by done.
  rewrite (unmarshalBodyTree_content None o o1 ch1 n1 a1 c1) by done.
  rewrite envelopeTree_noBody by done.
  rewrite envelopeTree_Body by done.
  rewrite (unmarshalBodyTree_content None o1 o2 ch2 n2 a2 c2) by done.
  by rewrite envelopeTree_noBody_nil.
Qed.

(** A body element that follows a body holding a Fault masks the Fault:
    decoding the Fault sets [b.Content] to nil, so that the second call
    of [UnmarshalXML] stops at its first check, and [Parse] returns the
    "Content must be a pointer to a struct" error instead of the Fault
    (for an envelope without a declaration the lexer rejects up to the
    end of the root). *)
Theorem Parse_fault_then_body (pre : list Misc) (n : Name) (a : list Attr)
    (before mid after : list Node) (bn1 bn2 : Name) (ba1 ba2 : list Attr)
    (ch1 ch2 : list Node) (post : list Token) (x : Node) (v : Interface) (o : T) :
  Local n = "Envelope" ->
  Local bn1 = "Body" ->
  Local bn2 = "Body" ->
  forallb acceptedMisc pre = true ->
  forallb acceptedNode (before ++ Elem bn1 ba1 ch1 :: mid ++ Elem bn2 ba2 ch2 :: after)
  = true ->
  forallb (fun x => negb (isBody x)) before = true ->
  forallb (fun x => negb (isBody x)) mid = true ->
  elements ch1 = [x] ->
  isSoapFault x = true ->
  Parse unmarshal
        ((MiscTok <$> pre)
         ++ tokens (Elem n a (before ++ Elem bn1 ba1 ch1 :: mid
                              ++ Elem bn2 ba2 ch2 :: after))
         ++ post) v o
  = Some (o, Some errContentNil).
Proof.
  intros Hn Hb1 Hb2 Hpre Hacc Hbefore Hmid He Hf.
  rewrite Parse_document by done. f_equal. unfold parseTree.
  rewrite envelopeTree_noBody by done.
  rewrite envelopeTree_Body by done.
  assert (Hv : v = INil \/ v <> INil) by (destruct v; [by left | by right | by right]).
  destruct Hv as [-> | Hv]; [done |].
  rewrite (unmarshalBodyTree_fault None v o ch1 x) by done.
  rewrite envelopeTree_noBody by done.
  by rewrite envelopeTree_Body.
Qed.

(** *** Truncated input *)

Lemma readNodes_push (d : list Token) :
  forall s acc0 c d2,
    readNodes d s acc0 = Some (c, d2) ->
    forall n a acc s',
      readNodes d (s ++ (n, a, acc) :: s') acc0 = readNodes d2 s' (Elem n a c :: acc).
Proof.
  induction d as [| t d IH]; intros s acc0 c d2 H n a acc s'; [done |].
  destruct t as [n0 a0 | n0 | m]; simpl in *.
  - apply (IH ((n0, a0, acc0) :: s) [] c d2 H).
  - destruct s as [| [[n1 a1] acc1] s]; simpl.
    + by injection H as <- <-.
    + by apply IH.
  - by apply IH.
Qed.

Lemma readNodes_skip (d d2 : list Token) (c : list Node) (n : Name) (a : list Attr)
    (acc : list Node) :
  readNodes d [] [] = Some (c, d2) ->
  readNodes (StartElement n a :: d) [] acc = readNodes d2 [] (Elem n a c :: acc).
Proof. intros H. simpl. apply (readNodes_push d [] [] c d2 H n a acc []). Qed.

Lemma findStart_app (d cut : list Token) (n : Name) (a : list Attr) (d' : list Token) :
  findStart d = Some (n, a, d') -> findStart (d ++ cut) = Some (n, a, d' ++ cut).
Proof.
  induction d as [| t d IH]; [done |].
  destruct t; simpl; [by intros [= -> -> ->] | done | done].
Qed.

Lemma readNodes_app (d cut : list Token) :
  forall stack acc ch rest,
    readNodes d stack acc = Some (ch, rest) ->
    readNodes (d ++ cut) stack acc = Some (ch, rest ++ cut).
Proof.
  induction d as [| t d IH]; intros stack acc ch rest H; [done |].
  destruct t as [n a | n | m]; simpl in *.
  - by apply IH.
  - destruct stack as [| [[n1 a1] acc1] stack].
    + by injection H as <- <-.
    + by apply IH.
  - by apply IH.
Qed.

Lemma bodyLoop_closed (tail : option error) (fuel : nat) :
  forall consumed b o d b' o' d',
    bodyLoop unmarshal tail fuel consumed b o d = Some (b', o', d', None) ->
    forall acc, exists ch, readNodes d [] acc = Some (ch, d').
Proof.
  induction fuel as [| fuel IH]; intros consumed b o d b' o' d' H acc; [done |].
  destruct d as [| [n a | n | m] d]; simpl in H; [done | | |].
  - destruct consumed; [done |].
    destruct (String.eqb (Space n) soapNS && String.eqb (Local n) "Fault").
    + unfold DecodeFault in H.
      destruct (readNodes d [] []) as [[c d2] |] eqn:Hr; [| done].
      destruct (unmarshalFault zeroFault n c) as [f [err |]]; [done |].
      rewrite (readNodes_skip d d2 c n a acc Hr). by eapply IH.
    + unfold DecodeElement in H. destruct (BodyContent b); [done | done |].
      destruct (readNodes d [] []) as [[c d2] |] eqn:Hr; [| done].
      destruct (unmarshal o n a c) as [o1 [err |]]; [done |].
      rewrite (readNodes_skip d d2 c n a acc Hr). by eapply IH.
  - injection H as _ _ <-. by eexists.
  - simpl. by eapply IH.
Qed.

Lemma envelopeLoop_closed (tail : option error) (fuel : nat) :
  forall b o d b' o' d',
    envelopeLoop unmarshal tail fuel b o d = Some (b', o', d', None) ->
    forall acc, exists ch, readNodes d [] acc = Some (ch, d').
Proof.
  induction fuel as [| fuel IH]; intros b o d b' o' d' H acc; [done |].
  destruct d as [| [n a | n | m] d]; simpl in H; [done | | |].
  - destruct (String.eqb (Local n) "Body").
    + destruct (UnmarshalXML unmarshal tail b o d) as [[[[b1 o1] d1] [err |]] |] eqn:Hu;
        [done | | done].
      assert (Hr : exists c, readNodes d [] [] = Some (c, d1)).
      { unfold UnmarshalXML in Hu. destruct (BodyContent b); [done | |];
          by eapply bodyLoop_closed. }
      destruct Hr as [c Hr]. rewrite (readNodes_skip d d1 c n a acc Hr). by eapply IH.
    + unfold Skip in H. destruct (readNodes d [] []) as [[c d2] |] eqn:Hr; [| done].
      simpl in H. rewrite (readNodes_skip d d2 c n a acc Hr). by eapply IH.
  - injection H as _ _ <-. by eexists.
  - simpl. by eapply IH.
Qed.

(** [Parse] never reports success on input that stops short: when it
    returns no error, the input has a root element named [Envelope] and
    the end tag that closes the root is part of the input. *)
Theorem Parse_success_root_closed (data : list Token) (v : Interface) (o o' : T) :
  Parse unmarshal data v o = Some (o', None) ->
  exists n a d ch rest,
    findStart data = Some (n, a, d)
    /\ Local n = "Envelope"
    /\ readNodes d [] [] = Some (ch, rest).
Proof.
  unfold Parse, Unmarshal. intros H.
  destruct (lexed_prefix data) as [cut Hdata].
  destruct (findStart (lexed data).1) as [[[n a] d] |] eqn:Hs; [| done].
  destruct (String.eqb (Local n) "Envelope") eqn:Hn; [| done].
  apply String.eqb_eq in Hn. cbn [negb] in H.
  remember (S (length d)) as fuel eqn:Hfuel. clear Hfuel.
  destruct (envelopeLoop unmarshal (lexed data).2 fuel (mkBody None v) o d)
    as [[[[b1 o1] d1] [err |]] |] eqn:He; [done | | done].
  destruct (envelopeLoop_closed _ _ _ _ _ _ _ _ He []) as [ch Hch].
  exists n, a, (d ++ cut), ch, (d1 ++ cut). split; [| split; [done |]].
  - rewrite Hdata at 1. by apply findStart_app.
  - by apply readNodes_app.
Qed.

End ParseExtra.

(** [Parse] returns on every input: each round of the two loops takes at
    least one token off the input, so that the rounds allowed for by the
    length of the input are never used up. *)
Theorem Parse_terminates {T : Type}
    (unmarshal : T -> Name -> list Attr -> list Node -> T * option error)
    (data : list Token) (v : Interface) (o : T) :
  exists o' e, Parse unmarshal data v o = Some (o', e).
Proof.
  unfold Parse, Unmarshal.
  destruct (findStart (lexed data).1) as [[[n a] d] |]; [| by eexists _, _].
  destruct (negb (String.eqb (Local n) "Envelope")); [by eexists _, _ |].
  destruct (envelopeLoop_total unmarshal (lexed data).2 (S (length d)) (mkBody None v) o d)
    as [[[[b' o'] d'] e] ->]; [lia |].
  destruct e; [by eexists _, _ |]. destruct (BodyFault b'); by eexists _, _.
Qed.

Lemma Parse_no_root_witness :
  Parse priceUnmarshal [MiscTok (CharData " "); MiscTok (Comment "nothing")]
        IPointer (mkPrice "7")
  = Some (mkPrice "7", Some EOF).
Proof.
  apply (Parse_no_root priceUnmarshal
           [MiscTok (CharData " "); MiscTok (Comment "nothing")] IPointer (mkPrice "7"));
    reflexivity.
Defined.

Lemma Parse_wrong_root_witness :
  Parse priceUnmarshal
        ((MiscTok <$> [Comment "page"])
         ++ StartElement (mkName "" "html") [] :: tokens (text "busy")
         ++ [EndElement (mkName "" "html")])
        IPointer (mkPrice "7")
  = Some (mkPrice "7",
          Some (UnmarshalError "expected element type <Envelope> but have <html>")).
Proof.
  apply (Parse_wrong_root priceUnmarshal [Comment "page"] (mkName "" "html") []
           (tokens (text "busy") ++ [EndElement (mkName "" "html")])
           IPointer (mkPrice "7")); [reflexivity | discriminate].
Defined.

Lemma Parse_no_body_witness :
  Parse priceUnmarshal
        ((MiscTok <$> []) ++
         tokens (Elem (mkName soapNS "Envelope") []
                   [element soapNS "Header" [priceElement]; priceElement]) ++ [])
        INil (mkPrice "7")
  = Some (mkPrice "7", None).
Proof.
  apply (Parse_no_body priceUnmarshal [] (mkName soapNS "Envelope") []
           [element soapNS "Header" [priceElement]; priceElement] [] INil (mkPrice "7"));
    reflexivity.
Defined.

Lemma Parse_depends_on_body_elements_witness :
  Parse sliceUnmarshal (responseTokens (sampleResponse [text " "; itemA; text " "]))
        IPointer []
  = Parse sliceUnmarshal (responseTokens (bareResponse [itemA])) IPointer [].
Proof.
  apply (Parse_depends_on_body_elements sliceUnmarshal
           (sampleResponse [text " "; itemA; text " "]) (bareResponse [itemA])
           IPointer []);
    reflexivity.
Defined.

Lemma Parse_success_iff_witness :
  Parse priceUnmarshal (responseTokens (sampleResponse [priceElement])) IPointer
        (mkPrice "")
  = Some (mkPrice "42", None).
Proof.
  apply (Parse_success_iff priceUnmarshal (sampleResponse [priceElement])
           (mkPrice "") (mkPrice "42") eq_refl).
  right. exists (mkName "" "GetPriceResponse"), [], [element "" "Price" [text "42"]].
  repeat split.
Defined.

Lemma Parse_fault_only_if_witness :
  [itemA] = [itemA]
  /\ exists x, elements (bodyChildren (sampleResponse [text " "; sampleFault])) = [x]
               /\ isSoapFault x = true
               /\ faultValue x = mkFault "Server.Error" "boom" "svc" "".
Proof.
  apply (Parse_fault_only_if sliceUnmarshal (sampleResponse [text " "; sampleFault])
           IPointer [itemA] [itemA] (mkFault "Server.Error" "boom" "svc" "")).
  - reflexivity.
  - intros o0 n a c f0. simpl. discriminate.
  - reflexivity.
Defined.

Lemma Parse_two_bodies_witness :
  Parse sliceUnmarshal (twoBodies [itemA] [itemB]) IPointer []
  = Some ([itemA; itemB], None).
Proof.
  apply (Parse_two_bodies sliceUnmarshal [Comment "response"]
           (mkName soapNS "Envelope") [] [text " "] [text " "] []
           (mkName soapNS "Body") (mkName soapNS "Body") [] [] [itemA] [itemB] []
           (mkName "" "a") (mkName "" "b") [] [] [text "1"] [text "2"] [] [itemA]
           [itemA; itemB]);
    reflexivity.
Defined.

Lemma Parse_fault_then_body_witness :
  Parse sliceUnmarshal (twoBodies [sampleFault] [itemB]) IPointer []
  = Some ([], Some errContentNil).
Proof.
  apply (Parse_fault_then_body sliceUnmarshal [Comment "response"]
           (mkName soapNS "Envelope") [] [text " "] [text " "] []
           (mkName soapNS "Body") (mkName soapNS "Body") [] [] [sampleFault] [itemB] []
           sampleFault IPointer []);
    reflexivity.
Defined.

Lemma Parse_success_root_closed_witness :
  exists n a d ch rest,
    findStart (responseTokens (sampleResponse [priceElement])) = Some (n, a, d)
    /\ Local n = "Envelope"
    /\ readNodes d [] [] = Some (ch, rest).
Proof.
  apply (Parse_success_root_closed priceUnmarshal
           (responseTokens (sampleResponse [priceElement])) IPointer
           (mkPrice "") (mkPrice "42")).
  reflexivity.
Defined.

(** A response that declares Latin-1: [Parse] returns the lexer's error
    and not the Fault of its body. *)
Lemma Parse_latin1_response :
  Parse sliceUnmarshal
        (MiscTok (ProcInst "xml" "version='1.0' encoding='ISO-8859-1'")
         :: responseTokens (sampleResponse [sampleFault]))
        IPointer [itemA]
  = Some ([itemA], Some (EncodingError "ISO-8859-1")).
Proof. vm_compute. reflexivity. Qed.

(** ** Further properties of the request options *)

Section OptionExtra.

Context {V : Type}.

(** The request after a list of exported options. *)
Lemma applyOptions_foldl (specs : list OptionSpec) : forall request : Request (V:=V),
  applyOptions (optionOf <$> specs) request
  = (foldl (fun r s => fst (optionOf s r)) request specs, None).
Proof.
  induction specs as [| s specs IH]; intros request; [done |].
  simpl. pose proof (optionOf_ok s request) as Hok.
  destruct (optionOf s request) as [request' [err |]] eqn:Hs; [done |].
  by rewrite IH.
Qed.

Lemma applyOptions_snoc (specs : list OptionSpec) (s : OptionSpec)
    (request : Request (V:=V)) :
  fst (applyOptions (optionOf <$> (specs ++ [s])) request)
  = fst (optionOf s (fst (applyOptions (optionOf <$> specs) request))).
Proof. rewrite !applyOptions_foldl. simpl. by rewrite foldl_app. Qed.

Lemma applyOptions_envelope (specs : list OptionSpec) (request : Request (V:=V)) :
  Header (fst (applyOptions (optionOf <$> specs) request)) = Header request
  /\ Body (fst (applyOptions (optionOf <$> specs) request)) = Body request
  /\ path (fst (applyOptions (optionOf <$> specs) request)) = path request.
Proof.
  induction specs as [| s specs IH] using rev_ind; [done |].
  rewrite applyOptions_snoc. destruct IH as (Hh & Hb & Hp).
  by destruct s.
Qed.

(** The exported options never fail and never touch the payload of the
    envelope or its path: whatever options are applied, header, body and
    path of the request stay as they were. *)
Theorem options_preserve_envelope (specs : list OptionSpec) (request : Request (V:=V)) :
  snd (applyOptions (optionOf <$> specs) request) = None
  /\ Header (fst (applyOptions (optionOf <$> specs) request)) = Header request
  /\ Body (fst (applyOptions (optionOf <$> specs) request)) = Body request
  /\ path (fst (applyOptions (optionOf <$> specs) request)) = path request.
Proof.
  split; [by rewrite applyOptions_foldl | apply applyOptions_envelope].
Qed.

(** Last write wins for the scalar settings: after a list of exported
    options each of user agent, content type, action, bearer token and the
    basic-auth pair has the value of the last option that sets it, and its
    old value when no option does. *)
Theorem options_last_write_wins (specs : list OptionSpec) (request : Request (V:=V)) :
  let r := fst (applyOptions (optionOf <$> specs) request) in
  userAgent r = default (userAgent request) (last (omap userAgentOf specs))
  /\ contentType r = default (contentType request) (last (omap contentTypeOf specs))
  /\ action r = default (action request) (last (omap actionOf specs))
  /\ bearerToken r = default (bearerToken request) (last (omap bearerTokenOf specs))
  /\ (username r, password r)
     = default (username request, password request) (last (omap basicAuthOf specs)).
Proof.
  induction specs as [| s specs IH] using rev_ind; [done |].
  cbv zeta in *. rewrite applyOptions_snoc, !omap_app.
  destruct IH as (Hua & Hct & Hact & Hbt & Hba).
  destruct s; simpl; rewrite ?app_nil_r, ?last_snoc; simpl; try done.
  all: repeat split; try done.
  all: by injection Hba as -> ->.
Qed.

Lemma filter_removeSoapenv (l : list Attr) :
  filter (fun a => isSoapenv a = false) (removeSoapenv l)
  = filter (fun a => isSoapenv a = false) l.
Proof.
  rewrite removeSoapenv_filter.
  induction l as [| a l IH]; [done |].
  destruct (isSoapenv a) eqn:Ha.
  - rewrite !filter_cons_False by (by rewrite Ha). done.
  - rewrite !filter_cons_True by done. by rewrite IH.
Qed.

(** On values, no attribute other than the reserved one is ever dropped,
    reordered or merged: after a list of exported options the attributes
    with a local name other than "soapenv" are those the request had,
    followed by those every [AddAttributes] brought, in order and with
    repetitions. *)
Theorem options_keep_other_attributes (specs : list OptionSpec)
    (request : Request (V:=V)) :
  filter (fun a => isSoapenv a = false)
         (Attributes (fst (applyOptions (optionOf <$> specs) request)))
  = filter (fun a => isSoapenv a = false) (Attributes request ++ addedAttributes specs).
Proof.
  induction specs as [| s specs IH] using rev_ind.
  { simpl. by rewrite app_nil_r. }
  rewrite applyOptions_snoc. unfold addedAttributes in *.
  rewrite flat_map_app, app_assoc, (filter_app _ (_ ++ _)), <- IH.
  destruct s; simpl; rewrite ?app_nil_r; try done.
  rewrite filter_app. destruct (findSoapenv attributes); [| done].
  by rewrite filter_removeSoapenv.
Qed.

(** On values, last write wins for the reserved attribute across the
    option list: when an [AddAttributes] option supplies "soapenv"
    attributes and no later option does, the request ends up with exactly
    the values that option supplied. *)
Theorem options_soapenv_last_write_wins (before after : list OptionSpec)
    (attributes : list Attr) (request : Request (V:=V)) :
  existsb isSoapenv attributes = true ->
  forallb (fun s => negb (suppliesSoapenv s)) after = true ->
  soapenvValues
    (Attributes (fst (applyOptions
                        (optionOf <$> (before ++ OAddAttributes attributes :: after))
                        request)))
  = soapenvValues attributes.
Proof.
  intros Ha. induction after as [| s after IH] using rev_ind; intros Hafter.
  - rewrite applyOptions_snoc. simpl optionOf.
    rewrite (proj2 (AddAttributes_soapenv attributes _)).
    by rewrite findSoapenv_existsb, Ha.
  - rewrite forallb_app in Hafter. apply andb_true_iff in Hafter as [Hafter Hs].
    simpl in Hs. rewrite andb_true_r in Hs. apply negb_true_iff in Hs.
    change (before ++ OAddAttributes attributes :: after ++ [s])
      with (before ++ (OAddAttributes attributes :: after) ++ [s]).
    rewrite app_assoc, applyOptions_snoc, <- IH by done.
    destruct s; try done. simpl optionOf.
    rewrite (proj2 (AddAttributes_soapenv attributes0 _)).
    simpl in Hs. by rewrite findSoapenv_existsb, Hs.
Qed.

End OptionExtra.

Lemma options_soapenv_last_write_wins_witness :
  soapenvValues
    (Attributes (V:=list Node)
       (fst (applyOptions
               (optionOf <$> ([OAddAttributes [mkAttr (mkName "" "soapenv") "X"]]
                              ++ OAddAttributes [mkAttr (mkName "" "ns1") "urn:a";
                                                 mkAttr (mkName "" "soapenv") "Y"]
                              :: [OUserAgent "B";
                                  OAddAttributes [mkAttr (mkName "" "ns1") "urn:b"]]))
               (NewRequest "/p" None None []))))
  = ["Y"].
Proof.
  apply (options_soapenv_last_write_wins
           [OAddAttributes [mkAttr (mkName "" "soapenv") "X"]]
           [OUserAgent "B"; OAddAttributes [mkAttr (mkName "" "ns1") "urn:b"]]
           [mkAttr (mkName "" "ns1") "urn:a"; mkAttr (mkName "" "soapenv") "Y"]
           (NewRequest "/p" None None []));
    reflexivity.
Defined.

(** ** Further properties of [AddAttributes] on slices in memory *)

Section SliceExtra.

Variable spare : nat -> nat -> nat.

(** No attribute other than the reserved one is ever dropped, reordered
    or merged: after the options [AddAttributes] made of slices that do
    not share the array of the request's attributes, the attributes with
    a local name other than "soapenv" are those the request had, followed
    by the elements of each slice, in order and with repetitions. *)
Theorem AddAttributes_keeps_other_attributes (h : InMemory.Heap)
    (request : InMemory.Request) (slices : list InMemory.Slice) :
  InMemory.allocated h (InMemory.Attributes request) ->
  Forall (InMemory.apart h request) slices ->
  filter (fun a => isSoapenv a = false)
    (InMemory.attributesOf
       (InMemory.callAll spare (InMemory.AddAttributes h <$> slices) h request))
  = filter (fun a => isSoapenv a = false)
      (InMemory.contents h (InMemory.Attributes request)
       ++ concat (InMemory.contents h <$> slices)).
Proof.
  intros Hreq Hs.
  rewrite (AddAttributes_refines (V:=unit) spare h request slices
             (mkRequest (InMemory.contents h (InMemory.Attributes request))
                        (mkHeader None) (mkReqBody None None) "" "" "" "" "" "" ""))
    by done.
  rewrite options_keep_other_attributes. cbn [Attributes]. do 2 f_equal.
  unfold addedAttributes. induction slices as [| s l IH]; [done |].
  simpl. f_equal. apply IH. by apply Forall_inv_tail in Hs.
Qed.

(** Last write wins for the reserved attribute: when, among options
    [AddAttributes] made of slices that do not share the array of the
    request's attributes, one slice holds "soapenv" attributes and no
    later one does, the request ends up with exactly the "soapenv" values
    of that slice. *)
Theorem AddAttributes_soapenv_last_write_wins (h : InMemory.Heap)
    (request : InMemory.Request) (before after : list InMemory.Slice)
    (s : InMemory.Slice) :
  InMemory.allocated h (InMemory.Attributes request) ->
  Forall (InMemory.apart h request) (before ++ s :: after) ->
  existsb isSoapenv (InMemory.contents h s) = true ->
  forallb (fun s' => negb (existsb isSoapenv (InMemory.contents h s'))) after = true ->
  soapenvValues
    (InMemory.attributesOf
       (InMemory.callAll spare (InMemory.AddAttributes h <$> (before ++ s :: after))
          h request))
  = soapenvValues (InMemory.contents h s).
Proof.
  intros Hreq Hs Hsup Hafter.
  rewrite (AddAttributes_refines (V:=unit) spare h request _
             (mkRequest (InMemory.contents h (InMemory.Attributes request))
                        (mkHeader None) (mkReqBody None None) "" "" "" "" "" "" ""))
    by done.
  assert (E : OAddAttributes <$> (InMemory.contents h <$> (before ++ s :: after))
              = (OAddAttributes <$> (InMemory.contents h <$> before))
                ++ OAddAttributes (InMemory.contents h s)
                   :: (OAddAttributes <$> (InMemory.contents h <$> after)))
    by (by rewrite !fmap_app, !fmap_cons).
  rewrite E. apply options_soapenv_last_write_wins; [done |].
  clear Hs E. induction after as [| s' after IH]; [done |].
  cbn [forallb fmap list_fmap suppliesSoapenv] in *.
  apply andb_true_iff in Hafter as [Hs' Hafter]. rewrite Hs'. by apply IH.
Qed.

End SliceExtra.

Lemma AddAttributes_keeps_other_attributes_witness :
  filter (fun a => isSoapenv a = false)
    (InMemory.attributesOf
       (InMemory.callAll InMemory.doubling
          (InMemory.AddAttributes (InMemory.NewRequest InMemory.sampleHeap).1
             <$> InMemory.sampleSlices)
          (InMemory.NewRequest InMemory.sampleHeap).1
          (InMemory.NewRequest InMemory.sampleHeap).2))
  = [InMemory.ns1; mkAttr (mkName "" "ns2") "urn:b"].
Proof.
  rewrite (AddAttributes_keeps_other_attributes InMemory.doubling
             (InMemory.NewRequest InMemory.sampleHeap).1
             (InMemory.NewRequest InMemory.sampleHeap).2 InMemory.sampleSlices).
  - reflexivity.
  - repeat split; vm_compute; lia.
  - apply Forall_cons. split; [right; split; [vm_compute; lia | discriminate] |].
    apply Forall_cons. split; [right; split; [vm_compute; lia | discriminate] |].
    apply Forall_nil_2.
Defined.

Lemma AddAttributes_soapenv_last_write_wins_witness :
  soapenvValues
    (InMemory.attributesOf
       (InMemory.callAll InMemory.doubling
          (InMemory.AddAttributes (InMemory.NewRequest InMemory.sampleHeap).1
             <$> ([] ++ InMemory.mkSlice 0 0 2 2 :: [InMemory.mkSlice 1 0 1 1]))
          (InMemory.NewRequest InMemory.sampleHeap).1
          (InMemory.NewRequest InMemory.sampleHeap).2))
  = ["X"].
Proof.
  rewrite (AddAttributes_soapenv_last_write_wins InMemory.doubling
             (InMemory.NewRequest InMemory.sampleHeap).1
             (InMemory.NewRequest InMemory.sampleHeap).2
             [] [InMemory.mkSlice 1 0 1 1] (InMemory.mkSlice 0 0 2 2)).
  - reflexivity.
  - repeat split; vm_compute; lia.
  - apply Forall_cons. split; [right; split; [vm_compute; lia | discriminate] |].
    apply Forall_cons. split; [right; split; [vm_compute; lia | discriminate] |].
    apply Forall_nil_2.
  - reflexivity.
  - reflexivity.
Defined.

(** ** Further properties of [Serialize] *)

Lemma append_empty_r (s : string) : s +:+ "" = s.
Proof.
  induction s as [| c s IH]; [done |].
  change (String c s +:+ "") with (String c (s +:+ "")). by rewrite IH.
Qed.

Section SerializeExtra.

Context {V T : Type}.
Variable marshalValue : string -> V -> result (list Node).
Variable pickPrefix : string -> list string -> string.
Variable unmarshal : T -> Name -> list Attr -> list Node -> T * option error.

Lemma Serialize_ext (r r' : Request (V:=V)) :
  Attributes r = Attributes r' ->
  Header r = Header r' ->
  Body r = Body r' ->
  Serialize marshalValue pickPrefix r = Serialize marshalValue pickPrefix r'.
Proof.
  intros Ha Hh Hb. unfold Serialize, marshalRequest. by rewrite Ha, Hh, Hb.
Qed.

Lemma options_keep_attributes (specs : list OptionSpec) (request : Request (V:=V)) :
  forallb (fun s => negb (isAddAttributes s)) specs = true ->
  Attributes (fst (applyOptions (optionOf <$> specs) request)) = Attributes request.
Proof.
  induction specs as [| s specs IH] using rev_ind; [done |].
  rewrite forallb_app, andb_true_iff. intros [Hspecs Hs].
  rewrite applyOptions_snoc, <- IH by done. by destruct s.
Qed.

(** Credentials and transport settings never reach the envelope: after
    any list of the options for basic authentication, bearer token, user
    agent, content type and action, [Serialize] gives the same result as
    before. *)
Theorem Serialize_ignores_settings (specs : list OptionSpec) (request : Request (V:=V)) :
  forallb (fun s => negb (isAddAttributes s)) specs = true ->
  Serialize marshalValue pickPrefix (fst (applyOptions (optionOf <$> specs) request))
  = Serialize marshalValue pickPrefix request.
Proof.
  intros H. destruct (applyOptions_envelope specs request) as (Hh & Hb & _).
  apply Serialize_ext; [by apply options_keep_attributes | done | done].
Qed.

Lemma concatResults_first_error {A B : Type} (f : A -> result (list B))
    (pre : list A) (x : A) (rest : list A) (e : error) :
  Forall (fun i => exists l, f i = Ok l) pre ->
  f x = Err e ->
  concatResults f (pre ++ x :: rest) = Err e.
Proof.
  intros Hpre Hx. induction Hpre as [| i pre [l Hi] _ IH]; simpl.
  - by rewrite Hx.
  - by rewrite Hi, IH.
Qed.

(** A header element that cannot be marshalled makes [Serialize] fail
    with the encoder's error for it, unchanged: the error of the first
    such element in the list, whatever the later elements and the content
    do. *)
Theorem Serialize_header_error (r : Request (V:=V)) (pre : list (option V)) (h : V)
    (rest : list (option V)) (e : error) :
  HeaderItems (Header r) = Some (pre ++ Some h :: rest) ->
  Forall (fun i => exists l, marshalInterface marshalValue "Header" i = Ok l) pre ->
  marshalValue "Header" h = Err e ->
  Serialize marshalValue pickPrefix r = Err e.
Proof.
  intros Hh Hpre He. unfold Serialize, marshalRequest, marshalHeader.
  rewrite Hh. simpl default.
  by rewrite (concatResults_first_error _ pre (Some h) rest e Hpre He).
Qed.

(** When the header elements can be marshalled and the content cannot,
    [Serialize] fails with the encoder's error for the content,
    unchanged. *)
Theorem Serialize_content_error (r : Request (V:=V)) (items : list Node) (c : V)
    (e : error) :
  concatResults (marshalInterface marshalValue "Header")
                (default [] (HeaderItems (Header r))) = Ok items ->
  ReqContent (Body r) = Some c ->
  marshalValue "Content" c = Err e ->
  Serialize marshalValue pickPrefix r = Err e.
Proof.
  intros Hh Hc He. unfold Serialize, marshalRequest, marshalHeader, marshalBody.
  rewrite Hh, Hc. simpl. by rewrite He.
Qed.

Lemma rereadL_app (ns : gmap string string) (l1 l2 l1' l2' : list Node) :
  rereadL ns l1 = Some l1' ->
  rereadL ns l2 = Some l2' ->
  rereadL ns (l1 ++ l2) = Some (l1' ++ l2').
Proof.
  revert l1'. induction l1 as [| x l1 IH]; intros l1' H1 H2.
  - injection H1 as <-. done.
  - rewrite rereadL_cons in H1. simpl app. rewrite rereadL_cons.
    destruct (reread ns x) as [x' |]; [| done]. simpl in *.
    destruct (rereadL ns l1) as [l1'' |]; [| done]. simpl in H1.
    injection H1 as <-. by rewrite (IH l1'' eq_refl H2).
Qed.

(** [escapeText] leaves ASCII text that XML allows as it is. *)
Lemma writtenText_plain (s : string) : plainText s = true -> writtenText s = s.
Proof.
  unfold writtenText. induction s as [| c s IH]; [done |].
  simpl plainText. rewrite !andb_true_iff. intros [[Hc Hr] Hs].
  cbn [escapeText]. unfold DecodeRune, first. rewrite Hc, Hr.
  assert (Hne : N.eqb (N_of_ascii c) 0xFFFD = false).
  { apply N.eqb_neq. apply N.ltb_lt in Hc. lia. }
  rewrite Hne. change (negb true || false && (1 =? 1)%nat) with false. cbv iota.
  change (1 - 1) with 0. rewrite IH by done.
  change (substring 0 1 (String c s)) with (String c (substring 0 0 s)).
  replace (substring 0 0 s) with EmptyString by (by destruct s). done.
Qed.

(** What the decoder reads back for a marshalled Fault. *)
Lemma reread_faultField (name value : string) :
  nsname name = Some (mkName "" name) ->
  name <> "xmlns" ->
  exists l,
    rereadL (<[EmptyString := soapNS]> ∅) (faultField name value) = Some l
    /\ forall f,
         foldl setFaultField f l
         = if String.eqb value "" then f
           else setFaultField f
                  (Elem (mkName soapNS name) [] [Leaf (CharData (writtenText value))]).
Proof.
  intros Hn Hx. unfold faultField. destruct (String.eqb value "").
  { by exists []. }
  exists [Elem (mkName soapNS name) [] [Leaf (CharData (writtenText value))]].
  split; [| done].
  rewrite rereadL_cons.
  rewrite (reread_Elem_Some _ _ _ _ (mkName "" name) []) by done.
  simpl. unfold translate. simpl.
  apply String.eqb_neq in Hx. rewrite Hx. simpl.
  by rewrite lookup_insert_eq.
Qed.

Lemma reread_marshalFault (f : Fault) :
  exists x, reread ∅ (marshalFault f) = Some x
            /\ isSoapFault x = true /\ faultValue x = writtenFault f.
Proof.
  unfold marshalFault.
  rewrite (reread_Elem_Some _ _ _ _ (mkName "" "Fault") [mkAttr (mkName "" "xmlns") soapNS])
    by done.
  change (foldl declare ∅ [mkAttr (mkName "" "xmlns") soapNS])
    with (<[EmptyString := soapNS]> (∅ : gmap string string)).
  destruct (reread_faultField "faultcode" (Code f)) as (l1 & H1 & F1); [done | done |].
  destruct (reread_faultField "faultstring" (String_ f)) as (l2 & H2 & F2); [done | done |].
  destruct (reread_faultField "faultactor" (Actor f)) as (l3 & H3 & F3); [done | done |].
  destruct (reread_faultField "detail" (Detail f)) as (l4 & H4 & F4); [done | done |].
  assert (Hall : rereadL (<[EmptyString := soapNS]> ∅)
                   (faultField "faultcode" (Code f) ++ faultField "faultstring" (String_ f)
                    ++ faultField "faultactor" (Actor f) ++ faultField "detail" (Detail f))
                 = Some (l1 ++ l2 ++ l3 ++ l4)).
  { repeat apply rereadL_app; done. }
  rewrite Hall. eexists. split; [done |]. split.
  - simpl. unfold translate. simpl. by rewrite lookup_insert_eq.
  - simpl. rewrite !foldl_app, F4, F3, F2, F1. destruct f as [c s a d]. simpl.
    destruct (String.eqb c "") eqn:Ec, (String.eqb s "") eqn:Es,
             (String.eqb a "") eqn:Ea, (String.eqb d "") eqn:Ed;
      rewrite ?String.eqb_eq in *; subst; simpl;
      unfold zeroFault, writtenFault; simpl; rewrite ?append_empty_r; done.
Qed.

(** Parsing what [Serialize] wrote for a request with the default
    attribute: the outcome is that of the body loop on what the decoder
    reads back for the Fault and the content of the request. *)
Lemma Serialize_wire_Parse (r : Request (V:=V)) (buffer data : list Token)
    (v : Interface) (o : T) :
  Attributes r = [defaultAttr] ->
  Serialize marshalValue pickPrefix r = Ok buffer ->
  wire buffer = Some data ->
  exists content nodes,
    marshalInterface marshalValue "Content" (ReqContent (Body r)) = Ok content
    /\ rereadL ∅ (match ReqFault (Body r) with
                  | Some f => [marshalFault f]
                  | None => []
                  end ++ content) = Some nodes
    /\ Parse unmarshal data v o = Some (parseBody unmarshal v o nodes).
Proof.
  intros Ha Hser Hwire. unfold Serialize, marshalRequest, marshalHeader, marshalBody in Hser.
  rewrite Ha in Hser.
  destruct (concatResults _ (default [] (HeaderItems (Header r)))) as [items | e];
    [| discriminate Hser].
  destruct (marshalInterface marshalValue "Content" (ReqContent (Body r)))
    as [content | e]; [| discriminate Hser].
  cbn [bind] in Hser. apply Ok_inj in Hser.
  change (printAttrs pickPrefix [] [defaultAttr]) with [defaultAttr] in Hser.
  rewrite <- Hser, wire_tokens, reread_request in Hwire.
  destruct (rereadL ∅ items) as [items' |] eqn:Hitems; [| discriminate Hwire].
  destruct (rereadL ∅ (_ ++ content)) as [nodes |] eqn:Hn; [| discriminate Hwire].
  pose proof (rereadL_accepted _ _ _ Hitems) as Hai.
  pose proof (rereadL_accepted _ _ _ Hn) as Han.
  exists content, nodes. split; [done |]. split; [done |].
  assert (Hd : data = tokens (Elem (mkName "soapenv" "Envelope") [defaultAttr]
                        [Elem (mkName "soapenv" "Header") [] items';
                         Elem (mkName "soapenv" "Body") [] nodes])).
  { cbn in Hwire. injection Hwire as <-. reflexivity. }
  pose proof (Parse_document unmarshal [] (mkName "soapenv" "Envelope") [defaultAttr]
                [Elem (mkName "soapenv" "Header") [] items';
                 Elem (mkName "soapenv" "Body") [] nodes]
                [] v o eq_refl eq_refl) as Hp.
  cbn [forallb] in Hp. rewrite !acceptedNode_Elem, Hai, Han in Hp.
  specialize (Hp eq_refl).
  change ((MiscTok <$> []) ++ ?l) with l in Hp.
  rewrite app_nil_r, <- Hd in Hp. rewrite Hp. f_equal.
  by rewrite parseTree_header_body.
Qed.

(** A Fault put into the body of a request comes back from [Parse] with
    its fields as the encoder writes them, that is with U+FFFD for every
    character outside the XML range and every byte outside a valid UTF-8
    encoding: serializing a request that carries a Fault and no content,
    and parsing the result with a destination, returns that Fault as the
    error and leaves the destination alone.  A Fault whose fields are
    ASCII text that XML allows comes back as it is. *)
Theorem Fault_roundtrip (r : Request (V:=V)) (f : Fault) (buffer data : list Token)
    (v : Interface) (o : T) :
  Attributes r = [defaultAttr] ->
  ReqFault (Body r) = Some f ->
  ReqContent (Body r) = None ->
  Serialize marshalValue pickPrefix r = Ok buffer ->
  wire buffer = Some data ->
  v <> INil ->
  Parse unmarshal data v o = Some (o, Some (FaultError (writtenFault f)))
  /\ (plainText (Code f) && plainText (String_ f)
      && plainText (Actor f) && plainText (Detail f) = true ->
      Parse unmarshal data v o = Some (o, Some (FaultError f))).
Proof.
  intros Ha Hf Hc Hser Hwire Hv.
  assert (Hmain : Parse unmarshal data v o = Some (o, Some (FaultError (writtenFault f))));
    [| split; [exact Hmain |];
       rewrite !andb_true_iff; intros [[[H1 H2] H3] H4]; rewrite Hmain;
       unfold writtenFault; rewrite !writtenText_plain by done; by destruct f].
  destruct (Serialize_wire_Parse r buffer data v o Ha Hser Hwire)
    as (content & nodes & Hm & Hn & ->).
  rewrite Hc in Hm. injection Hm as <-. rewrite Hf in Hn.
  destruct (reread_marshalFault f) as (x & Hx & Hsf & Hfv).
  simpl app in Hn. rewrite rereadL_cons, Hx in Hn. injection Hn as <-.
  f_equal. rewrite parseBody_cases by done.
  destruct x as [n a c | m]; [| done].
  change (elements [Elem n a c]) with [Elem n a c]. cbv beta iota.
  by rewrite Hsf, Hfv.
Qed.

Lemma rereadL_isElem (ns : gmap string string) (l : list Node) : forall l',
  rereadL ns l = Some l' -> existsb isElem l = true -> existsb isElem l' = true.
Proof.
  induction l as [| x l IH]; intros l' H He; [done |].
  rewrite rereadL_cons in H.
  destruct (reread ns x) as [x' |] eqn:Hx; [| done]. simpl in H.
  destruct (rereadL ns l) as [l1 |]; [| done]. injection H as <-.
  simpl in He. simpl. destruct x as [n a c | m].
  - rewrite reread_Elem in Hx.
    destruct (nsname (Local n)); [| done]. simpl in Hx.
    destruct (mapM lexAttr a); [| done]. simpl in Hx.
    destruct (rereadL _ c); [| done]. by injection Hx as <-.
  - simpl in He. simpl in Hx. destruct (acceptedMisc m); [| done].
    injection Hx as <-. simpl. by apply IH.
Qed.

Lemma existsb_isElem_elements (l : list Node) :
  existsb isElem l = true -> elements l <> [].
Proof.
  induction l as [| x l IH]; [done |]. simpl.
  destruct (isElem x) eqn:Hx.
  - intros _. unfold elements. by rewrite filter_cons_True.
  - intros H. unfold elements. rewrite filter_cons_False by (by rewrite Hx).
    by apply IH.
Qed.

(** Fault and content exclude each other on the wire: a request that
    carries both a Fault and a content with at least one element is
    serialized with both in its body, and parsing the result stops at the
    content with the multiple-elements error, without touching the
    destination. *)
Theorem Fault_and_content_rejected (r : Request (V:=V)) (f : Fault) (c : V)
    (content : list Node) (buffer data : list Token) (v : Interface) (o : T) :
  Attributes r = [defaultAttr] ->
  ReqFault (Body r) = Some f ->
  ReqContent (Body r) = Some c ->
  marshalValue "Content" c = Ok content ->
  existsb isElem content = true ->
  Serialize marshalValue pickPrefix r = Ok buffer ->
  wire buffer = Some data ->
  v <> INil ->
  Parse unmarshal data v o = Some (o, Some errMultiple).
Proof.
  intros Ha Hf Hc Hm He Hser Hwire Hv.
  destruct (Serialize_wire_Parse r buffer data v o Ha Hser Hwire)
    as (content' & nodes & Hm' & Hn & ->).
  rewrite Hc in Hm'. simpl in Hm'. rewrite Hm in Hm'. injection Hm' as <-.
  rewrite Hf in Hn.
  destruct (reread_marshalFault f) as (x & Hx & Hsf & Hfv).
  simpl app in Hn. rewrite rereadL_cons, Hx in Hn. simpl in Hn.
  destruct (rereadL ∅ content) as [rest |] eqn:Hr; [| done]. injection Hn as <-.
  pose proof (existsb_isElem_elements rest (rereadL_isElem _ _ _ Hr He)) as Hne.
  f_equal. rewrite parseBody_cases by done.
  destruct x as [n a c0 | m]; [| done].
  change (elements (Elem n a c0 :: rest)) with (Elem n a c0 :: elements rest).
  cbv beta iota. rewrite Hsf. by destruct (elements rest).
Qed.

End SerializeExtra.

Lemma Serialize_ignores_settings_witness :
  Serialize sliceMarshal noPrefix
            (fst (applyOptions
                    (optionOf <$> [OBasicAuth "alice" "secret"; OBearerToken "tok";
                                   OUserAgent "B"; OContentType "text/plain";
                                   OAction "urn:act"])
                    (NewRequest "/p" (Some [priceElement]) None [])))
  = Serialize sliceMarshal noPrefix (NewRequest "/p" (Some [priceElement]) None []).
Proof.
  apply (Serialize_ignores_settings sliceMarshal noPrefix
           [OBasicAuth "alice" "secret"; OBearerToken "tok"; OUserAgent "B";
            OContentType "text/plain"; OAction "urn:act"]).
  reflexivity.
Defined.

Lemma Serialize_header_error_witness :
  Serialize payloadMarshal noPrefix
            (NewRequest "/p" (Some (Unsupported "func()"))
                        (Some ([Some (Elements [itemA]); None]
                               ++ Some (Unsupported "chan int")
                               :: [Some (Unsupported "func()")])) [])
  = Err (ErrorString "xml: unsupported type: chan int").
Proof.
  apply (Serialize_header_error payloadMarshal noPrefix _
           [Some (Elements [itemA]); None] (Unsupported "chan int")
           [Some (Unsupported "func()")]).
  - reflexivity.
  - repeat constructor; by eexists.
  - reflexivity.
Defined.

Lemma Serialize_content_error_witness :
  Serialize payloadMarshal noPrefix
            (NewRequest "/p" (Some (Unsupported "func()"))
                        (Some [Some (Elements [itemA]); None]) [])
  = Err (ErrorString "xml: unsupported type: func()").
Proof.
  apply (Serialize_content_error payloadMarshal noPrefix _ [itemA] (Unsupported "func()"));
    reflexivity.
Defined.

Lemma Fault_roundtrip_witness :
  exists buffer data,
    Serialize payloadMarshal noPrefix
              (faultRequest (mkFault "Client" "bad input" "" "line 3") None) = Ok buffer
    /\ wire buffer = Some data
    /\ Parse priceUnmarshal data IPointer (mkPrice "7")
       = Some (mkPrice "7", Some (FaultError (mkFault "Client" "bad input" "" "line 3"))).
Proof.
  eexists _, _. split; [reflexivity |]. split; [vm_compute; reflexivity |].
  assert (Hv : IPointer <> INil) by discriminate.
  refine (proj2 (Fault_roundtrip payloadMarshal noPrefix priceUnmarshal
                   (faultRequest (mkFault "Client" "bad input" "" "line 3") None)
                   (mkFault "Client" "bad input" "" "line 3") _ _ IPointer (mkPrice "7")
                   eq_refl eq_refl eq_refl eq_refl _ Hv) eq_refl).
  vm_compute; reflexivity.
Defined.

(** A Fault code that holds the control character U+0001 comes back as
    U+FFFD. *)
Lemma Fault_roundtrip_replacement :
  exists buffer data,
    Serialize payloadMarshal noPrefix
              (faultRequest (mkFault (String (ascii_of_nat 1) "") "" "" "") None)
    = Ok buffer
    /\ wire buffer = Some data
    /\ Parse priceUnmarshal data IPointer (mkPrice "7")
       = Some (mkPrice "7", Some (FaultError (mkFault escFFFD "" "" ""))).
Proof.
  eexists _, _. split; [reflexivity |]. split; [vm_compute; reflexivity |].
  vm_compute. reflexivity.
Qed.

Lemma Fault_and_content_rejected_witness :
  exists buffer data,
    Serialize payloadMarshal noPrefix
              (faultRequest (mkFault "Client" "bad input" "" "")
                            (Some (Elements [priceElement]))) = Ok buffer
    /\ wire buffer = Some data
    /\ Parse priceUnmarshal data IPointer (mkPrice "7")
       = Some (mkPrice "7", Some errMultiple).
Proof.
  eexists _, _. split; [reflexivity |]. split; [vm_compute; reflexivity |].
  eapply (Fault_and_content_rejected payloadMarshal noPrefix priceUnmarshal
            (faultRequest (mkFault "Client" "bad input" "" "")
                          (Some (Elements [priceElement])))
            (mkFault "Client" "bad input" "" "") (Elements [priceElement])
            [priceElement]);
    [reflexivity | reflexivity | reflexivity | reflexivity | reflexivity | reflexivity
     | vm_compute; reflexivity | discriminate].
Defined.

(** ** The two constructors *)

Section V1Extra.

Context {V : Type}.
Variable marshalValue : string -> V -> result (list Node).
Variable pickPrefix : string -> list string -> string.

Lemma V1_NewRequest_fields (path_ : string) (body : option V)
    (header : option (list (option V))) (action_ : string) (attributes : list Attr) :
  V1.Attributes (V1.NewRequest path_ body header action_ attributes)
  = attributes ++ (if existsb isSoapenv attributes then [] else [defaultAttr])
  /\ V1.Header (V1.NewRequest path_ body header action_ attributes) = mkHeader header
  /\ V1.Body (V1.NewRequest path_ body header action_ attributes) = mkReqBody None body.
Proof.
  unfold V1.NewRequest. rewrite findSoapenv_existsb.
  destruct (existsb isSoapenv attributes), header; simpl; by rewrite ?app_nil_r.
Qed.

(** The constructor of package soap keeps the caller's attributes as
    they are, in order, and adds the default "soapenv" attribute, at the
    end, exactly when none of them has that local name; so the request
    always has an attribute with the reserved name. *)
Theorem V1_NewRequest_attributes (path_ : string) (body : option V)
    (header : option (list (option V))) (action_ : string) (attributes : list Attr) :
  V1.Attributes (V1.NewRequest path_ body header action_ attributes)
  = attributes ++ (if existsb isSoapenv attributes then [] else [defaultAttr])
  /\ existsb isSoapenv
       (V1.Attributes (V1.NewRequest path_ body header action_ attributes)) = true.
Proof.
  destruct (V1_NewRequest_fields path_ body header action_ attributes) as (Ha & _).
  split; [done |]. rewrite Ha, existsb_app.
  by destruct (existsb isSoapenv attributes).
Qed.

(** The two packages write the same envelope: when the caller supplies
    a "soapenv" attribute, or no attribute at all, the constructor of
    package soap followed by its [Serialize] gives what [NewRequest],
    [AddAttributes] and [Serialize] of package v2 give. *)
Theorem V1_Serialize_agrees (path_ : string) (body : option V)
    (header : option (list (option V))) (action_ : string) (attributes : list Attr) :
  attributes = [] \/ existsb isSoapenv attributes = true ->
  V1.Serialize marshalValue pickPrefix
               (V1.NewRequest path_ body header action_ attributes)
  = Serialize marshalValue pickPrefix
              (fst (AddAttributes attributes (NewRequest path_ body header []))).
Proof.
  intros H. destruct (V1_NewRequest_fields path_ body header action_ attributes)
    as (Ha & Hh & Hb).
  unfold V1.Serialize, Serialize, marshalRequest. rewrite Ha, Hh, Hb.
  assert (Hattrs : attributes ++ (if existsb isSoapenv attributes then [] else [defaultAttr])
                   = Attributes (fst (AddAttributes attributes
                                        (NewRequest (V:=V) path_ body header [])))).
  { simpl. rewrite findSoapenv_existsb. destruct H as [-> | H].
    - by destruct header.
    - rewrite H. rewrite app_nil_r. by destruct header. }
  rewrite Hattrs. by destruct header.
Qed.

End V1Extra.

Lemma V1_Serialize_agrees_witness :
  V1.Serialize sliceMarshal noPrefix
               (V1.NewRequest "/p" (Some [priceElement]) (Some [Some [itemA]]) "urn:act"
                              [mkAttr (mkName "" "xmlns:ns1") "urn:a";
                               mkAttr (mkName "" "soapenv") "X"])
  = Serialize sliceMarshal noPrefix
              (fst (AddAttributes [mkAttr (mkName "" "xmlns:ns1") "urn:a";
                                   mkAttr (mkName "" "soapenv") "X"]
                                  (NewRequest "/p" (Some [priceElement])
                                              (Some [Some [itemA]]) []))).
Proof.
  apply (V1_Serialize_agrees sliceMarshal noPrefix). right. reflexivity.
Defined.

(** ** The client constructor *)

(** [NewClient] stops at the first option that fails: it returns that
    option's error and no client, whatever options come after it. *)
Theorem NewClient_first_error (httpClient_ : HttpRequest -> result HttpResponse)
    (baseAddress : string) (pre : list ClientOption) (option : ClientOption)
    (post : list ClientOption) (e : error) :
  Forall (fun p => forall c, snd (p c) = None) pre ->
  (forall c, snd (option c) = Some e) ->
  NewClient httpClient_ baseAddress (pre ++ option :: post) = Err e.
Proof.
  intros Hpre Hopt. unfold NewClient.
  generalize (mkClient httpClient_ baseAddress false "" "" "" "" "" "").
  induction Hpre as [| p pre Hp _ IH]; intros c; simpl.
  - specialize (Hopt c). destruct (option c) as [c' [err |]]; simpl in Hopt; congruence.
  - specialize (Hp c). destruct (p c) as [c' [err |]]; simpl in Hp; [done | apply IH].
Qed.

Lemma applyClientOptions_foldl (specs : list ClientOptionSpec) : forall c,
  applyClientOptions (clientOptionOf <$> specs) c
  = Ok (foldl (fun c s => fst (clientOptionOf s c)) c specs).
Proof.
  induction specs as [| s specs IH]; intros c; [done |].
  simpl. rewrite <- IH. by destruct s.
Qed.

(** With the exported options [NewClient] never fails.  The client it
    returns has the transport and base address it was given; its debug
    flag is set exactly when [DebugMode] is among the options; and each
    default has the value of the last option that sets it, and is unset
    when no option does. *)
Theorem NewClient_exported_options (httpClient_ : HttpRequest -> result HttpResponse)
    (baseAddress : string) (specs : list ClientOptionSpec) :
  exists c,
    NewClient httpClient_ baseAddress (clientOptionOf <$> specs) = Ok c
    /\ httpClient c = httpClient_
    /\ base c = baseAddress
    /\ debug c = existsb isDebugMode specs
    /\ clientUserAgent c = default "" (last (omap defaultUserAgentOf specs))
    /\ clientContentType c = default "" (last (omap defaultContentTypeOf specs))
    /\ clientAction c = default "" (last (omap defaultActionOf specs))
    /\ clientBearerToken c = default "" (last (omap defaultBearerTokenOf specs))
    /\ (clientUsername c, clientPassword c)
       = default ("", "") (last (omap defaultBasicAuthOf specs)).
Proof.
  unfold NewClient. rewrite applyClientOptions_foldl. eexists. split; [done |].
  induction specs as [| s specs IH] using rev_ind; [done |].
  rewrite foldl_app, existsb_app, !omap_app. simpl foldl.
  destruct IH as (Hh & Hb & Hd & Hua & Hct & Hact & Hbt & Hba).
  destruct s; simpl; rewrite ?app_nil_r, ?last_snoc, ?orb_false_r, ?orb_true_r;
    simpl; repeat split; try done.
  all: by injection Hba as -> ->.
Qed.

Lemma NewClient_first_error_witness :
  NewClient (fun _ => Ok (mkHttpResponse "" None)) "http://host"
            ([DebugMode; DefaultUserAgent "A"]
             ++ (fun c => (c, Some (ErrorString "bad option")))
             :: [DefaultAction "never applied"])
  = Err (ErrorString "bad option").
Proof.
  apply (NewClient_first_error (fun _ => Ok (mkHttpResponse "" None)) "http://host"
           [DebugMode; DefaultUserAgent "A"]
           (fun c => (c, Some (ErrorString "bad option")))
           [DefaultAction "never applied"]).
  - repeat constructor.
  - reflexivity.
Defined.

(** ** The headers of the outbound request *)

Section HeaderExtra.

Context {V : Type}.
Variable basicAuth : string -> string -> string.

Ltac split_settings :=
  repeat match goal with
         | |- context [if negb (String.eqb ?s "") then _ else _] =>
             destruct (negb (String.eqb s "")) eqn:?
         end.

Ltac header_lookups :=
  repeat first
    [ rewrite lookup_HeaderSet_eq
    | rewrite lookup_HeaderAdd_eq
    | rewrite lookup_HeaderSet_ne by done
    | rewrite lookup_HeaderAdd_ne by done
    | rewrite lookup_empty ].

Lemma requestHeaders_Authorization (c : Client) (soapReq : Request (V:=V)) :
  requestHeaders basicAuth c soapReq !! "Authorization"
  = if isSet (bearerToken soapReq) then Some ["Bearer " +:+ bearerToken soapReq]
    else if isSet (clientBearerToken c) then Some ["Bearer " +:+ clientBearerToken c]
    else if isSet (username soapReq) then
      Some [basicAuth (username soapReq) (password soapReq)]
    else if isSet (clientUsername c) then
      Some [basicAuth (clientUsername c) (clientPassword c)]
    else None.
Proof.
  unfold requestHeaders, isSet. split_settings; header_lookups; done.
Qed.

Lemma requestHeaders_SOAPAction (c : Client) (soapReq : Request (V:=V)) :
  requestHeaders basicAuth c soapReq !! "SOAPAction"
  = if isSet (action soapReq) then Some [action soapReq]
    else if isSet (clientAction c) then Some [clientAction c]
    else None.
Proof.
  unfold requestHeaders, isSet. split_settings; header_lookups; done.
Qed.

(** Bearer beats basic: a bearer token, of the request or else of the
    client, gives the one Authorization value; without any token the
    basic-auth pair of the request, or else of the client, does, where a
    level counts only when its user name is set; with neither there is no
    Authorization header. *)
Theorem Authorization_header (c : Client) (soapReq : Request (V:=V)) :
  requestHeaders basicAuth c soapReq !! "Authorization"
  = if isSet (bearerToken soapReq) then Some ["Bearer " +:+ bearerToken soapReq]
    else if isSet (clientBearerToken c) then Some ["Bearer " +:+ clientBearerToken c]
    else if isSet (username soapReq) then
      Some [basicAuth (username soapReq) (password soapReq)]
    else if isSet (clientUsername c) then
      Some [basicAuth (clientUsername c) (clientPassword c)]
    else None.
Proof. apply requestHeaders_Authorization. Qed.

(** The SOAPAction header carries the action of the request when that
    is set, else that of the client when that is set, and is absent
    otherwise. *)
Theorem SOAPAction_header (c : Client) (soapReq : Request (V:=V)) :
  requestHeaders basicAuth c soapReq !! "SOAPAction"
  = if isSet (action soapReq) then Some [action soapReq]
    else if isSet (clientAction c) then Some [clientAction c]
    else None.
Proof. apply requestHeaders_SOAPAction. Qed.

Lemma requestHeaders_other (c : Client) (soapReq : Request (V:=V)) (k : string) :
  k <> "Content-Type" -> k <> "SOAPAction" -> k <> "User-Agent" ->
  k <> "Authorization" ->
  requestHeaders basicAuth c soapReq !! k = None.
Proof.
  intros H1 H2 H3 H4. unfold requestHeaders.
  split_settings;
    repeat first [ rewrite lookup_HeaderSet_ne by done
                 | rewrite lookup_HeaderAdd_ne by done ];
    apply lookup_empty.
Qed.

Lemma layered_nonempty (x y z : string) : z <> "" -> layered x y z <> "".
Proof. intros Hz. unfold layered. repeat case_decide; done. Qed.

(** The client sets four headers at most, each with exactly one value:
    every key of the outbound headers is one of Content-Type, SOAPAction,
    User-Agent and Authorization, and holds a single value, which is not
    the empty string for Content-Type and User-Agent. *)
Theorem outbound_headers_single_valued (c : Client) (soapReq : Request (V:=V))
    (k : string) (values : list string) :
  requestHeaders basicAuth c soapReq !! k = Some values ->
  k ∈ ["Content-Type"; "SOAPAction"; "User-Agent"; "Authorization"]
  /\ exists value, values = [value]
                   /\ (k = "Content-Type" \/ k = "User-Agent" -> value <> "").
Proof.
  intros H.
  destruct (decide (k = "Content-Type")) as [-> | H1].
  { rewrite requestHeaders_Content_Type in H. injection H as <-.
    split; [set_solver |]. eexists. split; [done |]. intros _.
    by apply layered_nonempty. }
  destruct (decide (k = "User-Agent")) as [-> | H3].
  { rewrite requestHeaders_User_Agent in H. injection H as <-.
    split; [set_solver |]. eexists. split; [done |]. intros _.
    by apply layered_nonempty. }
  destruct (decide (k = "SOAPAction")) as [-> | H2].
  { rewrite requestHeaders_SOAPAction in H. split; [set_solver |].
    destruct (isSet (action soapReq)); [injection H as <-; eexists; split; [done | intros [|]; done] |].
    destruct (isSet (clientAction c)); [injection H as <-; eexists; split; [done | intros [|]; done] | done]. }
  destruct (decide (k = "Authorization")) as [-> | H4].
  { rewrite requestHeaders_Authorization in H. split; [set_solver |].
    repeat match type of H with
           | (if ?b then _ else _) = _ => destruct b
           end;
      try done; injection H as <-; eexists; (split; [done | intros [|]; done]). }
  by rewrite requestHeaders_other in H.
Qed.

End HeaderExtra.

Lemma outbound_headers_single_valued_witness :
  "Authorization" ∈ ["Content-Type"; "SOAPAction"; "User-Agent"; "Authorization"]
  /\ exists value, ["Bearer tok"] = [value]
                   /\ ("Authorization" = "Content-Type" \/ "Authorization" = "User-Agent"
                       -> value <> "").
Proof.
  apply (outbound_headers_single_valued sampleBasicAuth (answeringClient "")
           (fst (applyOptions (optionOf <$> [OBasicAuth "alice" "secret";
                                             OBearerToken "tok"])
                              (NewRequest (V:=list Node) "/p" None None [])))).
  vm_compute. reflexivity.
Defined.

(** ** Further properties of [CallWithContext] *)

Section CallExtra.

Context {V T : Type}.
Variable marshalValue : string -> V -> result (list Node).
Variable pickPrefix : string -> list string -> string.
Variable unmarshal : T -> Name -> list Attr -> list Node -> T * option error.
Variable lex : string -> list Token.
Variable urlError : string -> option error.
Variable basicAuth : string -> string -> string.

Lemma filter_debugPrintXml (c : Client) (info : string) :
  filter (fun ev => isDebug ev = false) (debugPrintXml c info) = [].
Proof. unfold debugPrintXml. by destruct (debug c). Qed.

(** What a call does, leaving debug output aside, is one of four things:
    nothing; one exchange with the transport; one exchange and closing the
    response body; or one exchange, handing the bytes read to [Parse], and
    closing the response body.  So there is never a second exchange, the
    body is closed whenever the exchange succeeded and never otherwise,
    and [Parse] runs before the body is closed.  The request sent is a
    POST to base address plus path, marked to close the connection, with
    the serialized envelope as its body. *)
Theorem CallWithContext_trace_shape (c : Client) (soapReq : Request (V:=V))
    (response : Interface) (o o' : T) (err : option error) (tr : list Event) :
  CallWithContext marshalValue pickPrefix unmarshal lex urlError basicAuth
                  c soapReq response o = Some (o', err, tr) ->
  filter (fun ev => isDebug ev = false) tr = []
  \/ exists buffer,
       Serialize marshalValue pickPrefix soapReq = Ok buffer
       /\ ((filter (fun ev => isDebug ev = false) tr = [EvDo (sentRequest basicAuth c soapReq buffer)]
            /\ exists e, httpClient c (sentRequest basicAuth c soapReq buffer) = Err e)
           \/ exists res,
                httpClient c (sentRequest basicAuth c soapReq buffer) = Ok res
                /\ (filter (fun ev => isDebug ev = false) tr
                    = [EvDo (sentRequest basicAuth c soapReq buffer); EvClose]
                    \/ filter (fun ev => isDebug ev = false) tr
                       = [EvDo (sentRequest basicAuth c soapReq buffer);
                          EvParse (RawBody res); EvClose])).
Proof.
  unfold CallWithContext. fold (debugPrintXml c).
  destruct (Serialize marshalValue pickPrefix soapReq) as [buffer | e].
  2:{ intros [= _ _ <-]. by left. }
  destruct (urlError (base c +:+ path soapReq)) as [e |].
  { intros [= _ _ <-]. left. apply filter_debugPrintXml. }
  fold (sentRequest basicAuth c soapReq buffer). intros H. right. exists buffer. split; [done |].
  destruct (httpClient c (sentRequest basicAuth c soapReq buffer)) as [res | e].
  2:{ injection H as _ _ <-. left. split; [| by eexists].
      by rewrite filter_app, filter_debugPrintXml. }
  right. exists res. split; [done |].
  destruct (ReadErr res) as [e |].
  { injection H as _ _ <-. left. by rewrite !filter_app, filter_debugPrintXml. }
  destruct (Nat.eqb (String.length (RawBody res)) 0).
  { injection H as _ _ <-. left. by rewrite !filter_app, filter_debugPrintXml. }
  destruct (Parse unmarshal (lex (RawBody res)) response o) as [[o1 e1] |]; [| done].
  injection H as _ _ <-. right.
  by rewrite !filter_app, !filter_debugPrintXml.
Qed.

(** Nothing is sent when the envelope cannot be serialized or the URL
    is rejected: the call returns that error unchanged, leaves the
    destination alone, and never invokes the transport. *)
Theorem CallWithContext_nothing_sent (c : Client) (soapReq : Request (V:=V))
    (response : Interface) (o : T) (e : error) :
  Serialize marshalValue pickPrefix soapReq = Err e
  \/ ((exists buffer, Serialize marshalValue pickPrefix soapReq = Ok buffer)
      /\ urlError (base c +:+ path soapReq) = Some e) ->
  exists tr,
    CallWithContext marshalValue pickPrefix unmarshal lex urlError basicAuth
                    c soapReq response o = Some (o, Some e, tr)
    /\ forall req, EvDo req ∉ tr.
Proof.
  unfold CallWithContext, debugPrintXml. intros [-> | [[buffer ->] ->]].
  - eexists. split; [done |]. intros req Hin. by apply elem_of_nil in Hin.
  - eexists. split; [done |]. intros req Hin.
    destruct (debug c); [| by apply elem_of_nil in Hin].
    by apply list_elem_of_singleton in Hin.
Qed.

(** An error of the transport, or of reading the response body, is
    returned unchanged; the destination is left alone and nothing is
    handed to [Parse]. *)
Theorem CallWithContext_transport_error (c : Client) (soapReq : Request (V:=V))
    (response : Interface) (o : T) (buffer : list Token) (e : error) :
  Serialize marshalValue pickPrefix soapReq = Ok buffer ->
  urlError (base c +:+ path soapReq) = None ->
  httpClient c (sentRequest basicAuth c soapReq buffer) = Err e
  \/ (exists res, httpClient c (sentRequest basicAuth c soapReq buffer) = Ok res
                  /\ ReadErr res = Some e) ->
  exists tr,
    CallWithContext marshalValue pickPrefix unmarshal lex urlError basicAuth
                    c soapReq response o = Some (o, Some e, tr)
    /\ forall rawbody, EvParse rawbody ∉ tr.
Proof.
  intros Hser Hurl H. unfold CallWithContext, debugPrintXml.
  rewrite Hser, Hurl. fold (sentRequest basicAuth c soapReq buffer).
  assert (Hnp : forall (l : list Event) rawbody,
             EvParse rawbody ∈ (if debug c then [EvDebug "Request:"] else [])
                                ++ EvDo (sentRequest basicAuth c soapReq buffer) :: l ->
             EvParse rawbody ∈ l).
  { intros l rawbody Hin. apply elem_of_app in Hin as [Hin | Hin].
    - destruct (debug c); [| by apply elem_of_nil in Hin].
      by apply list_elem_of_singleton in Hin.
    - by apply elem_of_cons in Hin as [Hin | Hin]. }
  destruct H as [-> | (res & -> & ->)].
  - eexists. split; [done |]. intros rawbody Hin. apply Hnp in Hin.
    by apply elem_of_nil in Hin.
  - eexists. split; [done |]. intros rawbody Hin. rewrite <- app_assoc in Hin.
    apply Hnp in Hin. by apply list_elem_of_singleton in Hin.
Qed.

(** With a non-empty response body the call returns what [Parse] returns
    for the bytes read, error and destination alike - a Fault included -
    whatever status the response has. *)
Theorem CallWithContext_returns_Parse (c : Client) (soapReq : Request (V:=V))
    (response : Interface) (o o' : T) (buffer : list Token) (res : HttpResponse)
    (err : option error) :
  Serialize marshalValue pickPrefix soapReq = Ok buffer ->
  urlError (base c +:+ path soapReq) = None ->
  httpClient c (sentRequest basicAuth c soapReq buffer) = Ok res ->
  ReadErr res = None ->
  RawBody res <> "" ->
  Parse unmarshal (lex (RawBody res)) response o = Some (o', err) ->
  exists tr,
    CallWithContext marshalValue pickPrefix unmarshal lex urlError basicAuth
                    c soapReq response o = Some (o', err, tr)
    /\ EvParse (RawBody res) ∈ tr.
Proof.
  intros Hser Hurl Hdo Hread Hne Hparse. unfold CallWithContext.
  rewrite Hser, Hurl. fold (sentRequest basicAuth c soapReq buffer). rewrite Hdo, Hread.
  destruct (RawBody res) as [| ch s] eqn:Hraw; [done |]. simpl Nat.eqb. cbv iota.
  rewrite Hparse. eexists. split; [done |].
  rewrite !elem_of_app. right. left.
Qed.

(** Debug mode changes nothing but the output: with the debug flag set
    or not, a call returns the same error, leaves the same destination,
    and does the same things apart from printing. *)
Theorem CallWithContext_debug_irrelevant (c : Client) (soapReq : Request (V:=V))
    (response : Interface) (o : T) (d : bool) :
  (fun '(o', err, tr) => (o', err, filter (fun ev => isDebug ev = false) tr))
    <$> CallWithContext marshalValue pickPrefix unmarshal lex urlError basicAuth
                        (setDebug d c) soapReq response o
  = (fun '(o', err, tr) => (o', err, filter (fun ev => isDebug ev = false) tr))
      <$> CallWithContext marshalValue pickPrefix unmarshal lex urlError basicAuth
                          c soapReq response o.
Proof.
  unfold CallWithContext.
  destruct (Serialize marshalValue pickPrefix soapReq) as [buffer | e]; [| done].
  change (base (setDebug d c)) with (base c).
  change (httpClient (setDebug d c)) with (httpClient c).
  change (requestHeaders basicAuth (setDebug d c) soapReq)
    with (requestHeaders basicAuth c soapReq).
  destruct (urlError (base c +:+ path soapReq)) as [e |].
  { simpl. by rewrite !filter_debugPrintXml. }
  destruct (httpClient c _) as [res | e].
  2:{ simpl. by rewrite !filter_app, !filter_debugPrintXml. }
  destruct (ReadErr res) as [e |].
  { simpl. by rewrite !filter_app, !filter_debugPrintXml. }
  destruct (Nat.eqb (String.length (RawBody res)) 0).
  { simpl. by rewrite !filter_app, !filter_debugPrintXml. }
  destruct (Parse unmarshal (lex (RawBody res)) response o) as [[o1 e1] |]; [| done].
  simpl. by rewrite !filter_app, !filter_debugPrintXml.
Qed.

End CallExtra.

Lemma CallWithContext_trace_shape_witness :
  filter (fun ev => isDebug ev = false) sampleTrace = []
  \/ exists buffer,
       Serialize sliceMarshal noPrefix sampleRequest = Ok buffer
       /\ ((filter (fun ev => isDebug ev = false) sampleTrace
            = [EvDo (sentRequest sampleBasicAuth emptyBodyClient sampleRequest buffer)]
            /\ exists e, httpClient emptyBodyClient
                           (sentRequest sampleBasicAuth emptyBodyClient sampleRequest buffer)
                         = Err e)
           \/ exists res,
                httpClient emptyBodyClient
                  (sentRequest sampleBasicAuth emptyBodyClient sampleRequest buffer) = Ok res
                /\ (filter (fun ev => isDebug ev = false) sampleTrace
                    = [EvDo (sentRequest sampleBasicAuth emptyBodyClient sampleRequest buffer);
                       EvClose]
                    \/ filter (fun ev => isDebug ev = false) sampleTrace
                       = [EvDo (sentRequest sampleBasicAuth emptyBodyClient sampleRequest
                                  buffer);
                          EvParse (RawBody res); EvClose])).
Proof.
  apply (CallWithContext_trace_shape sliceMarshal noPrefix sliceUnmarshal sampleLex
           anyURL sampleBasicAuth emptyBodyClient sampleRequest IPointer [] [] None).
  reflexivity.
Defined.

Lemma CallWithContext_nothing_sent_witness :
  exists tr,
    CallWithContext payloadMarshal noPrefix priceUnmarshal sampleLex anyURL
                    sampleBasicAuth emptyBodyClient
                    (NewRequest "/p" (Some (Unsupported "func()")) None [])
                    IPointer (mkPrice "7")
    = Some (mkPrice "7", Some (ErrorString "xml: unsupported type: func()"), tr)
    /\ forall req, EvDo req ∉ tr.
Proof.
  apply (CallWithContext_nothing_sent payloadMarshal noPrefix priceUnmarshal sampleLex
           anyURL sampleBasicAuth emptyBodyClient
           (NewRequest "/p" (Some (Unsupported "func()")) None [])
           IPointer (mkPrice "7")).
  left. reflexivity.
Defined.

Lemma CallWithContext_transport_error_witness :
  exists tr,
    CallWithContext sliceMarshal noPrefix priceUnmarshal sampleLex anyURL
                    sampleBasicAuth (failingClient (ErrorString "connection refused"))
                    sampleRequest IPointer (mkPrice "7")
    = Some (mkPrice "7", Some (ErrorString "connection refused"), tr)
    /\ forall rawbody, EvParse rawbody ∉ tr.
Proof.
  eapply (CallWithContext_transport_error sliceMarshal noPrefix priceUnmarshal sampleLex
            anyURL sampleBasicAuth (failingClient (ErrorString "connection refused"))
            sampleRequest IPointer (mkPrice "7")).
  - reflexivity.
  - reflexivity.
  - left. reflexivity.
Defined.

Lemma CallWithContext_returns_Parse_witness :
  exists tr,
    CallWithContext sliceMarshal noPrefix priceUnmarshal priceLex anyURL
                    sampleBasicAuth (answeringClient "<Envelope>")
                    sampleRequest IPointer (mkPrice "")
    = Some (mkPrice "42", None, tr)
    /\ EvParse (RawBody (mkHttpResponse "<Envelope>" None)) ∈ tr.
Proof.
  eapply (CallWithContext_returns_Parse sliceMarshal noPrefix priceUnmarshal priceLex
            anyURL sampleBasicAuth (answeringClient "<Envelope>") sampleRequest
            IPointer (mkPrice "") (mkPrice "42") _ (mkHttpResponse "<Envelope>" None));
    [reflexivity | reflexivity | reflexivity | reflexivity | discriminate | reflexivity].
Defined.
